(** * Code-review backend: a shallow embedding and its checked properties

    The development follows the backend of the repository:

    - [Js]: the fragment of JavaScript data the services manipulate
      (UTF-16 strings, JSON values, truthiness, property reads, thrown
      errors);
    - [LLMService]: the response parser [parseAnalysisResponse] of
      services/llmService.js (the Gemini service carries the same parser);
    - [AIService]: the provider switch of services/aiService.js;
    - [Prisma]: the tables of the relational schema and the client calls
      the services issue;
    - [CodeAnalysisService]: the review orchestrator
      ([analyzeStagedChanges], [analyzeCommit]);
    - [StandardsRoutes]: the handlers of routes/standards.js;
    - [LLMReplies]: what llmService.js makes of the other replies of the
      model ([extractFixedCode], [parseJsonResponse], [estimateEffort]);
    - [ReviewStats], [AutoFix]: [getReviewStats] and [generateAutoFix] of
      the orchestrator;
    - [Health], [AIProviderRoutes], [AIServiceCalls]: the health checks
      of the two services, the guard of the AI service and the
      handlers of routes/aiProvider.js;
    - [ReviewsRoutes], [StandardsReads]: the analysis and delete handlers
      of routes/reviews.js and GET /api/standards/:id.

    Host facilities (JSON.parse, git, the diff parser, the model runtime,
    the clock, failures of the database) are inputs of the model: every
    statement is universally quantified over them. Row identifiers, which
    the database generates as opaque strings, are natural numbers drawn
    from a counter. *)

From Stdlib Require Import SpecFloat.
From stdpp Require Import base tactics numbers option list strings gmap.
From stdpp Require pretty.

Set Default Proof Using "Type".
Set Warnings "-register-all".
Open Scope Z_scope.

(* ================================================================== *)
(** * JavaScript data *)
(* ================================================================== *)

Module Js.

(** A string is a sequence of UTF-16 code units. *)
Definition jschar := N.
Definition jsstring := list N.

(** A source literal (ASCII) as a JavaScript string. *)
Definition lit (s : string) : jsstring := Ascii.N_of_ascii <$> String.list_ascii_of_string s.

(** [s] between double quotes. *)
Definition quoted (s : jsstring) : jsstring := [34%N] ++ s ++ [34%N].

Definition char_eqb (a b : jschar) : bool := N.eqb a b.
Definition str_eqb (a b : jsstring) : bool := bool_decide (a = b).

(** White space of [\s] and of [String.prototype.trim]: WhiteSpace and
    LineTerminator code points. *)
Definition is_space (c : jschar) : bool :=
  ((9 <=? c) && (c <=? 13) || (c =? 32) || (c =? 160) || (c =? 5760)
   || (8192 <=? c) && (c <=? 8202) || (c =? 8232) || (c =? 8233)
   || (c =? 8239) || (c =? 8287) || (c =? 12288) || (c =? 65279))%N.

Fixpoint skip_spaces (s : jsstring) : jsstring :=
  match s with
  | c :: r => if is_space c then skip_spaces r else s
  | [] => []
  end.

(** [s.trim()] *)
Definition trim (s : jsstring) : jsstring :=
  reverse (skip_spaces (reverse (skip_spaces s))).

(** [s.substring(0, n)] *)
Definition substring0 (n : nat) (s : jsstring) : jsstring := take n s.

(** [s.substring(1)] *)
Definition substring1 (s : jsstring) : jsstring := drop 1 s.

(** [xs.join(sep)] on an array of strings. *)
Fixpoint join (sep : jsstring) (xs : list jsstring) : jsstring :=
  match xs with
  | [] => []
  | [x] => x
  | x :: rest => x ++ sep ++ join sep rest
  end.

(** [strip_prefix p s] is what follows the literal [p] at the start of
    [s], if [s] starts with it. *)
Fixpoint strip_prefix (p s : jsstring) : option jsstring :=
  match p, s with
  | [], _ => Some s
  | a :: p', b :: s' => if char_eqb a b then strip_prefix p' s' else None
  | _ :: _, [] => None
  end.

(** Numbers are IEEE-754 doubles, kept as data. *)
Definition number := spec_float.
Definition num_of_Z (z : Z) : number := binary_normalize 53 1024 z 0 false.
Definition num_of_nat (n : nat) : number := num_of_Z (Z.of_nat n).
Definition num_half : number := S754_finite false 4503599627370496 (-53).
Definition num_mul (x y : number) : number := SFmul 53 1024 x y.
Definition num_div (x y : number) : number := SFdiv 53 1024 x y.

Definition num_truthy (x : number) : bool :=
  match x with
  | S754_zero _ | S754_nan => false
  | _ => true
  end.

(** The integer a double denotes, when it denotes one. *)
Definition num_to_Z (x : number) : option Z :=
  match x with
  | S754_zero _ => Some 0
  | S754_finite s m e =>
      let v := if s then Z.neg m else Z.pos m in
      if 0 <=? e then Some (v * 2 ^ e)
      else if (Z.pos m) mod 2 ^ (- e) =? 0 then Some (v `quot` 2 ^ (- e))
      else None
  | _ => None
  end.

(** Values produced by [JSON.parse]. An object lists its own properties,
    one entry per key. *)
Inductive JSValue : Type :=
  | JNull
  | JBool (b : bool)
  | JNumber (x : number)
  | JString (s : jsstring)
  | JArray (xs : list JSValue)
  | JObject (props : list (jsstring * JSValue)).

(** A property read, or any expression that may evaluate to [undefined]. *)
Definition jsval := option JSValue.
Definition undefined : jsval := None.

Definition truthy (v : JSValue) : bool :=
  match v with
  | JNull => false
  | JBool b => b
  | JNumber x => num_truthy x
  | JString s => negb (str_eqb s [])
  | JArray _ | JObject _ => true
  end.

Definition truthy_opt (v : jsval) : bool :=
  match v with
  | Some x => truthy x
  | None => false
  end.

(** [v || d] where [d] is a value. *)
Definition or_else (v : jsval) (d : JSValue) : JSValue :=
  match v with
  | Some x => if truthy x then x else d
  | None => d
  end.

(** [v !== undefined] *)
Definition is_defined (v : jsval) : bool :=
  match v with
  | Some _ => true
  | None => false
  end.

(** [Array.isArray(v) ? v : []] *)
Definition array_or_empty (v : jsval) : list JSValue :=
  match v with
  | Some (JArray xs) => xs
  | _ => []
  end.

Definition isArray (v : jsval) : bool :=
  match v with
  | Some (JArray _) => true
  | _ => false
  end.

(** [v === s] for a string [s]. *)
Definition is_string (s : jsstring) (v : JSValue) : bool :=
  match v with
  | JString t => str_eqb t s
  | _ => false
  end.

Fixpoint lookup_prop (k : jsstring) (props : list (jsstring * JSValue)) : jsval :=
  match props with
  | [] => None
  | (k', v) :: rest => if str_eqb k k' then Some v else lookup_prop k rest
  end.

(** Thrown values. *)
Inductive Error : Type := Err (message : jsstring).

Definition message (e : Error) : jsstring := match e with Err m => m end.

Inductive outcome (A : Type) : Type :=
  | Ok (a : A)
  | Throw (e : Error).
Arguments Ok {A} a.
Arguments Throw {A} e.

#[export] Instance outcome_ret : MRet outcome := fun A a => Ok a.
#[export] Instance outcome_bind : MBind outcome := fun A B f m =>
  match m with
  | Ok a => f a
  | Throw e => Throw e
  end.

Definition TypeError : Error := Err (lit "TypeError: Cannot read properties of null").
Definition SyntaxError : Error := Err (lit "SyntaxError: invalid JSON").

(** [v.k] for the property names the services read ([title], [issues],
    [summary], ...): none of them is found on the prototype of a string, a
    number, a boolean or an array, so only an object can answer; reading a
    property of [null] throws. *)
Definition get (v : JSValue) (k : string) : outcome jsval :=
  match v with
  | JNull => Throw TypeError
  | JObject props => Ok (lookup_prop (lit k) props)
  | _ => Ok undefined
  end.

(** [v?.k] on a possibly-undefined [v]. *)
Definition get_opt (v : jsval) (k : string) : jsval :=
  match v with
  | Some (JObject props) => lookup_prop (lit k) props
  | _ => undefined
  end.

(** [xs.filter(p)] and [xs.map(f)] with a callback that may throw. *)
Fixpoint filterM {A} (p : A → outcome bool) (xs : list A) : outcome (list A) :=
  match xs with
  | [] => Ok []
  | x :: rest =>
      b ← p x;
      kept ← filterM p rest;
      Ok (if b : bool then x :: kept else kept)
  end.

Fixpoint mapM {A B} (f : A → outcome B) (xs : list A) : outcome (list B) :=
  match xs with
  | [] => Ok []
  | x :: rest =>
      y ← f x;
      ys ← mapM f rest;
      Ok (y :: ys)
  end.

End Js.

Import Js.

(* ================================================================== *)
(** * services/llmService.js: the response parser *)
(* ================================================================== *)

Module LLMService.

(** One normalised issue, as built by the [.map] of
    [parseAnalysisResponse]. *)
Record Issue := {
  line : JSValue;
  lineEnd : JSValue;
  severity : JSValue;
  category : JSValue;
  title : JSValue;
  description : JSValue;
  suggestion : JSValue;
  autoFixable : bool;
  standard : JSValue;
  documentationNeeded : JSValue;
}.

Record Recommendations := {
  documentation : list JSValue;
  testing : list JSValue;
  architecture : list JSValue;
  cicd : list JSValue;
}.

Record Analysis := {
  issues : list Issue;
  summary : JSValue;
  recommendations : Recommendations;
}.

Definition fence : jsstring := lit "```".
Definition open_brace : jschar := 123%N.
Definition close_brace : jschar := 125%N.

(** [\s*```] right after a closing brace: the white space is skipped
    whole, since a back-tick is not white space. *)
Definition closes_fence (s : jsstring) : bool :=
  bool_decide (is_Some (strip_prefix fence (skip_spaces s))).

(** [[\s\S]*?\}\s*```]: the shortest run that ends in a brace the fence
    closes. The result keeps the brace. *)
Fixpoint lazy_body (r : jsstring) : option jsstring :=
  match r with
  | [] => None
  | c :: r' =>
      if char_eqb c close_brace && closes_fence r' then Some [c]
      else (c ::.) <$> lazy_body r'
  end.

(** The first pattern tried at the start of [s]; the answer is capture
    group 1. The optional [json] and the white space leave no choice to
    back-track over: the next atom is a brace. *)
Definition fenced_at (s : jsstring) : option jsstring :=
  r ← strip_prefix fence s;
  let r1 := default r (strip_prefix (lit "json") r) in
  match skip_spaces r1 with
  | c :: r2 => if char_eqb c open_brace then (c ::.) <$> lazy_body r2 else None
  | [] => None
  end.

(** [response.match(/```(?:json)?\s*(\{[\s\S]*?\})\s*```/)], group 1 of
    the leftmost match. *)
Fixpoint match_fenced (s : jsstring) : option jsstring :=
  match s with
  | [] => None
  | _ :: r =>
      match fenced_at s with
      | Some g => Some g
      | None => match_fenced r
      end
  end.

(** Up to and including the last closing brace. *)
Fixpoint upto_last_close (s : jsstring) : option jsstring :=
  match s with
  | [] => None
  | c :: r =>
      match upto_last_close r with
      | Some t => Some (c :: t)
      | None => if char_eqb c close_brace then Some [c] else None
      end
  end.

(** [response.match(/\{[\s\S]*\}/)]: from the first opening brace to the
    last closing brace after it. A later opening brace cannot succeed
    where the first one fails. *)
Fixpoint match_braces (s : jsstring) : option jsstring :=
  match s with
  | [] => None
  | c :: r =>
      if char_eqb c open_brace then (c ::.) <$> upto_last_close r
      else match_braces r
  end.

(** [jsonMatch[1] || jsonMatch[0]]: group 1 of the fenced pattern is never
    empty, the brace pattern has no group. *)
Definition locate_json (response : jsstring) : option jsstring :=
  match match_fenced response with
  | Some g => Some g
  | None => match_braces response
  end.

Definition emptyResult : Analysis := {|
  issues := [];
  summary := JObject [(lit "critical", JNumber (num_of_nat 0));
                      (lit "major", JNumber (num_of_nat 0));
                      (lit "minor", JNumber (num_of_nat 0));
                      (lit "info", JNumber (num_of_nat 0))];
  recommendations := {| documentation := []; testing := [];
                        architecture := []; cicd := [] |};
|}.

(** The callback of [.filter]. *)
Definition has_required_fields (issue : JSValue) : outcome bool :=
  t ← get issue "title";
  if negb (truthy_opt t) then Ok false else
  d ← get issue "description";
  if negb (truthy_opt d) then Ok false else
  s ← get issue "severity";
  if negb (truthy_opt s) then Ok false else
  c ← get issue "category";
  if negb (truthy_opt c) then Ok false else
  l ← get issue "line";
  Ok (is_defined l).

(** The callback of [.map]. [title] and [description] are copied as they
    are: the filter has found them truthy. *)
Definition normalize_issue (issue : JSValue) : outcome Issue :=
  l ← get issue "line";
  le ← get issue "lineEnd";
  s ← get issue "severity";
  c ← get issue "category";
  t ← get issue "title";
  d ← get issue "description";
  sg ← get issue "suggestion";
  af ← get issue "autoFixable";
  st ← get issue "standard";
  dn ← get issue "documentationNeeded";
  Ok {| line := or_else l (JNumber (num_of_nat 1));
        lineEnd := or_else le (or_else l (JNumber (num_of_nat 1)));
        severity := or_else s (JString (lit "INFO"));
        category := or_else c (JString (lit "style"));
        title := default JNull t;
        description := default JNull d;
        suggestion := or_else sg (JString []);
        autoFixable := truthy_opt af;
        standard := or_else st JNull;
        documentationNeeded := or_else dn JNull |}.

(** [i.severity === label] *)
Definition has_severity (label : string) (i : Issue) : bool :=
  is_string (lit label) (severity i).

Definition count_severity (label : string) (xs : list Issue) : JSValue :=
  JNumber (num_of_nat (length (filter (λ i, has_severity label i = true) xs))).

(** Lines 280-329: what is made of the parsed value. *)
Definition build_result (parsed : JSValue) : outcome Analysis :=
  raw ← get parsed "issues";
  let candidates := array_or_empty raw in
  kept ← filterM has_required_fields candidates;
  validIssues ← mapM normalize_issue kept;
  sm ← get parsed "summary";
  recs ← get parsed "recommendations";
  Ok {| issues := validIssues;
        summary := or_else sm
          (JObject [(lit "critical", count_severity "CRITICAL" validIssues);
                    (lit "major", count_severity "MAJOR" validIssues);
                    (lit "minor", count_severity "MINOR" validIssues);
                    (lit "info", count_severity "INFO" validIssues)]);
        recommendations :=
          {| documentation := array_or_empty (get_opt recs "documentation");
             testing := array_or_empty (get_opt recs "testing");
             architecture := array_or_empty (get_opt recs "architecture");
             cicd := array_or_empty (get_opt recs "cicd") |} |}.

Section Parser.

(** The host's [JSON.parse]: [None] when it throws a SyntaxError. *)
Variable JSON_parse : jsstring → option JSValue.

(** The body of the [try]. *)
Definition parse_located (response : jsstring) : outcome Analysis :=
  match locate_json response with
  | Some jsonStr =>
      match JSON_parse jsonStr with
      | Some parsed => build_result parsed
      | None => Throw SyntaxError
      end
  | None => Ok emptyResult
  end.

(** [parseAnalysisResponse(response)]: the [catch] turns whatever the
    body throws into the empty result. *)
Definition parseAnalysisResponse (response : jsstring) : outcome Analysis :=
  match parse_located response with
  | Ok r => Ok r
  | Throw _ => Ok emptyResult
  end.

End Parser.

End LLMService.

(* ================================================================== *)
(** * services/aiService.js: the provider switch *)
(* ================================================================== *)

Module AIService.

Inductive Service := llmService | geminiService.

(** The singleton's only field. *)
Record t := { provider : jsstring }.

(** [process.env.AI_PROVIDER || "ollama"] *)
Definition constructor (AI_PROVIDER : option jsstring) : t :=
  {| provider := match AI_PROVIDER with
                 | Some (c :: s) => c :: s
                 | _ => lit "ollama"
                 end |}.

Definition getService (this : t) : Service :=
  if str_eqb (provider this) (lit "gemini") then geminiService else llmService.

Definition getProvider (this : t) : jsstring := provider this.

(** [provider !== name] for an argument that may be any value, or
    missing. *)
Definition differs (v : jsval) (name : string) : bool :=
  match v with
  | Some x => negb (is_string (lit name) x)
  | None => true
  end.

Definition string_of (v : jsval) : jsstring :=
  match v with
  | Some (JString s) => s
  | _ => []
  end.

Definition invalid_provider : Error :=
  Err (lit "Invalid provider. Must be " ++ quoted (lit "ollama") ++
       lit " or " ++ quoted (lit "gemini")).

(** [setProvider(provider)]: the result and the singleton afterwards. Past
    the guard the argument is one of the two strings. *)
Definition setProvider (p : jsval) (this : t) : outcome unit * t :=
  if differs p "ollama" && differs p "gemini"
  then (Throw invalid_provider, this)
  else (Ok (), {| provider := string_of p |}).

End AIService.

(* ================================================================== *)
(** * The relational schema and the Prisma client *)
(* ================================================================== *)

Module Prisma.

Inductive ReviewStatus := PENDING | IN_PROGRESS | COMPLETED | FAILED.
Inductive IssueSeverity := CRITICAL | MAJOR | MINOR | INFO.

#[export] Instance ReviewStatus_eq_dec : EqDecision ReviewStatus.
Proof. solve_decision. Defined.
#[export] Instance IssueSeverity_eq_dec : EqDecision IssueSeverity.
Proof. solve_decision. Defined.

(** Row identifiers are generated by the database and never reused. *)
Definition Id := nat.

Module CodeReview.
Record t := {
  id : Id;
  userId : Z;
  repositoryPath : jsstring;
  branch : jsstring;
  commitHash : option jsstring;
  status : ReviewStatus;
  filesAnalyzed : nat;
  issuesFound : nat;
  criticalIssues : nat;
  majorIssues : nat;
  minorIssues : nat;
  estimatedEffort : option number;
  tokensUsed : nat;
  analysisTime : option number;
  recommendations : option LLMService.Recommendations;
}.

Definition set_status (s : ReviewStatus) (r : t) : t :=
  {| id := id r; userId := userId r; repositoryPath := repositoryPath r;
     branch := branch r; commitHash := commitHash r; status := s;
     filesAnalyzed := filesAnalyzed r; issuesFound := issuesFound r;
     criticalIssues := criticalIssues r; majorIssues := majorIssues r;
     minorIssues := minorIssues r; estimatedEffort := estimatedEffort r;
     tokensUsed := tokensUsed r; analysisTime := analysisTime r;
     recommendations := recommendations r |}.
End CodeReview.

Module CodeIssue.
Record t := {
  id : Id;
  reviewId : Id;
  filePath : jsstring;
  lineNumber : Z;
  lineEnd : option Z;
  severity : IssueSeverity;
  category : jsstring;
  title : jsstring;
  description : jsstring;
  codeSnippet : option jsstring;
  suggestion : option jsstring;
  autoFixable : bool;
  fixCode : option jsstring;
  effort : option number;
  standard : option jsstring;
  documentationNeeded : option jsstring;
  resolved : bool;
}.

Definition set_effort (e : number) (i : t) : t :=
  {| id := id i; reviewId := reviewId i; filePath := filePath i;
     lineNumber := lineNumber i; lineEnd := lineEnd i;
     severity := severity i; category := category i; title := title i;
     description := description i; codeSnippet := codeSnippet i;
     suggestion := suggestion i; autoFixable := autoFixable i;
     fixCode := fixCode i; effort := Some e; standard := standard i;
     documentationNeeded := documentationNeeded i;
     resolved := resolved i |}.
End CodeIssue.

Module CodingStandard.
Record t := {
  name : jsstring;
  description : option jsstring;
  language : jsstring;
  rules : JSValue;
  isActive : bool;
  isBuiltIn : bool;
}.
End CodingStandard.

(** The tables. Reviews are kept newest first, which is the order
    [orderBy: { createdAt: "desc" }] asks for; issues in insertion order;
    standards by primary key. *)
Record DB := {
  codeReview : list CodeReview.t;
  codeIssue : list CodeIssue.t;
  codingStandard : gmap Id CodingStandard.t;
  next_id : Id;
}.

Definition with_reviews (rs : list CodeReview.t) (d : DB) : DB :=
  {| codeReview := rs; codeIssue := codeIssue d;
     codingStandard := codingStandard d; next_id := next_id d |}.
Definition with_issues (xs : list CodeIssue.t) (d : DB) : DB :=
  {| codeReview := codeReview d; codeIssue := xs;
     codingStandard := codingStandard d; next_id := next_id d |}.
Definition with_standards (m : gmap Id CodingStandard.t) (d : DB) : DB :=
  {| codeReview := codeReview d; codeIssue := codeIssue d;
     codingStandard := m; next_id := next_id d |}.
Definition bump_id (d : DB) : DB :=
  {| codeReview := codeReview d; codeIssue := codeIssue d;
     codingStandard := codingStandard d; next_id := S (next_id d) |}.

(** ** Typing of the values handed to the client

    The client rejects (throws on) a value whose type is not the
    column's. *)

Definition ValidationError : Error := Err (lit "PrismaClientValidationError").
Definition NotFoundError : Error := Err (lit "PrismaClientKnownRequestError: P2025").
Definition UniqueError : Error := Err (lit "PrismaClientKnownRequestError: P2002").
Definition ConnectionError : Error := Err (lit "PrismaClientKnownRequestError").

Definition as_int (v : JSValue) : option Z :=
  match v with
  | JNumber x =>
      z ← num_to_Z x;
      if (- 2 ^ 31 <=? z) && (z <? 2 ^ 31) then Some z else None
  | _ => None
  end.

Definition as_float (v : JSValue) : option number :=
  match v with
  | JNumber x => Some x
  | _ => None
  end.

Definition as_string (v : JSValue) : option jsstring :=
  match v with
  | JString s => Some s
  | _ => None
  end.

Definition as_nullable_string (v : JSValue) : option (option jsstring) :=
  match v with
  | JNull => Some None
  | JString s => Some (Some s)
  | _ => None
  end.

Definition as_boolean (v : JSValue) : option bool :=
  match v with
  | JBool b => Some b
  | _ => None
  end.

Definition as_severity (v : JSValue) : option IssueSeverity :=
  match v with
  | JString s =>
      if str_eqb s (lit "CRITICAL") then Some CRITICAL
      else if str_eqb s (lit "MAJOR") then Some MAJOR
      else if str_eqb s (lit "MINOR") then Some MINOR
      else if str_eqb s (lit "INFO") then Some INFO
      else None
  | _ => None
  end.

(** The label a row's severity reads back as. *)
Definition severity_label (s : IssueSeverity) : jsstring :=
  match s with
  | CRITICAL => lit "CRITICAL"
  | MAJOR => lit "MAJOR"
  | MINOR => lit "MINOR"
  | INFO => lit "INFO"
  end.

(** The [data] of [prisma.codeIssue.create]. *)
Record IssueData := {
  d_reviewId : Id;
  d_filePath : jsstring;
  d_lineNumber : JSValue;
  d_lineEnd : JSValue;
  d_severity : JSValue;
  d_category : JSValue;
  d_title : JSValue;
  d_description : JSValue;
  d_codeSnippet : jsstring;
  d_suggestion : JSValue;
  d_autoFixable : bool;
  d_standard : JSValue;
  d_documentationNeeded : JSValue;
}.

Definition issue_row (new_id : Id) (d : IssueData) : option CodeIssue.t :=
  ln ← as_int (d_lineNumber d);
  le ← as_int (d_lineEnd d);
  sev ← as_severity (d_severity d);
  cat ← as_string (d_category d);
  ttl ← as_string (d_title d);
  dsc ← as_string (d_description d);
  sug ← as_nullable_string (d_suggestion d);
  std ← as_nullable_string (d_standard d);
  doc ← as_nullable_string (d_documentationNeeded d);
  Some {| CodeIssue.id := new_id;
          CodeIssue.reviewId := d_reviewId d;
          CodeIssue.filePath := d_filePath d;
          CodeIssue.lineNumber := ln;
          CodeIssue.lineEnd := Some le;
          CodeIssue.severity := sev;
          CodeIssue.category := cat;
          CodeIssue.title := ttl;
          CodeIssue.description := dsc;
          CodeIssue.codeSnippet := Some (d_codeSnippet d);
          CodeIssue.suggestion := sug;
          CodeIssue.autoFixable := d_autoFixable d;
          CodeIssue.fixCode := None;
          CodeIssue.effort := None;
          CodeIssue.standard := std;
          CodeIssue.documentationNeeded := doc;
          CodeIssue.resolved := false |}.

End Prisma.

(* ================================================================== *)
(** * The world the services run in *)
(* ================================================================== *)

Module Runtime.
Import Prisma.

(** The arguments of one [aiService.analyzeCode] call. *)
Record AiCall := {
  call_code : jsstring;
  call_filePath : jsstring;
  call_language : jsstring;
  call_standards : list CodingStandard.t;
}.

(** What a request can observe and change: the database, how many round
    trips the client has made, the calls made to the AI service so far and
    how often the clock was read. *)
Record World := {
  db : DB;
  round_trips : nat;
  ai_calls : list AiCall;
  clock_reads : nat;
}.

Definition with_db (d : DB) (w : World) : World :=
  {| db := d; round_trips := round_trips w; ai_calls := ai_calls w;
     clock_reads := clock_reads w |}.
Definition tick_db (w : World) : World :=
  {| db := db w; round_trips := S (round_trips w); ai_calls := ai_calls w;
     clock_reads := clock_reads w |}.
Definition log_ai (c : AiCall) (w : World) : World :=
  {| db := db w; round_trips := round_trips w;
     ai_calls := ai_calls w ++ [c]; clock_reads := clock_reads w |}.
Definition tick_clock (w : World) : World :=
  {| db := db w; round_trips := round_trips w; ai_calls := ai_calls w;
     clock_reads := S (clock_reads w) |}.

(** An [async] function: it ends in a value or a thrown error, and leaves
    a world behind either way (nothing is rolled back). *)
Definition M (A : Type) : Type := World → outcome A * World.

#[export] Instance M_ret : MRet M := λ A a w, (Ok a, w).
#[export] Instance M_bind : MBind M := λ A B f m w,
  match m w with
  | (Ok a, w') => f a w'
  | (Throw e, w') => (Throw e, w')
  end.

Definition throw {A} (e : Error) : M A := λ w, (Throw e, w).
Definition lift {A} (o : outcome A) : M A := λ w, (o, w).

(** [try { m } catch (e) { h e }] *)
Definition try_catch {A} (m : M A) (h : Error → M A) : M A := λ w,
  match m w with
  | (Ok a, w') => (Ok a, w')
  | (Throw e, w') => h e w'
  end.

(** [for (const x of xs) { ... }] threading the loop's variables. *)
Fixpoint for_of {A S} (xs : list A) (body : S → A → M S) (s : S) : M S :=
  match xs with
  | [] => mret s
  | x :: rest => s' ← body s x; for_of rest body s'
  end.

End Runtime.

Module PrismaClient.
Import Prisma Runtime.

Section Client.

(** [fault n] tells whether the [n]-th round trip fails for a reason of
    the database's own (connection lost, a constraint on a table that is
    not modelled). *)
Variable fault : nat → bool.

Definition round_trip {A} (op : DB → outcome (A * DB)) : M A := λ w,
  let w' := tick_db w in
  if fault (round_trips w) then (Throw ConnectionError, w')
  else match op (db w) with
       | Ok (a, d) => (Ok a, with_db d w')
       | Throw e => (Throw e, w')
       end.

(** [prisma.codeReview.create({ data: { userId, repositoryPath, branch,
    commitHash, status } })]; the other columns take their defaults. *)
Definition codeReview_create (userId : Z) (repositoryPath branch : jsstring)
    (commitHash : option jsstring) (status : ReviewStatus) : M CodeReview.t :=
  round_trip (λ d,
    let row := {| CodeReview.id := next_id d;
                  CodeReview.userId := userId;
                  CodeReview.repositoryPath := repositoryPath;
                  CodeReview.branch := branch;
                  CodeReview.commitHash := commitHash;
                  CodeReview.status := status;
                  CodeReview.filesAnalyzed := 0;
                  CodeReview.issuesFound := 0;
                  CodeReview.criticalIssues := 0;
                  CodeReview.majorIssues := 0;
                  CodeReview.minorIssues := 0;
                  CodeReview.estimatedEffort := None;
                  CodeReview.tokensUsed := 0;
                  CodeReview.analysisTime := None;
                  CodeReview.recommendations := None |} in
    Ok (row, bump_id (with_reviews (row :: codeReview d) d))).

Fixpoint update_row (id : Id) (f : CodeReview.t → CodeReview.t)
    (rows : list CodeReview.t) : option (CodeReview.t * list CodeReview.t) :=
  match rows with
  | [] => None
  | r :: rest =>
      if bool_decide (CodeReview.id r = id) then Some (f r, f r :: rest)
      else '(r', rest') ← update_row id f rest; Some (r', r :: rest')
  end.

(** [prisma.codeReview.update({ where: { id }, data })] with the typed
    [data] as the change [f]. *)
Definition codeReview_update (id : Id) (f : CodeReview.t → CodeReview.t)
    : M CodeReview.t :=
  round_trip (λ d,
    match update_row id f (codeReview d) with
    | Some (r, rows) => Ok (r, with_reviews rows d)
    | None => Throw NotFoundError
    end).

(** [prisma.codeReview.findFirst({ where: { userId, repositoryPath },
    orderBy: { createdAt: "desc" } })] *)
Definition codeReview_findFirst (userId : Z) (repositoryPath : jsstring)
    : M (option CodeReview.t) :=
  round_trip (λ d,
    Ok (head (filter (λ r, CodeReview.userId r = userId ∧
                           CodeReview.repositoryPath r = repositoryPath)
                     (codeReview d)), d)).

(** [prisma.codeIssue.create({ data })] *)
Definition codeIssue_create (data : IssueData) : M CodeIssue.t :=
  round_trip (λ d,
    match issue_row (next_id d) data with
    | Some row => Ok (row, bump_id (with_issues (codeIssue d ++ [row]) d))
    | None => Throw ValidationError
    end).

(** [prisma.codeIssue.update({ where: { id }, data: { effort } })] *)
Definition codeIssue_update_effort (id : Id) (effort : JSValue) : M unit :=
  round_trip (λ d,
    match as_float effort with
    | None => Throw ValidationError
    | Some e =>
        if bool_decide (Exists (λ i, CodeIssue.id i = id) (codeIssue d))
        then Ok ((), with_issues
                   ((λ i, if bool_decide (CodeIssue.id i = id)
                          then CodeIssue.set_effort e i else i)
                    <$> codeIssue d) d)
        else Throw NotFoundError
    end).

(** [prisma.codingStandard.findMany({ where: { isActive: true } })] *)
Definition codingStandard_findMany_active : M (list CodingStandard.t) :=
  round_trip (λ d,
    Ok (filter (λ s, CodingStandard.isActive s = true)
               ((map_to_list (codingStandard d)).*2), d)).

(** [prisma.codingStandard.findUnique({ where: { id } })] *)
Definition codingStandard_findUnique (id : Id) : M (option CodingStandard.t) :=
  round_trip (λ d, Ok (codingStandard d !! id, d)).

Definition name_taken (name : jsstring) (except : option Id)
    (m : gmap Id CodingStandard.t) : bool :=
  bool_decide (Exists (λ kv, CodingStandard.name kv.2 = name ∧ Some kv.1 ≠ except)
                      (map_to_list m)).

(** [prisma.codingStandard.findUnique({ where: { name } })] *)
Definition codingStandard_findUnique_name (name : jsstring)
    : M (option CodingStandard.t) :=
  round_trip (λ d,
    Ok (head (filter (λ s, CodingStandard.name s = name)
                     ((map_to_list (codingStandard d)).*2)), d)).

(** [prisma.codingStandard.create({ data })]; [name] is a unique
    column. *)
Definition codingStandard_create (row : CodingStandard.t) : M CodingStandard.t :=
  round_trip (λ d,
    if name_taken (CodingStandard.name row) None (codingStandard d)
    then Throw UniqueError
    else Ok (row, bump_id (with_standards
               (<[next_id d := row]> (codingStandard d)) d))).

(** [prisma.codingStandard.update({ where: { id }, data })] *)
Definition codingStandard_update (id : Id)
    (f : CodingStandard.t → option CodingStandard.t) : M CodingStandard.t :=
  round_trip (λ d,
    match codingStandard d !! id with
    | None => Throw NotFoundError
    | Some old =>
        match f old with
        | None => Throw ValidationError
        | Some new =>
            if name_taken (CodingStandard.name new) (Some id) (codingStandard d)
            then Throw UniqueError
            else Ok (new, with_standards (<[id := new]> (codingStandard d)) d)
        end
    end).

(** [prisma.codingStandard.delete({ where: { id } })] *)
Definition codingStandard_delete (id : Id) : M unit :=
  round_trip (λ d,
    match codingStandard d !! id with
    | None => Throw NotFoundError
    | Some _ => Ok ((), with_standards (delete id (codingStandard d)) d)
    end).

End Client.

End PrismaClient.

(* ================================================================== *)
(** * Node's [path.extname] (POSIX) *)
(* ================================================================== *)

Module Path.

(** The variables of the backward scan. *)
Record scan := {
  startDot : Z;
  startPart : Z;
  end_ : Z;
  matchedSlash : bool;
  preDotState : Z;
  stopped : bool;
}.

Definition scan_init : scan :=
  {| startDot := -1; startPart := 0; end_ := -1; matchedSlash := true;
     preDotState := 0; stopped := false |}.

(** One turn of the loop, at index [i]. *)
Definition scan_step (path : jsstring) (st : scan) (i : nat) : scan :=
  if stopped st then st else
  let code := default 0%N (path !! i) in
  if char_eqb code 47%N then
    if negb (matchedSlash st)
    then {| startDot := startDot st; startPart := Z.of_nat i + 1;
            end_ := end_ st; matchedSlash := matchedSlash st;
            preDotState := preDotState st; stopped := true |}
    else st
  else
    let st1 :=
      if end_ st =? -1
      then {| startDot := startDot st; startPart := startPart st;
              end_ := Z.of_nat i + 1; matchedSlash := false;
              preDotState := preDotState st; stopped := false |}
      else st in
    if char_eqb code 46%N then
      if startDot st1 =? -1
      then {| startDot := Z.of_nat i; startPart := startPart st1;
              end_ := end_ st1; matchedSlash := matchedSlash st1;
              preDotState := preDotState st1; stopped := false |}
      else if negb (preDotState st1 =? 1)
      then {| startDot := startDot st1; startPart := startPart st1;
              end_ := end_ st1; matchedSlash := matchedSlash st1;
              preDotState := 1; stopped := false |}
      else st1
    else if negb (startDot st1 =? -1)
    then {| startDot := startDot st1; startPart := startPart st1;
            end_ := end_ st1; matchedSlash := matchedSlash st1;
            preDotState := -1; stopped := false |}
    else st1.

Definition extname (path : jsstring) : jsstring :=
  let st := foldl (scan_step path) scan_init (reverse (seq 0 (length path))) in
  if (startDot st =? -1) || (end_ st =? -1) || (preDotState st =? 0)
     || ((preDotState st =? 1) && (startDot st =? end_ st - 1)
         && (startDot st =? startPart st + 1))
  then []
  else take (Z.to_nat (end_ st - startDot st)) (drop (Z.to_nat (startDot st)) path).

End Path.

(* ================================================================== *)
(** * services/codeAnalysisService.js: the review orchestrator *)
(* ================================================================== *)

Module CodeAnalysisService.
Import Prisma Runtime PrismaClient.

(** ** What the parse-diff package hands over *)

Inductive ChangeType := add | del | normal.

Record Change := { type : ChangeType; content : jsstring }.
Record Chunk := { newStart : Z; changes : list Change }.
Record DiffFile := { to : jsstring; deleted : bool; chunks : list Chunk }.

Record GitStatus := { staged : list jsstring; modified : list jsstring }.

(** ** The collaborators of one request *)

Record Env := {
  JSON_parse : jsstring → option JSValue;
  parseDiff : jsstring → list DiffFile;
  (** [simpleGit(repositoryPath)]: it throws when the path is not a
      directory *)
  git_open : jsstring → outcome unit;
  (** [git.status()] *)
  git_status : jsstring → outcome GitStatus;
  (** [.branchLocal()], its [current] *)
  git_branchLocal : jsstring → outcome jsstring;
  (** [.diff(args)] *)
  git_diff : jsstring → list jsstring → outcome jsstring;
  (** [.show(args)] *)
  git_show : jsstring → list jsstring → outcome jsstring;
  (** The active provider answering the [n]-th analysis call: the raw text
      of the model and the token count reported with it, or the error of
      the health check or of the transport. *)
  ai_generate : nat → AiCall → outcome (jsstring * nat);
  (** [aiService.estimateEffort(issues)] *)
  ai_estimateEffort : list CodeIssue.t → outcome JSValue;
  db_fault : nat → bool;
  (** [Date.now()] at the [n]-th reading *)
  Date_now : nat → Z;
}.

Definition supportedExtensions : gmap jsstring jsstring :=
  list_to_map
    [(lit ".js", lit "javascript");
     (lit ".jsx", lit "javascript");
     (lit ".ts", lit "typescript");
     (lit ".tsx", lit "typescript");
     (lit ".py", lit "python");
     (lit ".java", lit "java");
     (lit ".cpp", lit "cpp");
     (lit ".c", lit "c");
     (lit ".cs", lit "csharp");
     (lit ".go", lit "go");
     (lit ".rb", lit "ruby");
     (lit ".php", lit "php");
     (lit ".rs", lit "rust")].

(** ** [extractChangedCode(file)] *)

Inductive LineType := line_add | line_context.

Record ChangedLine := {
  cl_line : Z;
  cl_content : jsstring;
  cl_type : LineType;
}.

Definition extract_change (st : list ChangedLine * Z) (change : Change)
    : list ChangedLine * Z :=
  let '(changedLines, lineNumber) := st in
  match type change with
  | add =>
      (changedLines ++ [{| cl_line := lineNumber;
                           cl_content := substring1 (content change);
                           cl_type := line_add |}], lineNumber + 1)
  | normal =>
      (changedLines ++ [{| cl_line := lineNumber;
                           cl_content := substring1 (content change);
                           cl_type := line_context |}], lineNumber + 1)
  | del => (changedLines, lineNumber)
  end.

Definition extract_chunk (st : list ChangedLine * Z) (chunk : Chunk)
    : list ChangedLine * Z :=
  let lineNumber := if newStart chunk =? 0 then 1 else newStart chunk in
  foldl extract_change (st.1, lineNumber) (changes chunk).

Definition extractChangedCode (file : DiffFile) : jsstring :=
  let changedLines := (foldl extract_chunk ([], 1) (chunks file)).1 in
  join [10%N] (cl_content <$> changedLines).

Section Orchestrator.

Variable env : Env.

Definition Date_now_read : M Z := λ w,
  (Ok (Date_now env (clock_reads w)), tick_clock w).

(** [getActiveStandards()] *)
Definition getActiveStandards : M (list CodingStandard.t) :=
  codingStandard_findMany_active (db_fault env).

(** What [aiService.analyzeCode] resolves to. *)
Record AnalysisReply := {
  analysis : LLMService.Analysis;
  reply_tokensUsed : nat;
}.

(** [aiService.analyzeCode(code, filePath, language, standards)]: the
    health check and the provider's round trip are the environment's;
    the reply carries the parsed text. *)
Definition aiService_analyzeCode (code filePath language : jsstring)
    (standards : list CodingStandard.t) : M AnalysisReply := λ w,
  let call := {| call_code := code; call_filePath := filePath;
                 call_language := language; call_standards := standards |} in
  let w' := log_ai call w in
  match ai_generate env (length (ai_calls w)) call with
  | Throw e => (Throw e, w')
  | Ok (response, tokens) =>
      match LLMService.parseAnalysisResponse (JSON_parse env) response with
      | Ok a => (Ok {| analysis := a; reply_tokensUsed := tokens |}, w')
      | Throw e => (Throw e, w')
      end
  end.

(** The variables the loop over the files updates. *)
Record Acc := {
  totalTokens : nat;
  allIssues : list CodeIssue.t;
  allRecommendations : LLMService.Recommendations;
  filesAnalyzed : nat;
}.

Definition acc_init : Acc :=
  {| totalTokens := 0; allIssues := [];
     allRecommendations :=
       {| LLMService.documentation := []; LLMService.testing := [];
          LLMService.architecture := []; LLMService.cicd := [] |};
     filesAnalyzed := 0 |}.

Definition push_issue (i : CodeIssue.t) (a : Acc) : Acc :=
  {| totalTokens := totalTokens a; allIssues := allIssues a ++ [i];
     allRecommendations := allRecommendations a;
     filesAnalyzed := filesAnalyzed a |}.

Definition count_file (a : Acc) : Acc :=
  {| totalTokens := totalTokens a; allIssues := allIssues a;
     allRecommendations := allRecommendations a;
     filesAnalyzed := S (filesAnalyzed a) |}.

(** [totalTokens += ...] and the four [push(...recs.x)]. The parser
    always answers with four arrays, so the [Array.isArray] guards of
    the loop hold. *)
Definition collect (r : AnalysisReply) (a : Acc) : Acc :=
  let recs := LLMService.recommendations (analysis r) in
  let old := allRecommendations a in
  {| totalTokens := totalTokens a + reply_tokensUsed r;
     allIssues := allIssues a;
     allRecommendations :=
       {| LLMService.documentation :=
            LLMService.documentation old ++ LLMService.documentation recs;
          LLMService.testing :=
            LLMService.testing old ++ LLMService.testing recs;
          LLMService.architecture :=
            LLMService.architecture old ++ LLMService.architecture recs;
          LLMService.cicd := LLMService.cicd old ++ LLMService.cicd recs |};
     filesAnalyzed := filesAnalyzed a |}.

Definition issue_data (review : CodeReview.t) (file : DiffFile)
    (changedCode : jsstring) (issue : LLMService.Issue) : IssueData :=
  let one := JNumber (num_of_nat 1) in
  {| d_reviewId := CodeReview.id review;
     d_filePath := to file;
     d_lineNumber := or_else (Some (LLMService.line issue)) one;
     d_lineEnd := or_else (Some (LLMService.lineEnd issue))
                    (or_else (Some (LLMService.line issue)) one);
     d_severity := or_else (Some (LLMService.severity issue))
                     (JString (lit "INFO"));
     d_category := or_else (Some (LLMService.category issue))
                     (JString (lit "style"));
     d_title := LLMService.title issue;
     d_description := LLMService.description issue;
     d_codeSnippet := substring0 5000 changedCode;
     d_suggestion := or_else (Some (LLMService.suggestion issue)) JNull;
     d_autoFixable := LLMService.autoFixable issue;
     d_standard := or_else (Some (LLMService.standard issue)) JNull;
     d_documentationNeeded :=
       or_else (Some (LLMService.documentationNeeded issue)) JNull |}.

(** One turn of the inner loop: a failed write is logged and skipped. *)
Definition save_issue (review : CodeReview.t) (file : DiffFile)
    (changedCode : jsstring) (a : Acc) (issue : LLMService.Issue) : M Acc :=
  try_catch
    (savedIssue ← codeIssue_create (db_fault env)
                    (issue_data review file changedCode issue);
     mret (push_issue savedIssue a))
    (λ _, mret a).

Definition applies_to (language : jsstring) (s : CodingStandard.t) : bool :=
  str_eqb (CodingStandard.language s) language
  || str_eqb (CodingStandard.language s) (lit "all").

(** One turn of the loop over the parsed diff. *)
Definition analyze_file (review : CodeReview.t)
    (standards : list CodingStandard.t) (a : Acc) (file : DiffFile) : M Acc :=
  if deleted file then mret a else
  let fileExt := Path.extname (to file) in
  (* [fileExt] is empty or starts with a dot, so nothing the table
     inherits can answer for it *)
  match supportedExtensions !! fileExt with
  | None => mret a
  | Some language =>
      let changedCode := extractChangedCode file in
      if str_eqb changedCode [] || (length (trim changedCode) <? 10)%nat
      then mret a
      else
        let a1 := count_file a in
        try_catch
          (reply ← aiService_analyzeCode changedCode (to file) language
                     (filter (λ s, applies_to language s = true) standards);
           for_of (LLMService.issues (analysis reply))
                  (save_issue review file changedCode) (collect reply a1))
          (λ _, mret a1)
  end.

(** [allIssues.find((i) => i.title === v)] *)
Definition find_by_title (v : jsval) (xs : list CodeIssue.t) : option CodeIssue.t :=
  match v with
  | Some (JString s) => head (filter (λ i, CodeIssue.title i = s) xs)
  | _ => None
  end.

(** One turn of the loop over [effortEstimate.breakdown]; [xs] is not
    empty, so [item.issue] is read. *)
Definition apply_effort (xs : list CodeIssue.t) (_ : unit) (item : JSValue) : M unit :=
  name ← lift (get item "issue");
  match find_by_title name xs with
  | None => mret ()
  | Some issue =>
      e ← lift (get item "effort");
      match e with
      | Some v =>
          if truthy v then codeIssue_update_effort (db_fault env) (CodeIssue.id issue) v
          else mret ()
      | None => mret ()
      end
  end.

(** The [try] around [aiService.estimateEffort]. *)
Definition estimate (xs : list CodeIssue.t) : M JSValue :=
  effortEstimate ← lift (ai_estimateEffort env xs);
  total ← lift (get effortEstimate "totalEffort");
  let estimatedEffort := or_else total (JNumber (num_of_nat 0)) in
  breakdown ← lift (get effortEstimate "breakdown");
  (if truthy_opt breakdown && isArray breakdown
   then for_of (array_or_empty breakdown) (apply_effort xs) ()
   else mret ());;
  mret estimatedEffort.

Definition estimateEffort_or_default (xs : list CodeIssue.t) : M JSValue :=
  if (0 <? length xs)%nat
  then try_catch (estimate xs)
         (λ _, mret (JNumber (num_mul (num_of_nat (length xs)) num_half)))
  else mret (JNumber (num_of_nat 0)).

Definition count_rows (s : IssueSeverity) (xs : list CodeIssue.t) : nat :=
  length (filter (λ i, CodeIssue.severity i = s) xs).

(** From [if (filesAnalyzed === 0)] to [return updatedReview]; the two
    functions differ here in the text of the error only. *)
Definition conclude (startTime : Z) (review : CodeReview.t) (a : Acc)
    (no_files : Error) : M CodeReview.t :=
  if (filesAnalyzed a =? 0)%nat then
    codeReview_update (db_fault env) (CodeReview.id review)
      (CodeReview.set_status FAILED);;
    throw no_files
  else
    let criticalIssues := count_rows CRITICAL (allIssues a) in
    let majorIssues := count_rows MAJOR (allIssues a) in
    let minorIssues := count_rows MINOR (allIssues a) in
    estimatedEffort ← estimateEffort_or_default (allIssues a);
    now ← Date_now_read;
    let analysisTime := num_div (num_of_Z (now - startTime)) (num_of_Z 1000) in
    match as_float estimatedEffort with
    | None => throw ValidationError
    | Some effort =>
        codeReview_update (db_fault env) (CodeReview.id review) (λ r,
          {| CodeReview.id := CodeReview.id r;
             CodeReview.userId := CodeReview.userId r;
             CodeReview.repositoryPath := CodeReview.repositoryPath r;
             CodeReview.branch := CodeReview.branch r;
             CodeReview.commitHash := CodeReview.commitHash r;
             CodeReview.status := COMPLETED;
             CodeReview.filesAnalyzed := filesAnalyzed a;
             CodeReview.issuesFound := length (allIssues a);
             CodeReview.criticalIssues := criticalIssues;
             CodeReview.majorIssues := majorIssues;
             CodeReview.minorIssues := minorIssues;
             CodeReview.estimatedEffort := Some effort;
             CodeReview.tokensUsed := totalTokens a;
             CodeReview.analysisTime := Some analysisTime;
             CodeReview.recommendations := Some (allRecommendations a) |})
    end.

Definition blank (diff : jsstring) : bool :=
  str_eqb diff [] || str_eqb (trim diff) [].

Definition no_changes : Error :=
  Err (lit "No staged or modified changes found. Please stage your changes first using 'git add'.").
Definition no_diff : Error :=
  Err (lit "No changes detected in the diff. Please make sure you have uncommitted changes.").
Definition unparsable_diff : Error :=
  Err (lit "Unable to parse diff. Please check if there are valid code changes.").
Definition no_supported_files : Error :=
  Err (lit "No supported files found to analyze. Make sure you have code files with supported extensions (.js, .jsx, .ts, .tsx, .py, .java, etc.)").

(** The [try] block of [analyzeStagedChanges]. *)
Definition analyzeStagedChanges_try (startTime : Z)
    (repositoryPath : jsstring) (userId : Z) : M CodeReview.t :=
  status ← lift (git_status env repositoryPath);
  if (length (staged status) =? 0)%nat && (length (modified status) =? 0)%nat
  then throw no_changes else
  currentBranch ← lift (git_branchLocal env repositoryPath);
  review ← codeReview_create (db_fault env) userId repositoryPath
             currentBranch None IN_PROGRESS;
  diff ← lift (if (0 <? length (staged status))%nat
               then git_diff env repositoryPath [lit "--cached"]
               else git_diff env repositoryPath []);
  if blank diff then throw no_diff else
  let parsedDiff := parseDiff env diff in
  if (length parsedDiff =? 0)%nat then throw unparsable_diff else
  standards ← getActiveStandards;
  a ← for_of parsedDiff (analyze_file review standards) acc_init;
  conclude startTime review a no_supported_files.

(** The [catch] block of [analyzeStagedChanges], up to the re-throw. *)
Definition mark_latest_failed (repositoryPath : jsstring) (userId : Z) : M unit :=
  try_catch
    (existingReview ← codeReview_findFirst (db_fault env) userId repositoryPath;
     match existingReview with
     | Some r =>
         if bool_decide (CodeReview.status r = IN_PROGRESS)
         then codeReview_update (db_fault env) (CodeReview.id r)
                (CodeReview.set_status FAILED);; mret ()
         else mret ()
     | None => mret ()
     end)
    (λ _, mret ()).

Definition analyzeStagedChanges (repositoryPath : jsstring) (userId : Z)
    : M CodeReview.t :=
  startTime ← Date_now_read;
  lift (git_open env repositoryPath);;
  try_catch (analyzeStagedChanges_try startTime repositoryPath userId)
    (λ error, mark_latest_failed repositoryPath userId;; throw error).

Definition commit_not_found (commitHash : jsstring) : Error :=
  Err (lit "Commit " ++ commitHash ++ lit " not found in repository").
Definition no_commit_changes : Error := Err (lit "No changes found in commit").
Definition unparsable_commit : Error := Err (lit "Unable to parse commit diff").
Definition no_supported_commit_files : Error :=
  Err (lit "No supported files found in commit to analyze").

(** The [try] block of [analyzeCommit]. *)
Definition analyzeCommit_try (startTime : Z) (repositoryPath commitHash : jsstring)
    (userId : Z) : M CodeReview.t :=
  try_catch
    (lift (git_show env repositoryPath [commitHash; lit "--format=%H"]))
    (λ _, throw (commit_not_found commitHash));;
  currentBranch ← lift (git_branchLocal env repositoryPath);
  review ← codeReview_create (db_fault env) userId repositoryPath
             currentBranch (Some commitHash) IN_PROGRESS;
  diff ← lift (git_show env repositoryPath [commitHash; lit "--format="]);
  if blank diff then throw no_commit_changes else
  let parsedDiff := parseDiff env diff in
  if (length parsedDiff =? 0)%nat then throw unparsable_commit else
  standards ← getActiveStandards;
  a ← for_of parsedDiff (analyze_file review standards) acc_init;
  conclude startTime review a no_supported_commit_files.

Definition analyzeCommit (repositoryPath commitHash : jsstring) (userId : Z)
    : M CodeReview.t :=
  startTime ← Date_now_read;
  lift (git_open env repositoryPath);;
  try_catch (analyzeCommit_try startTime repositoryPath commitHash userId)
    (λ error, throw error).

End Orchestrator.

End CodeAnalysisService.

(* ================================================================== *)
(** * routes/standards.js: the writing handlers *)
(* ================================================================== *)

Module StandardsRoutes.
Import Prisma Runtime PrismaClient.

Inductive Body :=
  | error (msg : jsstring)
  | success_standard (standard : CodingStandard.t)
  | success_message (msg : jsstring)
  | success_seeded (standards : list CodingStandard.t).

Record Response := { status : nat; body : Body }.

(** [res.json(b)] answers 200. *)
Definition json (b : Body) : Response := {| status := 200; body := b |}.
Definition status_json (code : nat) (b : Body) : Response :=
  {| status := code; body := b |}.

(** The fields the handlers read from [req.body], which the JSON
    middleware of server.js always sets to an object. *)
Record ReqBody := {
  name : jsval;
  description : jsval;
  language : jsval;
  rules : jsval;
  isActive : jsval;
}.

(** A route handler: its whole body sits in a [try] whose [catch]
    answers 500. *)
Definition handler (m : M Response) (failure : jsstring) : World → Response * World :=
  λ w, match m w with
       | (Ok r, w') => (r, w')
       | (Throw _, w') => (status_json 500 (error failure), w')
       end.

Definition as_json (v : JSValue) : option JSValue :=
  match v with
  | JNull => None
  | _ => Some v
  end.

(** [if (x !== undefined) data.x = x] for each field, typed by the
    columns. *)
Definition apply_data (b : ReqBody) (old : CodingStandard.t) : option CodingStandard.t :=
  n ← match name b with Some v => as_string v | None => Some (CodingStandard.name old) end;
  d ← match description b with
      | Some v => as_nullable_string v
      | None => Some (CodingStandard.description old)
      end;
  l ← match language b with Some v => as_string v | None => Some (CodingStandard.language old) end;
  r ← match rules b with Some v => as_json v | None => Some (CodingStandard.rules old) end;
  a ← match isActive b with Some v => as_boolean v | None => Some (CodingStandard.isActive old) end;
  Some {| CodingStandard.name := n; CodingStandard.description := d;
          CodingStandard.language := l; CodingStandard.rules := r;
          CodingStandard.isActive := a;
          CodingStandard.isBuiltIn := CodingStandard.isBuiltIn old |}.

Section Routes.

Variable fault : nat → bool.

(** [router.post("/")] *)
Definition post (b : ReqBody) : World → Response * World :=
  handler
    (    if negb (truthy_opt (name b)) || negb (truthy_opt (language b))
            || negb (truthy_opt (rules b))
         then mret (status_json 400 (error (lit "name, language, and rules are required")))
         else
           match
             n ← name b ≫= as_string;
             d ← match description b with
                 | Some v => as_nullable_string v
                 | None => Some None
                 end;
             l ← language b ≫= as_string;
             r ← rules b ≫= as_json;
             a ← match isActive b with Some v => as_boolean v | None => Some true end;
             Some {| CodingStandard.name := n; CodingStandard.description := d;
                     CodingStandard.language := l; CodingStandard.rules := r;
                     CodingStandard.isActive := a;
                     CodingStandard.isBuiltIn := false |}
           with
           | None => throw ValidationError
           | Some row =>
               standard ← codingStandard_create fault row;
               mret (json (success_standard standard))
           end)
    (lit "Failed to create standard").

(** [router.put("/:id")] *)
Definition put (id : Id) (b : ReqBody) : World → Response * World :=
  handler
    (existing ← codingStandard_findUnique fault id;
     match existing with
     | None => mret (status_json 404 (error (lit "Standard not found")))
     | Some e =>
         if CodingStandard.isBuiltIn e
         then mret (status_json 403 (error (lit "Cannot modify built-in standards")))
         else
           standard ← codingStandard_update fault id (apply_data b);
           mret (json (success_standard standard))
     end)
    (lit "Failed to update standard").

(** [router.delete("/:id")] *)
Definition delete (id : Id) : World → Response * World :=
  handler
    (existing ← codingStandard_findUnique fault id;
     match existing with
     | None => mret (status_json 404 (error (lit "Standard not found")))
     | Some e =>
         if CodingStandard.isBuiltIn e
         then mret (status_json 403 (error (lit "Cannot delete built-in standards")))
         else
           codingStandard_delete fault id;;
           mret (json (success_message (lit "Standard deleted successfully")))
     end)
    (lit "Failed to delete standard").

(** [const builtInStandards] of the seed handler. *)
Definition builtInStandards : list CodingStandard.t :=
  [{| CodingStandard.name := lit "PEP8";
      CodingStandard.description :=
        Some (lit "Python Enhancement Proposal 8 - Style Guide for Python Code");
      CodingStandard.language := lit "python";
      CodingStandard.isBuiltIn := true;
      CodingStandard.isActive := true;
      CodingStandard.rules :=
        JObject
          [(lit "maxLineLength", JNumber (num_of_nat 79));
           (lit "indentation", JNumber (num_of_nat 4));
           (lit "namingConventions",
            JObject [(lit "functions", JString (lit "snake_case"));
                     (lit "classes", JString (lit "PascalCase"));
                     (lit "constants", JString (lit "UPPER_CASE"))]);
           (lit "imports",
            JString (lit "one per line, grouped by standard library, third-party, local"))] |};
   {| CodingStandard.name := lit "Google JavaScript Style Guide";
      CodingStandard.description := Some (lit "Google's JavaScript style guide");
      CodingStandard.language := lit "javascript";
      CodingStandard.isBuiltIn := true;
      CodingStandard.isActive := true;
      CodingStandard.rules :=
        JObject
          [(lit "indentation", JNumber (num_of_nat 2));
           (lit "quotes", JString (lit "single"));
           (lit "semicolons", JString (lit "required"));
           (lit "namingConventions",
            JObject [(lit "functions", JString (lit "camelCase"));
                     (lit "classes", JString (lit "PascalCase"));
                     (lit "constants", JString (lit "UPPER_CASE"))])] |};
   {| CodingStandard.name := lit "Airbnb JavaScript Style Guide";
      CodingStandard.description := Some (lit "Airbnb's JavaScript style guide");
      CodingStandard.language := lit "javascript";
      CodingStandard.isBuiltIn := true;
      CodingStandard.isActive := false;
      CodingStandard.rules :=
        JObject
          [(lit "indentation", JNumber (num_of_nat 2));
           (lit "quotes", JString (lit "single"));
           (lit "semicolons", JString (lit "required"));
           (lit "arrowFunctions", JString (lit "prefer"));
           (lit "destructuring", JString (lit "use when possible"))] |};
   {| CodingStandard.name := lit "Oracle Java Code Conventions";
      CodingStandard.description := Some (lit "Oracle's Java coding conventions");
      CodingStandard.language := lit "java";
      CodingStandard.isBuiltIn := true;
      CodingStandard.isActive := true;
      CodingStandard.rules :=
        JObject
          [(lit "indentation", JNumber (num_of_nat 4));
           (lit "braceStyle", JString (lit "K&R"));
           (lit "namingConventions",
            JObject [(lit "methods", JString (lit "camelCase"));
                     (lit "classes", JString (lit "PascalCase"));
                     (lit "constants", JString (lit "UPPER_CASE"));
                     (lit "packages", JString (lit "lowercase"))])] |}].

Definition seed_one (created : list CodingStandard.t) (standard : CodingStandard.t)
    : M (list CodingStandard.t) :=
  existing ← codingStandard_findUnique_name fault (CodingStandard.name standard);
  match existing with
  | Some _ => mret created
  | None =>
      created_standard ← codingStandard_create fault standard;
      mret (created ++ [created_standard])
  end.

(** [router.post("/seed")] *)
Definition seed : World → Response * World :=
  handler
    (created ← for_of builtInStandards seed_one [];
     mret (json (success_seeded created)))
    (lit "Failed to seed standards").

(** The requests the router sends to the four handlers. *)
Inductive Request :=
  | POST (b : ReqBody)
  | PUT (id : Id) (b : ReqBody)
  | DELETE (id : Id)
  | POST_seed.

Definition route (req : Request) : World → Response * World :=
  match req with
  | POST b => post b
  | PUT id b => put id b
  | DELETE id => delete id
  | POST_seed => seed
  end.

End Routes.

End StandardsRoutes.

(* ================================================================== *)
(** * services/llmService.js: what is made of the other replies *)
(* ================================================================== *)

Module LLMReplies.
Import Prisma.

(** [\w] *)
Definition is_word (c : jschar) : bool :=
  ((48 <=? c) && (c <=? 57) || (65 <=? c) && (c <=? 90) || (c =? 95)
   || (97 <=? c) && (c <=? 122))%N.

Fixpoint skip_word (s : jsstring) : jsstring :=
  match s with
  | c :: r => if is_word c then skip_word r else s
  | [] => []
  end.

(** [([\s\S]*?)```]: the shortest run that a fence follows. *)
Fixpoint until_fence (r : jsstring) : option jsstring :=
  match strip_prefix LLMService.fence r with
  | Some _ => Some []
  | None =>
      match r with
      | [] => None
      | c :: r' => (c ::.) <$> until_fence r'
      end
  end.

(** [```[\w]*\s*([\s\S]*?)```] tried at the start of [s]; the answer is
    capture group 1. The two greedy runs hold no back-tick, so giving
    some of them back cannot reach a fence the whole runs do not reach. *)
Definition block_at (s : jsstring) : option jsstring :=
  r ← strip_prefix LLMService.fence s;
  until_fence (skip_spaces (skip_word r)).

(** [FIXED_CODE:\s*```[\w]*\s*([\s\S]*?)```] tried at the start of [s]. *)
Definition labelled_at (s : jsstring) : option jsstring :=
  r ← strip_prefix (lit "FIXED_CODE:") s;
  block_at (skip_spaces r).

(** [response.match(re)]: the match at the leftmost position that has
    one. *)
Fixpoint leftmost (at_start : jsstring → option jsstring) (s : jsstring)
    : option jsstring :=
  match at_start s with
  | Some g => Some g
  | None =>
      match s with
      | [] => None
      | _ :: r => leftmost at_start r
      end
  end.

(** [extractFixedCode(response)] *)
Definition extractFixedCode (response : jsstring) : jsstring :=
  match leftmost labelled_at response with
  | Some g => trim g
  | None =>
      match leftmost block_at response with
      | Some g => trim g
      | None => trim response
      end
  end.

(** The estimate returned when the model gives none. *)
Definition default_estimate (issues : list CodeIssue.t) : JSValue :=
  JObject
    [(lit "totalEffort", JNumber (num_mul (num_of_nat (length issues)) num_half));
     (lit "breakdown",
      JArray ((λ i, JObject [(lit "issue", JString (CodeIssue.title i));
                             (lit "effort", JNumber num_half);
                             (lit "reasoning", JString (lit "Default estimate"))])
              <$> issues))].

Section Replies.

(** The host's [JSON.parse]: [None] when it throws a SyntaxError. *)
Variable JSON_parse : jsstring → option JSValue.

(** The model runtime answering the effort prompt, which is a function of
    the issues: the text of the whole stream, or the error of the
    transport. *)
Variable generate : list CodeIssue.t → outcome jsstring.

(** [parseJsonResponse(response)]: the two patterns are those of
    [parseAnalysisResponse]; the [catch] logs and throws again. *)
Definition parseJsonResponse (response : jsstring) : outcome JSValue :=
  match LLMService.locate_json response with
  | Some jsonStr =>
      match JSON_parse jsonStr with
      | Some parsed => Ok parsed
      | None => Throw SyntaxError
      end
  | None =>
      match JSON_parse response with
      | Some parsed => Ok parsed
      | None => Throw SyntaxError
      end
  end.

(** [estimateEffort(issues)] *)
Definition estimateEffort (issues : list CodeIssue.t) : outcome JSValue :=
  match response ← generate issues; parseJsonResponse response with
  | Ok estimate => Ok estimate
  | Throw _ => Ok (default_estimate issues)
  end.

End Replies.

End LLMReplies.

(* ================================================================== *)
(** * services/codeAnalysisService.js: statistics and automatic fixes *)
(* ================================================================== *)

Module ReviewStats.
Import Prisma Runtime PrismaClient.

Definition num_add (x y : number) : number := SFadd 53 1024 x y.

(** What [getReviewStats] resolves to. *)
Record Stats := {
  totalReviews : nat;
  totalIssues : nat;
  totalCritical : nat;
  totalMajor : nat;
  totalMinor : nat;
  totalTokens : nat;
  avgAnalysisTime : jsstring;
}.

(** [r.analysisTime || 0] *)
Definition time_or_zero (r : CodeReview.t) : number :=
  match CodeReview.analysisTime r with
  | Some t => if num_truthy t then t else num_of_nat 0
  | None => num_of_nat 0
  end.

Section Stats.

Variable fault : nat → bool.

(** The host's [Number.prototype.toFixed]. *)
Variable Number_toFixed : number → nat → jsstring.

(** [prisma.codeReview.findMany({ where: { userId }, include: { issues:
    true } })]; the issues that come with each review are not read. *)
Definition codeReview_findMany_user (userId : Z) : M (list CodeReview.t) :=
  round_trip fault (λ d,
    Ok (filter (λ r, CodeReview.userId r = userId) (codeReview d), d)).

(** [getReviewStats(userId)] *)
Definition getReviewStats (userId : Z) : M Stats :=
  reviews ← codeReview_findMany_user userId;
  let totalReviews := length reviews in
  let totalIssues := foldl (λ sum r, sum + CodeReview.issuesFound r)%nat 0%nat reviews in
  let totalCritical := foldl (λ sum r, sum + CodeReview.criticalIssues r)%nat 0%nat reviews in
  let totalMajor := foldl (λ sum r, sum + CodeReview.majorIssues r)%nat 0%nat reviews in
  let totalMinor := foldl (λ sum r, sum + CodeReview.minorIssues r)%nat 0%nat reviews in
  let totalTokens := foldl (λ sum r, sum + CodeReview.tokensUsed r)%nat 0%nat reviews in
  let avgAnalysisTime :=
    num_div (foldl (λ sum r, num_add sum (time_or_zero r)) (num_of_nat 0) reviews)
            (num_of_nat totalReviews) in
  mret {| totalReviews := totalReviews; totalIssues := totalIssues;
          totalCritical := totalCritical; totalMajor := totalMajor;
          totalMinor := totalMinor; totalTokens := totalTokens;
          avgAnalysisTime := Number_toFixed avgAnalysisTime 2 |}.

End Stats.

End ReviewStats.

Module AutoFix.
Import Prisma Runtime PrismaClient CodeAnalysisService.

(** [s.split("\n")] *)
Fixpoint split_lines (s : jsstring) : list jsstring :=
  match s with
  | [] => [[]]
  | c :: r =>
      if char_eqb c 10%N then [] :: split_lines r
      else match split_lines r with
           | l :: ls => (c :: l) :: ls
           | [] => [[c]]
           end
  end.

(** [xs.slice(start, end)] *)
Definition slice {A} (start end_ : Z) (xs : list A) : list A :=
  let len := Z.of_nat (length xs) in
  let from := if start <? 0 then Z.max (len + start) 0 else Z.min start len in
  let final := if end_ <? 0 then Z.max (len + end_) 0 else Z.min end_ len in
  take (Z.to_nat (final - from)) (drop (Z.to_nat from) xs).

Definition set_fixCode (code : jsstring) (i : CodeIssue.t) : CodeIssue.t :=
  {| CodeIssue.id := CodeIssue.id i; CodeIssue.reviewId := CodeIssue.reviewId i;
     CodeIssue.filePath := CodeIssue.filePath i;
     CodeIssue.lineNumber := CodeIssue.lineNumber i;
     CodeIssue.lineEnd := CodeIssue.lineEnd i;
     CodeIssue.severity := CodeIssue.severity i;
     CodeIssue.category := CodeIssue.category i; CodeIssue.title := CodeIssue.title i;
     CodeIssue.description := CodeIssue.description i;
     CodeIssue.codeSnippet := CodeIssue.codeSnippet i;
     CodeIssue.suggestion := CodeIssue.suggestion i;
     CodeIssue.autoFixable := CodeIssue.autoFixable i;
     CodeIssue.fixCode := Some code; CodeIssue.effort := CodeIssue.effort i;
     CodeIssue.standard := CodeIssue.standard i;
     CodeIssue.documentationNeeded := CodeIssue.documentationNeeded i;
     CodeIssue.resolved := CodeIssue.resolved i |}.

(** What [generateAutoFix] resolves to. *)
Record Fix := { fixedCode : jsstring; originalCode : jsstring }.

Definition not_found : Error := Err (lit "Issue not found").
Definition not_fixable : Error := Err (lit "This issue is not auto-fixable").
Definition unsupported : Error := Err (lit "Unsupported file type").

(** [issue.lineEnd || issue.lineNumber] *)
Definition last_line (issue : CodeIssue.t) : Z :=
  match CodeIssue.lineEnd issue with
  | Some lineEnd => if lineEnd =? 0 then CodeIssue.lineNumber issue else lineEnd
  | None => CodeIssue.lineNumber issue
  end.

(** [lines.slice(startLine, endLine)] *)
Definition window (issue : CodeIssue.t) (lines : list jsstring) : list jsstring :=
  let startLine := Z.max 0 (CodeIssue.lineNumber issue - 5) in
  let endLine := Z.min (Z.of_nat (length lines)) (last_line issue + 5) in
  slice startLine endLine lines.

Definition codeSection (issue : CodeIssue.t) (fileContent : jsstring) : jsstring :=
  join [10%N] (window issue (split_lines fileContent)).

Section Fixes.

Variable fault : nat → bool.

(** [fs.readFile(path.join(repositoryPath, filePath), "utf-8")] *)
Variable fs_readFile : jsstring → jsstring → outcome jsstring.

(** [aiService.generateFix(code, issue, language)] *)
Variable aiService_generateFix : jsstring → CodeIssue.t → jsstring → outcome jsstring.

(** [prisma.codeIssue.findUnique({ where: { id } })] *)
Definition codeIssue_findUnique (id : Id) : M (option CodeIssue.t) :=
  round_trip fault (λ d,
    Ok (head (filter (λ i, CodeIssue.id i = id) (codeIssue d)), d)).

(** [prisma.codeIssue.update({ where: { id }, data: { fixCode } })] *)
Definition codeIssue_update_fixCode (id : Id) (fixCode : jsstring) : M unit :=
  round_trip fault (λ d,
    if bool_decide (Exists (λ i, CodeIssue.id i = id) (codeIssue d))
    then Ok ((), with_issues
               ((λ i, if bool_decide (CodeIssue.id i = id)
                      then set_fixCode fixCode i else i)
                <$> codeIssue d) d)
    else Throw NotFoundError).

(** [generateAutoFix(issueId, repositoryPath)]; its [catch] logs and
    throws again. *)
Definition generateAutoFix (issueId : Id) (repositoryPath : jsstring) : M Fix :=
  issue ← codeIssue_findUnique issueId;
  match issue with
  | None => throw not_found
  | Some issue =>
      if negb (CodeIssue.autoFixable issue) then throw not_fixable else
      match supportedExtensions !! Path.extname (CodeIssue.filePath issue) with
      | None => throw unsupported
      | Some language =>
          fileContent ← lift (fs_readFile repositoryPath (CodeIssue.filePath issue));
          let section := codeSection issue fileContent in
          fixedCode ← lift (aiService_generateFix section issue language);
          codeIssue_update_fixCode issueId fixedCode;;
          mret {| fixedCode := fixedCode; originalCode := section |}
      end
  end.

End Fixes.

End AutoFix.

(* ================================================================== *)
(** * The health checks and routes/aiProvider.js *)
(* ================================================================== *)

Module Health.

(** What a [checkHealth] resolves to. *)
Record t := {
  status : jsstring;
  message : jsstring;
  error : option jsstring;
  model : option jsstring;
  availableModels : option (list jsstring);
}.

End Health.

Module AIProviderRoutes.

(** The configuration and the remote services. *)
Record Remote := {
  (** [process.env.OLLAMA_MODEL], [GEMINI_API_KEY], [GEMINI_MODEL] *)
  OLLAMA_MODEL : option jsstring;
  GEMINI_API_KEY : option jsstring;
  GEMINI_MODEL : option jsstring;
  (** [ollama.list()], the names of its models *)
  ollama_list : outcome (list jsstring);
  (** The text of [generativeModel.generateContent("Hello")] *)
  gemini_hello : outcome jsstring;
}.

(** [process.env.X || d] *)
Definition env_or (v : option jsstring) (d : jsstring) : jsstring :=
  match v with
  | Some (c :: s) => c :: s
  | _ => d
  end.

Section Providers.

Variable remote : Remote.

Definition ollama_model : jsstring :=
  env_or (OLLAMA_MODEL remote) (lit "llama3.2:latest").

(** The default ends in a tab, as the source has it. *)
Definition gemini_model : jsstring :=
  env_or (GEMINI_MODEL remote) (lit "gemini-2.0-flash-lite" ++ [9%N]).

(** [llmService.checkHealth()] *)
Definition llmService_checkHealth : Health.t :=
  match ollama_list remote with
  | Ok names =>
      if bool_decide (ollama_model ∈ names)
      then {| Health.status := lit "ok";
              Health.message := lit "LLM service is ready";
              Health.error := None;
              Health.model := Some ollama_model;
              Health.availableModels := None |}
      else {| Health.status := lit "warning";
              Health.message := lit "Model " ++ ollama_model ++ lit " not available";
              Health.error := None;
              Health.model := None;
              Health.availableModels := Some names |}
  | Throw e =>
      {| Health.status := lit "error";
         Health.message := lit "Ollama is not running or not accessible";
         Health.error := Some (Js.message e);
         Health.model := None;
         Health.availableModels := None |}
  end.

(** [geminiService.checkHealth()]; the constructor builds the model
    exactly when the key is set, so the second guard never fires. *)
Definition geminiService_checkHealth : Health.t :=
  match GEMINI_API_KEY remote with
  | Some (_ :: _) =>
      match gemini_hello remote with
      | Ok (c :: text) =>
          {| Health.status := lit "ok";
             Health.message := lit "Gemini API is ready";
             Health.error := None;
             Health.model := Some gemini_model;
             Health.availableModels := None |}
      | Ok [] =>
          {| Health.status := lit "warning";
             Health.message := lit "Gemini API responded but no content";
             Health.error := None;
             Health.model := None;
             Health.availableModels := None |}
      | Throw e =>
          {| Health.status := lit "error";
             Health.message := lit "Gemini API is not accessible";
             Health.error := Some (Js.message e);
             Health.model := None;
             Health.availableModels := None |}
      end
  | _ =>
      {| Health.status := lit "error";
         Health.message := lit "Gemini API key not configured";
         Health.error := Some (lit "Missing GEMINI_API_KEY in environment variables");
         Health.model := None;
         Health.availableModels := None |}
  end.

Definition service_checkHealth (service : AIService.Service) : Health.t :=
  match service with
  | AIService.llmService => llmService_checkHealth
  | AIService.geminiService => geminiService_checkHealth
  end.

(** [aiService.checkHealth()]: the health of the active service and the
    provider. *)
Definition aiService_checkHealth (this : AIService.t) : Health.t * jsstring :=
  (service_checkHealth (AIService.getService this), AIService.provider this).

(** The error of the three guarded calls of the AI service:
    [`${this.provider} is not available: ${health.error || health.message}`] *)
Definition not_available (this : AIService.t) (health : Health.t) : Error :=
  Err (AIService.provider this ++ lit " is not available: "
       ++ env_or (Health.error health) (Health.message health)).

(** [aiService.analyzeCode], [generateFix] and [estimateEffort]: the
    active service is called unless its health check reports an
    error. *)
Definition guarded {A} (this : AIService.t)
    (call : AIService.Service → outcome A) : outcome A :=
  let service := AIService.getService this in
  let health := service_checkHealth service in
  if str_eqb (Health.status health) (lit "error")
  then Throw (not_available this health)
  else call service.

Inductive Body :=
  | error (msg : jsstring)
  | current (provider : jsstring) (available : list jsstring)
  | switched (provider : jsstring) (health : Health.t * jsstring) (message : jsstring).

Record Response := { status : nat; body : Body }.

Definition json (b : Body) : Response := {| status := 200; body := b |}.
Definition status_json (code : nat) (b : Body) : Response :=
  {| status := code; body := b |}.

(** [error.message || d] *)
Definition message_or (e : Error) (d : jsstring) : jsstring :=
  match Js.message e with
  | c :: s => c :: s
  | [] => d
  end.

(** [router.get("/provider")] *)
Definition get_provider (this : AIService.t) : Response * AIService.t :=
  (json (current (AIService.getProvider this) [lit "ollama"; lit "gemini"]), this).

(** [router.post("/provider")]; [provider] is the field of the body. *)
Definition post_provider (provider : jsval) (this : AIService.t)
    : Response * AIService.t :=
  if negb (truthy_opt provider)
  then (status_json 400 (error (lit "Provider is required")), this)
  else if AIService.differs provider "ollama" && AIService.differs provider "gemini"
  then (status_json 400 (error (Js.message AIService.invalid_provider)), this)
  else
    match AIService.setProvider provider this with
    | (Ok _, this') =>
        (json (switched (AIService.string_of provider) (aiService_checkHealth this')
                 (lit "AI provider switched to " ++ AIService.string_of provider)),
         this')
    | (Throw e, this') =>
        (status_json 500 (error (message_or e (lit "Failed to set provider"))), this')
    end.

End Providers.

End AIProviderRoutes.

(* ================================================================== *)
(** * services/aiService.js: the guarded effort estimate *)
(* ================================================================== *)

Module AIServiceCalls.
Import Prisma.

Section Calls.

Variable remote : AIProviderRoutes.Remote.
Variable JSON_parse : jsstring → option JSValue.

(** The two model runtimes answering the effort prompt for [issues]. *)
Variable ollama_generate : list CodeIssue.t → outcome jsstring.
Variable gemini_generate : list CodeIssue.t → outcome jsstring.

(** [geminiService.estimateEffort(issues)]: the body of the Ollama
    service behind a guard on the model, which is built exactly when the
    key is set. *)
Definition geminiService_estimateEffort (issues : list CodeIssue.t) : outcome JSValue :=
  match AIProviderRoutes.GEMINI_API_KEY remote with
  | Some (_ :: _) => LLMReplies.estimateEffort JSON_parse gemini_generate issues
  | _ => Throw (Err (lit "Gemini API not configured"))
  end.

(** [aiService.estimateEffort(issues)] *)
Definition estimateEffort (this : AIService.t) (issues : list CodeIssue.t)
    : outcome JSValue :=
  AIProviderRoutes.guarded remote this (λ service,
    match service with
    | AIService.llmService => LLMReplies.estimateEffort JSON_parse ollama_generate issues
    | AIService.geminiService => geminiService_estimateEffort issues
    end).

End Calls.

End AIServiceCalls.

(* ================================================================== *)
(** * routes/reviews.js *)
(* ================================================================== *)

Module ReviewsRoutes.
Import Prisma Runtime PrismaClient.

Inductive Body :=
  | error (msg : jsstring)
  | analysed (review : CodeReview.t) (provider : jsstring) (message : jsstring)
  | success_message (msg : jsstring).

Record Response := { status : nat; body : Body }.

Definition json (b : Body) : Response := {| status := 200; body := b |}.
Definition status_json (code : nat) (b : Body) : Response :=
  {| status := code; body := b |}.

(** The fields the two analysis handlers read from [req.body]. *)
Record ReqBody := {
  repositoryPath : jsval;
  commitHash : jsval;
  userId : jsval;
  provider : jsval;
}.

(** What a handler can change: the provider of the AI service and the
    world. *)
Definition Handler : Type := AIService.t → World → Response * (AIService.t * World).

(** [`Analysis complete. Found ${review.issuesFound} issues.`] *)
Definition found (review : CodeReview.t) : jsstring :=
  lit "Analysis complete. Found "
  ++ lit (pretty.pretty (CodeReview.issuesFound review)) ++ lit " issues.".

(** [provider !== currentProvider] *)
Definition is_other (provider : JSValue) (currentProvider : jsstring) : bool :=
  negb (is_string currentProvider provider).

(** [prisma.codeReview.delete({ where: { id } })]; the issues of the
    review go with it (ON DELETE CASCADE). *)
Definition codeReview_delete (fault : nat → bool) (id : Id) : M unit :=
  round_trip fault (λ d,
    if bool_decide (Exists (λ r, CodeReview.id r = id) (codeReview d))
    then Ok ((), with_issues (filter (λ i, CodeIssue.reviewId i ≠ id) (codeIssue d))
                   (with_reviews (filter (λ r, CodeReview.id r ≠ id) (codeReview d)) d))
    else Throw NotFoundError).

Section Routes.

(** The orchestrator as the handlers call it, with the fields of the
    body as they came; it runs with the service in the state it is given. *)
Variable analyzeStagedChanges : AIService.t → JSValue → JSValue → M CodeReview.t.
Variable analyzeCommit : AIService.t → JSValue → JSValue → JSValue → M CodeReview.t.
Variable fault : nat → bool.

(** From [const currentProvider] to the response, for either handler. *)
Definition switch_and_run (provider : jsval) (run : AIService.t → M CodeReview.t)
    (failure : jsstring) : Handler := λ this w,
  let currentProvider := AIService.getProvider this in
  let invalid :=
    match provider with
    | Some p =>
        truthy p && is_other p currentProvider
        && (AIService.differs provider "ollama" && AIService.differs provider "gemini")
    | None => false
    end in
  if invalid
  then (status_json 400 (error (Js.message AIService.invalid_provider)), (this, w))
  else
    let switch :=
      match provider with
      | Some p =>
          if truthy p && is_other p currentProvider
          then AIService.setProvider provider this
          else (Ok (), this)
      | None => (Ok (), this)
      end in
    match switch with
    | (Throw e, this') =>
        (status_json 500 (error (AIProviderRoutes.message_or e failure)), (this', w))
    | (Ok _, this') =>
        match run this' w with
        | (Ok review, w') =>
            (json (analysed review (AIService.getProvider this') (found review)),
             (this', w'))
        | (Throw e, w') =>
            (status_json 500 (error (AIProviderRoutes.message_or e failure)), (this', w'))
        end
    end.

(** [router.post("/analyze-staged")] *)
Definition analyze_staged (b : ReqBody) : Handler := λ this w,
  match repositoryPath b, userId b with
  | Some path, Some user =>
      if negb (truthy path) || negb (truthy user)
      then (status_json 400 (error (lit "repositoryPath and userId are required")),
            (this, w))
      else switch_and_run (provider b) (λ this', analyzeStagedChanges this' path user)
             (lit "Failed to analyze staged changes") this w
  | _, _ =>
      (status_json 400 (error (lit "repositoryPath and userId are required")), (this, w))
  end.

(** [router.post("/analyze-commit")] *)
Definition analyze_commit (b : ReqBody) : Handler := λ this w,
  match repositoryPath b, commitHash b, userId b with
  | Some path, Some hash, Some user =>
      if negb (truthy path) || negb (truthy hash) || negb (truthy user)
      then (status_json 400
              (error (lit "repositoryPath, commitHash, and userId are required")),
            (this, w))
      else switch_and_run (provider b) (λ this', analyzeCommit this' path hash user)
             (lit "Failed to analyze commit") this w
  | _, _, _ =>
      (status_json 400
         (error (lit "repositoryPath, commitHash, and userId are required")),
       (this, w))
  end.

(** [router.delete("/:id")] *)
Definition delete (id : Id) : Handler := λ this w,
  match codeReview_delete fault id w with
  | (Ok _, w') => (json (success_message (lit "Review deleted successfully")), (this, w'))
  | (Throw _, w') => (status_json 500 (error (lit "Failed to delete review")), (this, w'))
  end.

End Routes.

End ReviewsRoutes.

(* ================================================================== *)
(** * routes/standards.js: reading one standard *)
(* ================================================================== *)

Module StandardsReads.
Import Prisma Runtime PrismaClient StandardsRoutes.

Section Routes.

Variable fault : nat → bool.

(** [router.get("/:id")] *)
Definition get_one (id : Id) : World → Response * World :=
  handler
    (standard ← codingStandard_findUnique fault id;
     match standard with
     | None => mret (status_json 404 (error (lit "Standard not found")))
     | Some s => mret (json (success_standard s))
     end)
    (lit "Failed to fetch standard").

End Routes.

End StandardsReads.


(* ================================================================== *)
(** * Vocabulary of the statements *)
(* ================================================================== *)

Module Spec.
Import Prisma Runtime CodeAnalysisService.

(** ** Response parser *)

Fixpoint inits (s : jsstring) : list jsstring :=
  [] :: match s with
        | [] => []
        | c :: r => (c ::.) <$> inits r
        end.

Fixpoint tails (s : jsstring) : list jsstring :=
  s :: match s with
       | [] => []
       | _ :: r => tails r
       end.

(** Every contiguous piece of [s]. *)
Definition substrings (s : jsstring) : list jsstring := t ← tails s; inits t.

(** A piece that opens with a brace and ends with one. *)
Definition brace_delimited (t : jsstring) : bool :=
  match t with
  | c :: r => char_eqb c LLMService.open_brace
              && bool_decide (list.last r = Some LLMService.close_brace)
  | [] => false
  end.

(** The text holds a JSON object somewhere: a brace-delimited piece that
    [JSON.parse] accepts (fenced or not). *)
Definition has_json_object (JSON_parse : jsstring → option JSValue)
    (text : jsstring) : bool :=
  existsb (λ t, brace_delimited t && bool_decide (is_Some (JSON_parse t)))
          (substrings text).

(** The result for a response whose top-level [issues] is not a list: no
    issue, the response's own summary when it has a truthy one, its own
    recommendation lists where they are lists. *)
Definition without_issues (parsed : JSValue) : LLMService.Analysis :=
  let recs := get_opt (Some parsed) "recommendations" in
  {| LLMService.issues := [];
     LLMService.summary :=
       or_else (get_opt (Some parsed) "summary")
               (LLMService.summary LLMService.emptyResult);
     LLMService.recommendations :=
       {| LLMService.documentation := array_or_empty (get_opt recs "documentation");
          LLMService.testing := array_or_empty (get_opt recs "testing");
          LLMService.architecture := array_or_empty (get_opt recs "architecture");
          LLMService.cicd := array_or_empty (get_opt recs "cicd") |} |}.

(** A candidate has a field when the property is there, whatever it
    holds. *)
Definition has_field (k : string) (candidate : JSValue) : bool :=
  is_defined (get_opt (Some candidate) k).

(** The five fields of the specification's wording. *)
Definition has_all_five (candidate : JSValue) : bool :=
  has_field "title" candidate && has_field "description" candidate
  && has_field "severity" candidate && has_field "category" candidate
  && has_field "line" candidate.

(** What the code asks of a candidate: four truthy fields and a [line]
    property. *)
Definition usable (candidate : JSValue) : bool :=
  truthy_opt (get_opt (Some candidate) "title")
  && truthy_opt (get_opt (Some candidate) "description")
  && truthy_opt (get_opt (Some candidate) "severity")
  && truthy_opt (get_opt (Some candidate) "category")
  && has_field "line" candidate.

(** The record kept for a candidate. *)
Definition normalized (candidate : JSValue) : LLMService.Issue :=
  let f k := get_opt (Some candidate) k in
  let one := JNumber (num_of_nat 1) in
  {| LLMService.line := or_else (f "line") one;
     LLMService.lineEnd := or_else (f "lineEnd") (or_else (f "line") one);
     LLMService.severity := or_else (f "severity") (JString (lit "INFO"));
     LLMService.category := or_else (f "category") (JString (lit "style"));
     LLMService.title := default JNull (f "title");
     LLMService.description := default JNull (f "description");
     LLMService.suggestion := or_else (f "suggestion") (JString []);
     LLMService.autoFixable := truthy_opt (f "autoFixable");
     LLMService.standard := or_else (f "standard") JNull;
     LLMService.documentationNeeded := or_else (f "documentationNeeded") JNull |}.

Definition not_null (v : JSValue) : bool :=
  match v with
  | JNull => false
  | _ => true
  end.

(** ** Database *)

(** Identifiers in use lie below the generator. *)
Definition fresh_ids (d : DB) : Prop :=
  (∀ k, is_Some (codingStandard d !! k) → (k < next_id d)%nat) ∧
  Forall (λ r, (CodeReview.id r < next_id d)%nat) (codeReview d) ∧
  Forall (λ i, (CodeIssue.reviewId i < next_id d)%nat) (codeIssue d).

(** The issues persisted for a review. *)
Definition issues_of (review : Id) (d : DB) : list CodeIssue.t :=
  filter (λ i, CodeIssue.reviewId i = review) (codeIssue d).

Definition review_row (review : Id) (d : DB) : option CodeReview.t :=
  head (filter (λ r, CodeReview.id r = review) (codeReview d)).

(** The counters of a review agree with the issues persisted for it;
    INFO issues are found, and in none of the three counters. *)
Definition counts_match (r : CodeReview.t) (d : DB) : Prop :=
  let persisted := issues_of (CodeReview.id r) d in
  CodeReview.criticalIssues r = count_rows CRITICAL persisted ∧
  CodeReview.majorIssues r = count_rows MAJOR persisted ∧
  CodeReview.minorIssues r = count_rows MINOR persisted ∧
  CodeReview.issuesFound r = length persisted ∧
  CodeReview.issuesFound r =
    (CodeReview.criticalIssues r + CodeReview.majorIssues r
     + CodeReview.minorIssues r + count_rows INFO persisted)%nat.

(** ** Orchestrator *)

(** The three filters of the loop over the parsed diff. *)
Definition survives (file : DiffFile) : bool :=
  negb (deleted file)
  && bool_decide (is_Some (supportedExtensions !! Path.extname (to file)))
  && negb (str_eqb (extractChangedCode file) []
           || (length (trim (extractChangedCode file)) <? 10)%nat).

(** The call the loop makes for a file that survives. *)
Definition call_for (standards : list CodingStandard.t) (file : DiffFile) : AiCall :=
  let language := default [] (supportedExtensions !! Path.extname (to file)) in
  {| call_code := extractChangedCode file;
     call_filePath := to file;
     call_language := language;
     call_standards := filter (λ s, applies_to language s = true) standards |}.

(** The staged analysis gets as far as the loop, over [files]. *)
Definition staged_run_reaches (env : Env) (repositoryPath : jsstring)
    (files : list DiffFile) : Prop :=
  git_open env repositoryPath = Ok () ∧
  ∃ st branch diff,
    git_status env repositoryPath = Ok st ∧
    (length (staged st) =? 0)%nat && (length (modified st) =? 0)%nat = false ∧
    git_branchLocal env repositoryPath = Ok branch ∧
    (if (0 <? length (staged st))%nat
     then git_diff env repositoryPath [lit "--cached"]
     else git_diff env repositoryPath []) = Ok diff ∧
    blank diff = false ∧ parseDiff env diff = files ∧ files ≠ [].

(** The commit analysis gets as far as the loop, over [files]. *)
Definition commit_run_reaches (env : Env) (repositoryPath commitHash : jsstring)
    (files : list DiffFile) : Prop :=
  git_open env repositoryPath = Ok () ∧
  ∃ shown branch diff,
    git_show env repositoryPath [commitHash; lit "--format=%H"] = Ok shown ∧
    git_branchLocal env repositoryPath = Ok branch ∧
    git_show env repositoryPath [commitHash; lit "--format="] = Ok diff ∧
    blank diff = false ∧ parseDiff env diff = files ∧ files ≠ [].

(** The run that started in [w] created a review row, and in [w'] that
    row is FAILED. *)
Definition created_and_failed (repositoryPath : jsstring) (userId : Z)
    (w w' : World) : Prop :=
  ∃ row, review_row (next_id (db w)) (db w') = Some row ∧
         CodeReview.repositoryPath row = repositoryPath ∧
         CodeReview.userId row = userId ∧
         CodeReview.status row = FAILED.

End Spec.

(* ================================================================== *)
(** * Sample inputs *)
(* ================================================================== *)

Module Samples.
Import Prisma Runtime CodeAnalysisService.

(** A source literal in which an apostrophe stands for a double quote. *)
Definition json (s : string) : jsstring :=
  (λ c, if char_eqb c 39%N then 34%N else c) <$> lit s.

Definition str (s : string) : JSValue := JString (lit s).
Definition num (n : nat) : JSValue := JNumber (num_of_nat n).
Definition obj (props : list (string * JSValue)) : JSValue :=
  JObject (prod_map lit id <$> props).

(** Three replies of a model and what [JSON.parse] makes of them. *)
Definition reply_text : jsstring :=
  json "{'issues':[{'line':1,'severity':'MINOR','category':'style','title':'Use const','description':'var is function scoped'},{'line':2,'category':'bug','title':'No severity','description':'dropped'},{'line':3,'severity':'INFO','category':'documentation','title':'Add a comment','description':'explain the constant'}]}".

Definition reply_value : JSValue :=
  obj [("issues", JArray
    [obj [("line", num 1); ("severity", str "MINOR"); ("category", str "style");
          ("title", str "Use const"); ("description", str "var is function scoped")];
     obj [("line", num 2); ("category", str "bug");
          ("title", str "No severity"); ("description", str "dropped")];
     obj [("line", num 3); ("severity", str "INFO"); ("category", str "documentation");
          ("title", str "Add a comment"); ("description", str "explain the constant")]])].

Definition prose_text : jsstring :=
  json "{'issues':'none','summary':{'critical':2,'major':0,'minor':0,'info':0},'recommendations':{'testing':['Add unit tests']}}".

Definition prose_value : JSValue :=
  obj [("issues", str "none");
       ("summary", obj [("critical", num 2); ("major", num 0);
                        ("minor", num 0); ("info", num 0)]);
       ("recommendations", obj [("testing", JArray [str "Add unit tests"])])].

Definition odd_text : jsstring :=
  json "{'issues':[{'line':4,'severity':'MAJOR','category':'bug','title':'','description':'the title is empty'},{'line':null,'severity':'MINOR','category':'style','title':'No line known','description':'the line is null'}]}".

Definition odd_candidates : list JSValue :=
  [obj [("line", num 4); ("severity", str "MAJOR"); ("category", str "bug");
        ("title", str ""); ("description", str "the title is empty")];
   obj [("line", JNull); ("severity", str "MINOR"); ("category", str "style");
        ("title", str "No line known"); ("description", str "the line is null")]].

Definition odd_value : JSValue := obj [("issues", JArray odd_candidates)].

(** [JSON.parse] on the sample texts; it rejects every other text, which
    is right for the texts that are not JSON and does not matter for the
    rest, none of which is ever passed to it below. *)
Definition JSON_parse (s : jsstring) : option JSValue :=
  if str_eqb s reply_text then Some reply_value
  else if str_eqb s prose_text then Some prose_value
  else if str_eqb s odd_text then Some odd_value
  else None.

(** Four working trees and two commits. In [/repo/app] a source file, the
    README and a removed file are staged; in [/repo/docs] the README and
    the removed file are modified and nothing is staged; in [/repo/assets]
    a staged change has an empty diff; any other tree is clean. Commit
    [c0ffee] changes what [/repo/docs] has modified; commit [e1217] is an
    empty commit, whose patch is the empty text. *)
Definition file_a : DiffFile :=
  {| to := lit "src/a.js"; deleted := false;
     chunks := [{| newStart := 1;
                   changes := [{| type := add; content := lit "+var total = 1;" |};
                               {| type := add; content := lit "+console.log(total);" |}] |}] |}.

Definition file_readme : DiffFile :=
  {| to := lit "README.md"; deleted := false;
     chunks := [{| newStart := 1;
                   changes := [{| type := add; content := lit "+How to run the review server" |}] |}] |}.

Definition file_gone : DiffFile :=
  {| to := lit "/dev/null"; deleted := true;
     chunks := [{| newStart := 0;
                   changes := [{| type := del; content := lit "-module.exports = {};" |}] |}] |}.

Definition app : jsstring := lit "/repo/app".
Definition docs : jsstring := lit "/repo/docs".
Definition assets : jsstring := lit "/repo/assets".
Definition clean : jsstring := lit "/repo/clean".
Definition app_diff : jsstring := lit "diff --git a/src/a.js b/src/a.js ...".
Definition docs_diff : jsstring := lit "diff --git a/README.md b/README.md ...".

Definition env : Env :=
  {| CodeAnalysisService.JSON_parse := JSON_parse;
     parseDiff := λ diff,
       if str_eqb diff app_diff then [file_a; file_readme; file_gone]
       else if str_eqb diff docs_diff then [file_readme; file_gone]
       else [];
     git_open := λ _, Ok ();
     git_status := λ repositoryPath,
       if str_eqb repositoryPath app
       then Ok {| staged := [lit "src/a.js"; lit "README.md"; lit "old.js"];
                  modified := [] |}
       else if str_eqb repositoryPath docs
       then Ok {| staged := []; modified := [lit "README.md"; lit "old.js"] |}
       else if str_eqb repositoryPath assets
       then Ok {| staged := [lit "logo.png"]; modified := [] |}
       else Ok {| staged := []; modified := [] |};
     git_branchLocal := λ _, Ok (lit "main");
     git_diff := λ repositoryPath _,
       if str_eqb repositoryPath app then Ok app_diff
       else if str_eqb repositoryPath docs then Ok docs_diff
       else Ok [];
     git_show := λ _ args,
       match args with
       | [commitHash; format] =>
           if str_eqb format (lit "--format=%H") then Ok commitHash
           else if str_eqb commitHash (lit "c0ffee") then Ok docs_diff
           else Ok []
       | _ => Throw (Err (lit "fatal: bad revision"))
       end;
     ai_generate := λ _ _, Ok (reply_text, 120%nat);
     ai_estimateEffort := λ _, Throw (Err (lit "ollama is not available"));
     db_fault := λ _, false;
     Date_now := λ n, 1700000000000 + 1500 * Z.of_nat n |}.

Definition PEP8 : CodingStandard.t :=
  {| CodingStandard.name := lit "PEP8";
     CodingStandard.description := None;
     CodingStandard.language := lit "python";
     CodingStandard.rules := obj [("maxLineLength", num 79)];
     CodingStandard.isActive := true;
     CodingStandard.isBuiltIn := true |}.

(** A request to rename a standard. *)
Definition rename : StandardsRoutes.ReqBody :=
  {| StandardsRoutes.name := Some (str "PEP9");
     StandardsRoutes.description := None;
     StandardsRoutes.language := None;
     StandardsRoutes.rules := None;
     StandardsRoutes.isActive := None |}.

(** A review row, as the analysis creates it. *)
Definition review : CodeReview.t :=
  {| CodeReview.id := 7%nat; CodeReview.userId := 1;
     CodeReview.repositoryPath := app; CodeReview.branch := lit "main";
     CodeReview.commitHash := None; CodeReview.status := IN_PROGRESS;
     CodeReview.filesAnalyzed := 0; CodeReview.issuesFound := 0;
     CodeReview.criticalIssues := 0; CodeReview.majorIssues := 0;
     CodeReview.minorIssues := 0; CodeReview.estimatedEffort := None;
     CodeReview.tokensUsed := 0; CodeReview.analysisTime := None;
     CodeReview.recommendations := None |}.

(** A database that holds the built-in standard and nothing else. *)
Definition world : World :=
  {| db := {| codeReview := []; codeIssue := [];
              codingStandard := {[ 0%nat := PEP8 ]}; next_id := 1%nat |};
     round_trips := 0%nat; ai_calls := []; clock_reads := 0%nat |}.

End Samples.

(* ================================================================== *)
(** * More sample inputs *)
(* ================================================================== *)

Module MoreSamples.
Import Prisma Runtime CodeAnalysisService.

(** The change of [Samples.file_a] as a later diff shows it: further
    down in the file and after a removed line. *)
Definition file_a_moved : DiffFile :=
  {| to := lit "src/a.js"; deleted := false;
     chunks := [{| newStart := 40;
                   changes := [{| type := del; content := lit "-var total = 0;" |};
                               {| type := add; content := lit "+var total = 1;" |};
                               {| type := add; content := lit "+console.log(total);" |}] |}] |}.

(** A file from which two lines were removed. *)
Definition file_trimmed : DiffFile :=
  {| to := lit "src/old.js"; deleted := false;
     chunks := [{| newStart := 3;
                   changes := [{| type := del; content := lit "-let unused = 0;" |};
                               {| type := del; content := lit "-export default unused;" |}] |}] |}.

(** The environment of [Samples.env] with a provider that answers no
    call. *)
Definition offline : Env :=
  {| CodeAnalysisService.JSON_parse := Samples.JSON_parse;
     parseDiff := parseDiff Samples.env;
     git_open := git_open Samples.env;
     git_status := git_status Samples.env;
     git_branchLocal := git_branchLocal Samples.env;
     git_diff := git_diff Samples.env;
     git_show := git_show Samples.env;
     ai_generate := λ _ _, Throw (Err (lit "ollama is not available: fetch failed"));
     ai_estimateEffort := ai_estimateEffort Samples.env;
     db_fault := db_fault Samples.env;
     Date_now := Date_now Samples.env |}.

(** The environment of [Samples.env] with a repository that knows no
    commit. *)
Definition detached : Env :=
  {| CodeAnalysisService.JSON_parse := Samples.JSON_parse;
     parseDiff := parseDiff Samples.env;
     git_open := git_open Samples.env;
     git_status := git_status Samples.env;
     git_branchLocal := git_branchLocal Samples.env;
     git_diff := git_diff Samples.env;
     git_show := λ _ _, Throw (Err (lit "fatal: bad object"));
     ai_generate := ai_generate Samples.env;
     ai_estimateEffort := ai_estimateEffort Samples.env;
     db_fault := db_fault Samples.env;
     Date_now := Date_now Samples.env |}.

(** A stored issue that can be fixed automatically, and the review it
    belongs to. *)
Definition issue : CodeIssue.t :=
  {| CodeIssue.id := 9%nat; CodeIssue.reviewId := 7%nat;
     CodeIssue.filePath := lit "src/a.js";
     CodeIssue.lineNumber := 6; CodeIssue.lineEnd := Some 7;
     CodeIssue.severity := MINOR; CodeIssue.category := lit "style";
     CodeIssue.title := lit "Use const";
     CodeIssue.description := lit "var is function scoped";
     CodeIssue.codeSnippet := Some (lit "var total = 1;");
     CodeIssue.suggestion := Some (lit "Declare total with const");
     CodeIssue.autoFixable := true; CodeIssue.fixCode := None;
     CodeIssue.effort := None; CodeIssue.standard := None;
     CodeIssue.documentationNeeded := None; CodeIssue.resolved := false |}.

Definition finished_review : CodeReview.t :=
  {| CodeReview.id := 7%nat; CodeReview.userId := 1;
     CodeReview.repositoryPath := Samples.app; CodeReview.branch := lit "main";
     CodeReview.commitHash := None; CodeReview.status := COMPLETED;
     CodeReview.filesAnalyzed := 1; CodeReview.issuesFound := 1;
     CodeReview.criticalIssues := 0; CodeReview.majorIssues := 0;
     CodeReview.minorIssues := 1; CodeReview.estimatedEffort := Some num_half;
     CodeReview.tokensUsed := 120; CodeReview.analysisTime := None;
     CodeReview.recommendations := None |}.

(** A database after one completed review. *)
Definition reviewed : World :=
  {| db := {| codeReview := [finished_review]; codeIssue := [issue];
              codingStandard := {[ 0%nat := Samples.PEP8 ]}; next_id := 10%nat |};
     round_trips := 0%nat; ai_calls := []; clock_reads := 0%nat |}.

(** A review that a run left IN_PROGRESS, and a database that holds
    it. *)
Definition pending_review : CodeReview.t :=
  {| CodeReview.id := 3%nat; CodeReview.userId := 1;
     CodeReview.repositoryPath := Samples.clean; CodeReview.branch := lit "main";
     CodeReview.commitHash := Some (lit "e1217"); CodeReview.status := IN_PROGRESS;
     CodeReview.filesAnalyzed := 0; CodeReview.issuesFound := 0;
     CodeReview.criticalIssues := 0; CodeReview.majorIssues := 0;
     CodeReview.minorIssues := 0; CodeReview.estimatedEffort := None;
     CodeReview.tokensUsed := 0; CodeReview.analysisTime := None;
     CodeReview.recommendations := None |}.

Definition stale : World :=
  {| db := {| codeReview := [pending_review]; codeIssue := [];
              codingStandard := {[ 0%nat := Samples.PEP8 ]}; next_id := 4%nat |};
     round_trips := 0%nat; ai_calls := []; clock_reads := 0%nat |}.

(** A database without any row. *)
Definition blank_world : World :=
  {| db := {| codeReview := []; codeIssue := []; codingStandard := ∅;
              next_id := 0%nat |};
     round_trips := 0%nat; ai_calls := []; clock_reads := 0%nat |}.

(** A source file of twelve lines, and the reply of a model asked to fix
    it. *)
Definition a_js : jsstring :=
  join [10%N] (lit <$> ["// totals"; "function sum(xs) {"; "  var i;"; "  var n = xs.length;";
                        "  // accumulate"; "  var total = 1;"; "  total = 0;";
                        "  for (i = 0; i < n; i++) {"; "    total += xs[i];"; "  }";
                        "  return total;"; "}"]).

Definition fix_reply : jsstring :=
  lit "FIXED_CODE: ```javascript const total = 0; ``` ".

(** Ollama is down; Gemini is configured and answers. *)
Definition remote : AIProviderRoutes.Remote :=
  {| AIProviderRoutes.OLLAMA_MODEL := None;
     AIProviderRoutes.GEMINI_API_KEY := Some (lit "key");
     AIProviderRoutes.GEMINI_MODEL := None;
     AIProviderRoutes.ollama_list := Throw (Err (lit "fetch failed"));
     AIProviderRoutes.gemini_hello := Ok (lit "Hello!") |}.

(** The environment of [Samples.env] whose effort estimate is that of
    the AI service in front of [remote], with Ollama active. *)
Definition guarded_env : Env :=
  {| CodeAnalysisService.JSON_parse := Samples.JSON_parse;
     parseDiff := parseDiff Samples.env;
     git_open := git_open Samples.env;
     git_status := git_status Samples.env;
     git_branchLocal := git_branchLocal Samples.env;
     git_diff := git_diff Samples.env;
     git_show := git_show Samples.env;
     ai_generate := ai_generate Samples.env;
     ai_estimateEffort :=
       AIServiceCalls.estimateEffort remote Samples.JSON_parse
         (λ _, Throw (Err (lit "fetch failed"))) (λ _, Ok Samples.prose_text)
         (AIService.constructor None);
     db_fault := db_fault Samples.env;
     Date_now := Date_now Samples.env |}.

(** The environment of [Samples.env] whose effort estimate is that of
    the Ollama service when the model cannot be reached. *)
Definition defaulting : Env :=
  {| CodeAnalysisService.JSON_parse := Samples.JSON_parse;
     parseDiff := parseDiff Samples.env;
     git_open := git_open Samples.env;
     git_status := git_status Samples.env;
     git_branchLocal := git_branchLocal Samples.env;
     git_diff := git_diff Samples.env;
     git_show := git_show Samples.env;
     ai_generate := ai_generate Samples.env;
     ai_estimateEffort :=
       LLMReplies.estimateEffort Samples.JSON_parse
         (λ _, Throw (Err (lit "fetch failed")));
     db_fault := db_fault Samples.env;
     Date_now := Date_now Samples.env |}.

(** The staged analysis as the route calls it: Gemini answers as the
    provider of [Samples.env] does, Ollama does not answer. *)
Definition run_staged (this : AIService.t) (repositoryPath userId : JSValue)
    : M CodeReview.t :=
  match repositoryPath, as_int userId with
  | JString path, Some user =>
      analyzeStagedChanges
        (match AIService.getService this with
         | AIService.geminiService => Samples.env
         | AIService.llmService => offline
         end) path user
  | _, _ => throw ValidationError
  end.

(** A request for a staged analysis by Gemini, and one that names a
    provider that does not exist. *)
Definition staged_request (provider : string) : ReviewsRoutes.ReqBody :=
  {| ReviewsRoutes.repositoryPath := Some (JString Samples.app);
     ReviewsRoutes.commitHash := None;
     ReviewsRoutes.userId := Some (Samples.num 1);
     ReviewsRoutes.provider := Some (Samples.str provider) |}.

(** The same two requests for the analysis of a commit. *)
Definition commit_request (provider : string) : ReviewsRoutes.ReqBody :=
  {| ReviewsRoutes.repositoryPath := Some (JString Samples.app);
     ReviewsRoutes.commitHash := Some (Samples.str "c0ffee");
     ReviewsRoutes.userId := Some (Samples.num 1);
     ReviewsRoutes.provider := Some (Samples.str provider) |}.

(** A request to create a standard. *)
Definition airbnb : StandardsRoutes.ReqBody :=
  {| StandardsRoutes.name := Some (Samples.str "Airbnb");
     StandardsRoutes.description := None;
     StandardsRoutes.language := Some (Samples.str "javascript");
     StandardsRoutes.rules := Some (Samples.obj [("indentation", Samples.num 2)]);
     StandardsRoutes.isActive := None |}.

End MoreSamples.

(* ================================================================== *)
(** * Notions used in the proofs *)
(* ================================================================== *)

Module Reasoning.
Import Prisma Runtime CodeAnalysisService Spec.

(** [g] is a contiguous piece of [s]. *)
Definition is_piece (g s : jsstring) : Prop := ∃ pre post, s = pre ++ g ++ post.

(** [ensures m w Q]: running [m] from [w] ends in a result and a world
    that satisfy [Q]. *)
Definition ensures {A} (m : M A) (w : World) (Q : outcome A → World → Prop) : Prop :=
  Q (m w).1 (m w).2.

(** [a], [w] became [a'], [w'] by saving issues that satisfy [P], counting
    [n] files and making the calls [calls]; the review table is as it
    was. *)
Definition extends (P : CodeIssue.t → Prop) (n : nat) (calls : list AiCall)
    (a : Acc) (w : World) (a' : Acc) (w' : World) : Prop :=
  (∃ new, codeIssue (db w') = codeIssue (db w) ++ new ∧
          allIssues a' = allIssues a ++ new ∧ Forall P new) ∧
  codeReview (db w') = codeReview (db w) ∧
  filesAnalyzed a' = (filesAnalyzed a + n)%nat ∧
  ai_calls w' = ai_calls w ++ calls.

Definition saved_for (review : CodeReview.t) (file : DiffFile) (i : CodeIssue.t) : Prop :=
  CodeIssue.reviewId i = CodeReview.id review ∧ CodeIssue.filePath i = to file.

Definition saved_in (review : CodeReview.t) (files : list DiffFile) (i : CodeIssue.t) : Prop :=
  CodeIssue.reviewId i = CodeReview.id review ∧
  ∃ file, file ∈ files ∧ survives file = true ∧ CodeIssue.filePath i = to file.

(** What the counters depend on in the issue table. *)
Definition keys (d : DB) : list (Id * IssueSeverity) :=
  (λ i, (CodeIssue.reviewId i, CodeIssue.severity i)) <$> codeIssue d.

(** Nothing the counters depend on has changed. *)
Definition quiet (w w' : World) : Prop :=
  keys (db w') = keys (db w) ∧ codeReview (db w') = codeReview (db w).

(** A run that returns has completed its review with matching counters. *)
Definition completed (o : outcome CodeReview.t) (w' : World) : Prop :=
  match o with
  | Ok r => review_row (CodeReview.id r) (db w') = Some r ∧
            CodeReview.status r = COMPLETED ∧
            counts_match r (db w')
  | Throw _ => True
  end.

(** All that changed is that some reviews were set to FAILED. *)
Definition only_fails (w w' : World) : Prop :=
  ai_calls w' = ai_calls w ∧ codeIssue (db w') = codeIssue (db w) ∧
  Forall2 (λ r' r0, r' = r0 ∨ r' = CodeReview.set_status FAILED r0)
          (codeReview (db w')) (codeReview (db w)).

(** The newest review has this identifier, and it is FAILED. *)
Definition newest_failed (id : Id) (repositoryPath : jsstring) (userId : Z)
    (d : DB) : Prop :=
  ∃ row rest, codeReview d = row :: rest ∧ CodeReview.id row = id ∧
              CodeReview.repositoryPath row = repositoryPath ∧
              CodeReview.userId row = userId ∧
              CodeReview.status row = FAILED.

(** The identifiers are fresh and the generator has passed [n]. *)
Definition fresh_from (n : nat) (w : World) : Prop :=
  fresh_ids (db w) ∧ (n ≤ next_id (db w))%nat.

(** The standard [s] is stored under [id], and the identifiers of the
    standards lie below the generator. *)
Definition keeps (id : Id) (s : CodingStandard.t) (w : World) : Prop :=
  codingStandard (db w) !! id = Some s ∧
  ∀ k, is_Some (codingStandard (db w) !! k) → (k < next_id (db w))%nat.

End Reasoning.

(* ================================================================== *)
(** * Notions of the further properties *)
(* ================================================================== *)

Module Notions.
Import Prisma Runtime CodeAnalysisService Spec Reasoning.

(** A line of the diff that [extractChangedCode] keeps. *)
Definition kept (change : Change) : bool :=
  match type change with
  | del => false
  | _ => true
  end.

(** The added and context lines of a file, in the order of the diff,
    without their first character. *)
Definition kept_lines (file : DiffFile) : list jsstring :=
  chunk ← chunks file;
  (λ change, substring1 (content change)) <$> filter (λ c, kept c = true) (changes chunk).

(** The six fields of an issue that the consumers of the parser read
    without a guard. *)
Definition well_formed (i : LLMService.Issue) : Prop :=
  truthy (LLMService.line i) = true ∧ truthy (LLMService.lineEnd i) = true ∧
  truthy (LLMService.severity i) = true ∧ truthy (LLMService.category i) = true ∧
  truthy (LLMService.title i) = true ∧ truthy (LLMService.description i) = true.

(** The text holds a fenced block: two fences that do not overlap. *)
Definition has_fenced_block (s : jsstring) : Prop :=
  ∃ pre mid post, s = pre ++ LLMService.fence ++ mid ++ LLMService.fence ++ post.

(** The review of a run in which no call was answered. *)
Definition clean_bill (files : list DiffFile) (r : CodeReview.t) : Prop :=
  CodeReview.status r = COMPLETED ∧
  CodeReview.filesAnalyzed r = length (filter (λ f, survives f = true) files) ∧
  CodeReview.issuesFound r = 0%nat ∧
  CodeReview.criticalIssues r = 0%nat ∧
  CodeReview.majorIssues r = 0%nat ∧
  CodeReview.minorIssues r = 0%nat ∧
  CodeReview.tokensUsed r = 0%nat ∧
  CodeReview.estimatedEffort r = Some (num_of_nat 0).

(** A review that has reached one of the two final statuses. *)
Definition finished (r : CodeReview.t) : Prop :=
  CodeReview.status r = COMPLETED ∨ CodeReview.status r = FAILED.

(** The three headline counters do not exceed the number of issues. *)
Definition bounded (r : CodeReview.t) : Prop :=
  (CodeReview.criticalIssues r + CodeReview.majorIssues r
   + CodeReview.minorIssues r ≤ CodeReview.issuesFound r)%nat.

(** Every issue belongs to a review that is stored. *)
Definition issues_have_reviews (d : DB) : Prop :=
  ∀ i, i ∈ codeIssue d →
       ∃ r, r ∈ codeReview d ∧ CodeReview.id r = CodeIssue.reviewId i.

(** What a database built by the analyses satisfies. *)
Definition well_kept (d : DB) : Prop :=
  fresh_ids d ∧ NoDup (CodeReview.id <$> codeReview d) ∧
  issues_have_reviews d ∧ Forall bounded (codeReview d).

(** All a run may do to a review that was there before: leave it, or
    set it from IN_PROGRESS to FAILED. *)
Definition left_or_failed (r' r0 : CodeReview.t) : Prop :=
  r' = r0 ∨ (CodeReview.status r0 = IN_PROGRESS ∧ r' = CodeReview.set_status FAILED r0).

(** The review table and the keys of the issue table after a run for
    [userId] and [repositoryPath] that started in [w]: at most one new
    review, whose identifier is the next one. *)
Definition run_frame (userId : Z) (repositoryPath : jsstring) (w w' : World) : Prop :=
  ∃ created old' new_keys,
    codeReview (db w') = created ++ old' ∧
    Forall2 left_or_failed old' (codeReview (db w)) ∧
    Forall (λ row, CodeReview.id row = next_id (db w) ∧
                   CodeReview.userId row = userId ∧
                   CodeReview.repositoryPath row = repositoryPath ∧
                   bounded row) created ∧
    (length created ≤ 1)%nat ∧
    keys (db w') = keys (db w) ++ new_keys ∧
    Forall (λ k, k.1 = next_id (db w)) new_keys ∧
    (created = [] → new_keys = []).

(** The run has created its review, and saved issues for it only. *)
Definition opened (userId : Z) (repositoryPath : jsstring) (w w' : World) : Prop :=
  ∃ row new_keys,
    codeReview (db w') = row :: codeReview (db w) ∧
    CodeReview.id row = next_id (db w) ∧
    CodeReview.userId row = userId ∧
    CodeReview.repositoryPath row = repositoryPath ∧
    bounded row ∧
    keys (db w') = keys (db w) ++ new_keys ∧
    Forall (λ k, k.1 = next_id (db w)) new_keys.

(** The rows whose identifier is that of one of [xs] get the effort [e]. *)
Definition with_effort (e : number) (xs : list CodeIssue.t) (row : CodeIssue.t)
    : CodeIssue.t :=
  if bool_decide (CodeIssue.id row ∈ CodeIssue.id <$> xs)
  then CodeIssue.set_effort e row else row.

(** One of the two providers. *)
Definition known (p : jsstring) : Prop := p = lit "ollama" ∨ p = lit "gemini".

(** The answer of an analysis handler once the analysis has run with the
    provider [p]. *)
Definition answered (p : jsstring) (failure : jsstring)
    (result : outcome CodeReview.t * World)
    : ReviewsRoutes.Response * (AIService.t * World) :=
  match result with
  | (Ok review, w') =>
      (ReviewsRoutes.json (ReviewsRoutes.analysed review p (ReviewsRoutes.found review)),
       ({| AIService.provider := p |}, w'))
  | (Throw e, w') =>
      (ReviewsRoutes.status_json 500
         (ReviewsRoutes.error (AIProviderRoutes.message_or e failure)),
       ({| AIService.provider := p |}, w'))
  end.

(** The staged analysis creates its review and then finds no entry to
    loop over: the diff is blank, or [parseDiff] finds no file in it. *)
Definition staged_run_stops (env : Env) (repositoryPath : jsstring) : Prop :=
  git_open env repositoryPath = Ok () ∧
  ∃ st branch diff,
    git_status env repositoryPath = Ok st ∧
    (length (staged st) =? 0)%nat && (length (modified st) =? 0)%nat = false ∧
    git_branchLocal env repositoryPath = Ok branch ∧
    (if (0 <? length (staged st))%nat
     then git_diff env repositoryPath [lit "--cached"]
     else git_diff env repositoryPath []) = Ok diff ∧
    (blank diff = true ∨ parseDiff env diff = []).

(** The same for the commit analysis. *)
Definition commit_run_stops (env : Env) (repositoryPath commitHash : jsstring) : Prop :=
  git_open env repositoryPath = Ok () ∧
  ∃ shown branch diff,
    git_show env repositoryPath [commitHash; lit "--format=%H"] = Ok shown ∧
    git_branchLocal env repositoryPath = Ok branch ∧
    git_show env repositoryPath [commitHash; lit "--format="] = Ok diff ∧
    (blank diff = true ∨ parseDiff env diff = []).

(** The run that started in [w] created a review row, and in [w'] that
    row is still IN_PROGRESS. *)
Definition created_and_left (repositoryPath : jsstring) (userId : Z)
    (w w' : World) : Prop :=
  ∃ row, review_row (next_id (db w)) (db w') = Some row ∧
         CodeReview.repositoryPath row = repositoryPath ∧
         CodeReview.userId row = userId ∧
         CodeReview.status row = IN_PROGRESS.

(** No stored standard has the name of [s]. *)
Definition unseeded (d : DB) (s : CodingStandard.t) : Prop :=
  map_Forall (λ _ s', CodingStandard.name s' ≠ CodingStandard.name s) (codingStandard d).

#[global] Instance unseeded_dec d s : Decision (unseeded d s).
Proof. unfold unseeded. apply _. Defined.

End Notions.


Import Prisma Runtime PrismaClient CodeAnalysisService Spec Reasoning.
Import Notions.

(* ================================================================== *)
(** * The response parser *)
(* ================================================================== *)

Section ParserFacts.
Import LLMService.

Lemma strip_prefix_Some p s r : strip_prefix p s = Some r → s = p ++ r.
Proof.
  revert s. induction p as [|a p IH]; intros [|b s] H; simplify_eq/=; [done..|].
  unfold char_eqb in H. destruct (N.eqb_spec a b); [|done].
  subst. f_equal. by apply IH.
Qed.

Lemma skip_spaces_split s : ∃ ws, s = ws ++ skip_spaces s.
Proof.
  induction s as [|c s [ws IH]]; [by exists []|]. simpl.
  destruct (is_space c).
  - exists (c :: ws). simpl. by f_equal.
  - by exists [].
Qed.

Lemma lazy_body_Some r b :
  lazy_body r = Some b → (∃ post, r = b ++ post) ∧ list.last b = Some close_brace.
Proof.
  revert b. induction r as [|c r IH]; intros b H; [done|]. simpl in H.
  destruct (char_eqb c close_brace && closes_fence r) eqn:E.
  - simplify_eq. apply andb_true_iff in E as [E _].
    apply N.eqb_eq in E. subst. split; [by exists r|done].
  - destruct (lazy_body r) as [b'|] eqn:Hb; simplify_eq/=.
    destruct (IH b' eq_refl) as [[post ->] Hl]. split; [by exists post|].
    by destruct b'.
Qed.

Lemma brace_delimited_cons c b :
  c = open_brace → list.last b = Some close_brace → brace_delimited (c :: b) = true.
Proof.
  intros -> Hl. unfold brace_delimited.
  apply andb_true_iff. split; [apply N.eqb_refl|by apply bool_decide_eq_true_2].
Qed.

Lemma is_piece_cons g c s : is_piece g s → is_piece g (c :: s).
Proof. intros (pre & post & ->). by exists (c :: pre), post. Qed.

Lemma fenced_at_Some s g :
  fenced_at s = Some g → is_piece g s ∧ brace_delimited g = true.
Proof.
  unfold fenced_at. intros H.
  apply bind_Some in H as (r & Hr & H).
  apply strip_prefix_Some in Hr as ->.
  assert (∃ j r1, r = j ++ r1 ∧ default r (strip_prefix (lit "json") r) = r1)
    as (j & r1 & Hr & Hr1).
  { destruct (strip_prefix (lit "json") r) as [r'|] eqn:Hj.
    - apply strip_prefix_Some in Hj. by exists (lit "json"), r'.
    - by exists [], r. }
  rewrite Hr1 in H. subst r. clear Hr1.
  destruct (skip_spaces_split r1) as [ws Hws].
  destruct (skip_spaces r1) as [|c r2]; [done|].
  destruct (char_eqb c open_brace) eqn:Hc; [|done].
  apply N.eqb_eq in Hc.
  apply fmap_Some in H as (b & Hb & ->).
  apply lazy_body_Some in Hb as [[post ->] Hl]. split.
  - exists (fence ++ j ++ ws), post. rewrite Hws. by rewrite <- !(assoc_L (++)).
  - by apply brace_delimited_cons.
Qed.

Lemma match_fenced_Some s g :
  match_fenced s = Some g → is_piece g s ∧ brace_delimited g = true.
Proof.
  induction s as [|c s IH]; [done|]. cbn [match_fenced].
  destruct (fenced_at (c :: s)) as [g'|] eqn:Hf.
  - intros [= ->]. by apply fenced_at_Some.
  - intros H. destruct (IH H). split; [by apply is_piece_cons|done].
Qed.

Lemma upto_last_close_Some s t :
  upto_last_close s = Some t →
  (∃ post, s = t ++ post) ∧ list.last t = Some close_brace.
Proof.
  revert t. induction s as [|c s IH]; intros t H; [done|]. simpl in H.
  destruct (upto_last_close s) as [t'|] eqn:Ht.
  - simplify_eq. destruct (IH t' eq_refl) as [[post ->] Hl].
    split; [by exists post|]. by destruct t'.
  - destruct (char_eqb c close_brace) eqn:Hc; simplify_eq.
    apply N.eqb_eq in Hc as ->. split; [by exists s|done].
Qed.

Lemma match_braces_Some s g :
  match_braces s = Some g → is_piece g s ∧ brace_delimited g = true.
Proof.
  induction s as [|c s IH]; [done|]. simpl.
  destruct (char_eqb c open_brace) eqn:Hc.
  - destruct (upto_last_close s) as [t|] eqn:Ht; intros; simplify_eq/=.
    apply N.eqb_eq in Hc.
    apply upto_last_close_Some in Ht as [[post ->] Hl]. split.
    + by exists [], post.
    + by apply brace_delimited_cons.
  - intros H. destruct (IH H). split; [by apply is_piece_cons|done].
Qed.

(** What the two patterns locate is a brace-delimited piece of the
    response. *)
Lemma locate_json_Some s g :
  locate_json s = Some g → is_piece g s ∧ brace_delimited g = true.
Proof.
  unfold locate_json. destruct (match_fenced s) eqn:Hf.
  - intros [= ->]. by apply match_fenced_Some.
  - apply match_braces_Some.
Qed.

Lemma elem_of_inits p s : p ∈ inits s ↔ ∃ post, s = p ++ post.
Proof.
  revert p. induction s as [|c s IH]; intros p; simpl.
  - rewrite list_elem_of_singleton. split.
    + intros ->. by exists [].
    + intros [post H]. symmetry in H. by apply app_eq_nil in H as [-> _].
  - rewrite elem_of_cons, list_elem_of_fmap. split.
    + intros [->|(q & -> & Hq)]; [by eexists|].
      apply IH in Hq as [post ->]. by exists post.
    + intros [post H]. destruct p as [|a p]; [by left|right].
      simplify_eq/=. exists p. split; [done|]. apply IH. by exists post.
Qed.

Lemma elem_of_tails t s : t ∈ tails s ↔ ∃ pre, s = pre ++ t.
Proof.
  induction s as [|c s IH]; simpl.
  - rewrite list_elem_of_singleton. split.
    + intros ->. by exists [].
    + intros [pre H]. symmetry in H. by apply app_eq_nil in H as [_ ->].
  - rewrite elem_of_cons, IH. split.
    + intros [->|[pre ->]]; [by exists []|by exists (c :: pre)].
    + intros [[|a pre] H]; simplify_eq/=; [by left|right; by exists pre].
Qed.

Lemma elem_of_substrings g s : g ∈ substrings s ↔ is_piece g s.
Proof.
  unfold substrings. rewrite list_elem_of_bind. split.
  - intros (t & Hg & Ht). apply elem_of_tails in Ht as [pre ->].
    apply elem_of_inits in Hg as [post ->]. by exists pre, post.
  - intros (pre & post & ->). exists (g ++ post). split.
    + apply elem_of_inits. by exists post.
    + apply elem_of_tails. by exists pre.
Qed.

Lemma no_json_object P text g :
  has_json_object P text = false →
  is_piece g text → brace_delimited g = true → P g = None.
Proof.
  intros Hno Hg Hb. destruct (P g) as [v|] eqn:Hv; [|done].
  assert (has_json_object P text = true) as Hyes; [|congruence].
  apply existsb_exists. exists g. split.
  - apply list_elem_of_In, elem_of_substrings, Hg.
  - by rewrite Hb, Hv.
Qed.

Lemma get_not_null v k : not_null v = true → get v k = Ok (get_opt (Some v) k).
Proof. by destruct v. Qed.

Lemma build_result_without_issues parsed :
  not_null parsed = true →
  isArray (get_opt (Some parsed) "issues") = false →
  build_result parsed = Ok (without_issues parsed).
Proof.
  intros Hn Hi. unfold build_result.
  rewrite !get_not_null by done. cbn [mbind outcome_bind].
  replace (array_or_empty (get_opt (Some parsed) "issues")) with (@nil JSValue).
  - reflexivity.
  - by destruct (get_opt (Some parsed) "issues") as [[]|].
Qed.

Lemma has_required_fields_usable c :
  not_null c = true → has_required_fields c = Ok (usable c).
Proof.
  intros Hn. unfold has_required_fields, usable, has_field.
  rewrite !get_not_null by done. cbn [mbind outcome_bind].
  repeat (destruct (truthy_opt _); cbn [negb andb]; [|done]). done.
Qed.

Lemma filterM_usable cands :
  forallb not_null cands = true →
  filterM has_required_fields cands = Ok (filter (λ c, usable c = true) cands).
Proof.
  induction cands as [|c cands IH]; [done|]. cbn [forallb filterM].
  intros [Hc Hrest]%andb_true_iff.
  rewrite has_required_fields_usable, IH by done. cbn [mbind outcome_bind].
  rewrite filter_cons. destruct (usable c); case_decide; done.
Qed.

Lemma normalize_issue_normalized c :
  not_null c = true → normalize_issue c = Ok (normalized c).
Proof.
  intros Hn. unfold normalize_issue. by rewrite !get_not_null by done.
Qed.

Lemma mapM_normalized cands :
  forallb not_null cands = true →
  mapM normalize_issue cands = Ok (normalized <$> cands).
Proof.
  induction cands as [|c cands IH]; [done|]. cbn [forallb mapM].
  intros [Hc Hrest]%andb_true_iff.
  by rewrite normalize_issue_normalized, IH.
Qed.

Lemma forallb_filter {A} (p : A → bool) (P : A → Prop) `{∀ x, Decision (P x)} xs :
  forallb p xs = true → forallb p (filter P xs) = true.
Proof.
  rewrite !forallb_forall. intros Hall x Hx. apply Hall.
  apply list_elem_of_In. apply list_elem_of_In in Hx.
  by apply list_elem_of_filter in Hx as [_ ?].
Qed.

End ParserFacts.

(** C5. A response that holds no JSON object anywhere, fenced or not,
    parses to the empty result: no issue, an all-zero summary, four empty
    recommendation lists. The parser returns; it does not throw. *)
Theorem no_json_object_gives_empty_result
    (JSON_parse : jsstring → option JSValue) (text : jsstring) :
  has_json_object JSON_parse text = false →
  LLMService.parseAnalysisResponse JSON_parse text = Ok LLMService.emptyResult.
Proof.
  intros Hno. unfold LLMService.parseAnalysisResponse, LLMService.parse_located.
  destruct (LLMService.locate_json text) as [g|] eqn:Hg; [|done].
  apply locate_json_Some in Hg as [Hpiece Hb].
  by rewrite (no_json_object JSON_parse text g Hno Hpiece Hb).
Qed.

Lemma no_json_object_gives_empty_result_witness :
  has_json_object Samples.JSON_parse (lit "Use { curly braces } around blocks.") = false ∧
  LLMService.parseAnalysisResponse Samples.JSON_parse
    (lit "Use { curly braces } around blocks.") = Ok LLMService.emptyResult.
Proof.
  split; [vm_compute; reflexivity|].
  apply no_json_object_gives_empty_result. vm_compute; reflexivity.
Defined.

(** C2, as amended. When [JSON.parse] rejects the located text the parser
    returns the empty result. When it accepts the text but the top-level
    [issues] is not a list, the parser returns, without throwing, a result
    with no issue whose summary is the response's own when that is truthy
    (all-zero otherwise) and whose recommendation lists are the
    response's own where they are lists (empty otherwise). *)
Theorem parse_failure_or_missing_issue_list
    (JSON_parse : jsstring → option JSValue) (text jsonStr : jsstring) :
  LLMService.locate_json text = Some jsonStr →
  (JSON_parse jsonStr = None →
   LLMService.parseAnalysisResponse JSON_parse text = Ok LLMService.emptyResult) ∧
  (∀ parsed, JSON_parse jsonStr = Some parsed →
     isArray (get_opt (Some parsed) "issues") = false →
     LLMService.parseAnalysisResponse JSON_parse text =
       Ok (if not_null parsed then without_issues parsed
           else LLMService.emptyResult)).
Proof.
  intros Hl. unfold LLMService.parseAnalysisResponse, LLMService.parse_located.
  rewrite Hl. split.
  - by intros ->.
  - intros parsed -> Hi. destruct (not_null parsed) eqn:Hn.
    + by rewrite build_result_without_issues.
    + by destruct parsed.
Qed.

Lemma parse_failure_or_missing_issue_list_witness :
  LLMService.parseAnalysisResponse Samples.JSON_parse (lit "Result: {not json}")
    = Ok LLMService.emptyResult ∧
  LLMService.parseAnalysisResponse Samples.JSON_parse Samples.prose_text
    = Ok (without_issues Samples.prose_value).
Proof.
  split.
  - apply (parse_failure_or_missing_issue_list Samples.JSON_parse
             (lit "Result: {not json}") (lit "{not json}")); vm_compute; reflexivity.
  - destruct (parse_failure_or_missing_issue_list Samples.JSON_parse
                Samples.prose_text Samples.prose_text) as [_ H];
      [vm_compute; reflexivity|].
    apply (H Samples.prose_value); vm_compute; reflexivity.
Defined.

(** C2 as stated fails: the reply below parses, its [issues] is a string,
    and the result carries the reply's summary (critical: 2) and its
    testing recommendation instead of zeros and empty lists. *)
Lemma summary_and_recommendations_pass_through :
  LLMService.locate_json Samples.prose_text = Some Samples.prose_text ∧
  Samples.JSON_parse Samples.prose_text = Some Samples.prose_value ∧
  isArray (get_opt (Some Samples.prose_value) "issues") = false ∧
  LLMService.parseAnalysisResponse Samples.JSON_parse Samples.prose_text
    ≠ Ok LLMService.emptyResult.
Proof.
  repeat split; try (vm_compute; reflexivity).
  intros H. vm_compute in H. discriminate H.
Qed.

(** C6, as amended. For a parsed response whose [issues] is a list
    without [null] entries, the parser keeps, normalised and in order,
    exactly the candidates whose title, description, severity and category
    are truthy and whose [line] property is present, whatever it holds; it
    drops the others. In particular a candidate without [severity] is
    dropped while the usable ones are kept. *)
Theorem unusable_candidates_are_dropped
    (JSON_parse : jsstring → option JSValue) (text jsonStr : jsstring)
    (parsed : JSValue) (candidates : list JSValue) :
  LLMService.locate_json text = Some jsonStr →
  JSON_parse jsonStr = Some parsed →
  get_opt (Some parsed) "issues" = Some (JArray candidates) →
  forallb not_null candidates = true →
  ∃ r, LLMService.parseAnalysisResponse JSON_parse text = Ok r ∧
       LLMService.issues r = normalized <$> filter (λ c, usable c = true) candidates ∧
       ∀ c, has_field "severity" c = false → usable c = false.
Proof.
  intros Hl Hp Hi Hn.
  unfold LLMService.parseAnalysisResponse, LLMService.parse_located. rewrite Hl, Hp.
  assert (not_null parsed = true) as Hnn by (by destruct parsed).
  unfold LLMService.build_result. rewrite !get_not_null by done. rewrite Hi.
  cbn [mbind outcome_bind array_or_empty].
  rewrite filterM_usable by done. cbn [mbind outcome_bind].
  rewrite mapM_normalized by (by apply forallb_filter). cbn [mbind outcome_bind].
  eexists. split; [reflexivity|]. split; [done|].
  intros c Hc. unfold usable, has_field in *.
  destruct (get_opt (Some c) "severity"); [done|].
  cbn. by rewrite !andb_false_r.
Qed.

Lemma unusable_candidates_are_dropped_witness :
  ∃ r, LLMService.parseAnalysisResponse Samples.JSON_parse Samples.reply_text = Ok r ∧
       (LLMService.title <$> LLMService.issues r)
         = [Samples.str "Use const"; Samples.str "Add a comment"].
Proof.
  destruct (unusable_candidates_are_dropped Samples.JSON_parse Samples.reply_text
              Samples.reply_text Samples.reply_value
              (array_or_empty (get_opt (Some Samples.reply_value) "issues")))
    as (r & Hr & Hissues & _); [vm_compute; reflexivity..|].
  exists r. split; [exact Hr|]. rewrite Hissues. vm_compute. reflexivity.
Defined.

(** C6 as stated fails: of the two candidates of the reply below, the
    first has all five fields and is dropped (its title is the empty
    string), and the second is kept, with line 1, although its line is
    [null]; the issues returned are not the candidates that have all five
    fields. *)
Lemma empty_title_dropped_null_line_kept :
  ∃ r, LLMService.parseAnalysisResponse Samples.JSON_parse Samples.odd_text = Ok r ∧
       Samples.JSON_parse Samples.odd_text = Some Samples.odd_value ∧
       has_all_five <$> Samples.odd_candidates = [true; true] ∧
       (λ c, get_opt (Some c) "line") <$> Samples.odd_candidates
         = [Some (Samples.num 4); Some JNull] ∧
       (LLMService.description <$> LLMService.issues r)
         = [Samples.str "the line is null"] ∧
       (LLMService.line <$> LLMService.issues r) = [Samples.num 1] ∧
       LLMService.issues r
         ≠ normalized <$> filter (λ c, has_all_five c = true) Samples.odd_candidates.
Proof.
  eexists. split; [vm_compute; reflexivity|].
  repeat split; try (vm_compute; reflexivity).
  intros H. vm_compute in H. discriminate H.
Qed.

(* ================================================================== *)
(** * Reasoning about [async] code *)
(* ================================================================== *)

Section Ensures.

Lemma ensures_ret {A} (a : A) w Q : Q (Ok a) w → ensures (mret a) w Q.
Proof. done. Qed.

Lemma ensures_throw {A} e w (Q : outcome A → World → Prop) : Q (Throw e) w → ensures (throw e) w Q.
Proof. done. Qed.

Lemma ensures_lift {A} (o : outcome A) w Q : Q o w → ensures (lift o) w Q.
Proof. done. Qed.

Lemma ensures_bind {A B} (m : M A) (f : A → M B) w Q :
  ensures m w (λ o w1, match o with
                    | Ok a => ensures (f a) w1 Q
                    | Throw e => Q (Throw e) w1
                    end) →
  ensures (m ≫= f) w Q.
Proof.
  unfold ensures, mbind, M_bind. by destruct (m w) as [[a|e] w1].
Qed.

Lemma ensures_try_catch {A} (m : M A) h w Q :
  ensures m w (λ o w1, match o with
                    | Ok a => Q (Ok a) w1
                    | Throw e => ensures (h e) w1 Q
                    end) →
  ensures (try_catch m h) w Q.
Proof.
  unfold ensures, try_catch. by destruct (m w) as [[a|e] w1].
Qed.

Lemma ensures_mono {A} (m : M A) w (Q Q' : outcome A → World → Prop) :
  ensures m w Q → (∀ o w', Q o w' → Q' o w') → ensures m w Q'.
Proof. unfold ensures. auto. Qed.

Lemma ensures_round_trip {A} fault (op : DB → outcome (A * DB)) w Q :
  (fault (round_trips w) = true → Q (Throw ConnectionError) (tick_db w)) →
  (fault (round_trips w) = false →
   match op (db w) with
   | Ok (a, d) => Q (Ok a) (with_db d (tick_db w))
   | Throw e => Q (Throw e) (tick_db w)
   end) →
  ensures (round_trip fault op) w Q.
Proof.
  unfold ensures, round_trip. intros Ht Hf.
  destruct (fault (round_trips w)); [by apply Ht|].
  specialize (Hf eq_refl). by destruct (op (db w)) as [[a d]|e].
Qed.

(** A loop whose turns never throw keeps an invariant of its variables and
    of the world. *)
Lemma ensures_for_of {A S} (xs : list A) (body : S → A → M S)
    (Inv : list A → S → World → Prop) s w :
  Inv [] s w →
  (∀ done x s w, Inv done s w →
     ensures (body s x) w (λ o w', ∃ s', o = Ok s' ∧ Inv (done ++ [x]) s' w')) →
  ensures (for_of xs body s) w (λ o w', ∃ s', o = Ok s' ∧ Inv xs s' w').
Proof.
  intros H0 Hstep.
  cut (∀ done s w, Inv done s w →
         ensures (for_of xs body s) w (λ o w', ∃ s', o = Ok s' ∧ Inv (done ++ xs) s' w')).
  { intros H. by apply (H []). }
  clear s w H0. induction xs as [|x xs IH]; intros done s w HI.
  - simpl. apply ensures_ret. exists s. by rewrite app_nil_r.
  - simpl. apply ensures_bind. eapply ensures_mono; [by apply Hstep|].
    intros o w' (s' & -> & HI'). eapply ensures_mono; [by apply IH|].
    intros o' w''. by rewrite <- (assoc_L (++)).
Qed.

(** A loop whose turns may throw: what holds of the world throughout. *)
Lemma ensures_for_of_world {A S} (xs : list A) (body : S → A → M S)
    (Inv : World → Prop) s w :
  Inv w →
  (∀ x s w, Inv w → ensures (body s x) w (λ _ w', Inv w')) →
  ensures (for_of xs body s) w (λ _ w', Inv w').
Proof.
  intros H0 Hstep. revert s w H0. induction xs as [|x xs IH]; intros s w HI.
  - by apply ensures_ret.
  - simpl. apply ensures_bind. eapply ensures_mono; [by apply Hstep|].
    intros [s'|e] w' HI'; [by apply IH|done].
Qed.

End Ensures.

(* ================================================================== *)
(** * The orchestrator *)
(* ================================================================== *)

Section Loop.
Variable env : Env.

Lemma extends_refl P a w : extends P 0 [] a w a w.
Proof.
  repeat split; [|lia|by rewrite app_nil_r].
  exists []. by rewrite !app_nil_r.
Qed.

Lemma extends_same P a w w' :
  db w' = db w → ai_calls w' = ai_calls w → extends P 0 [] a w a w'.
Proof.
  intros Hd Hc. unfold extends. rewrite Hd, Hc.
  repeat split; [|lia|by rewrite app_nil_r].
  exists []. by rewrite !app_nil_r.
Qed.

Lemma extends_trans P n1 n2 c1 c2 a w a1 w1 a2 w2 :
  extends P n1 c1 a w a1 w1 → extends P n2 c2 a1 w1 a2 w2 →
  extends P (n1 + n2) (c1 ++ c2) a w a2 w2.
Proof.
  intros ((new1 & Hd1 & Ha1 & HP1) & Hr1 & Hn1 & Hc1)
         ((new2 & Hd2 & Ha2 & HP2) & Hr2 & Hn2 & Hc2).
  repeat split.
  - exists (new1 ++ new2). rewrite Hd2, Hd1, Ha2, Ha1, !(assoc_L (++)).
    repeat split; [done..|]. by apply Forall_app.
  - congruence.
  - lia.
  - by rewrite Hc2, Hc1, (assoc_L (++)).
Qed.

Lemma extends_mono (P P' : CodeIssue.t → Prop) n c a w a' w' :
  (∀ i, P i → P' i) → extends P n c a w a' w' → extends P' n c a w a' w'.
Proof.
  intros HPP ((new & ? & ? & HP) & ?). split; [|done].
  exists new. repeat split; [done..|]. eapply Forall_impl; eauto.
Qed.

Lemma issue_row_fields new_id d row :
  issue_row new_id d = Some row →
  CodeIssue.reviewId row = d_reviewId d ∧ CodeIssue.filePath row = d_filePath d.
Proof.
  unfold issue_row. intros H.
  repeat (apply bind_Some in H as (? & _ & H)). by simplify_eq.
Qed.

Lemma save_issue_ensures review file code a issue w :
  ensures (save_issue env review file code a issue) w
    (λ o w', ∃ a', o = Ok a' ∧ extends (saved_for review file) 0 [] a w a' w').
Proof.
  unfold save_issue. apply ensures_try_catch, ensures_bind.
  unfold codeIssue_create. apply ensures_round_trip.
  - intros _. apply ensures_ret. exists a. split; [done|]. by apply extends_same.
  - intros _. destruct (issue_row _ _) as [row|] eqn:Hrow.
    + apply ensures_ret. eexists. split; [done|].
      apply issue_row_fields in Hrow as [Hrid Hpath]. repeat split; simpl.
      * exists [row]. repeat split; [done..|]. by apply Forall_singleton.
      * lia.
      * by rewrite app_nil_r.
    + apply ensures_ret. exists a. split; [done|]. by apply extends_same.
Qed.

Lemma save_issues_ensures review file code issues a w :
  ensures (for_of issues (save_issue env review file code) a) w
    (λ o w', ∃ a', o = Ok a' ∧ extends (saved_for review file) 0 [] a w a' w').
Proof.
  eapply ensures_mono.
  - apply (ensures_for_of issues _
             (λ _ a' w', extends (saved_for review file) 0 [] a w a' w')).
    + apply extends_refl.
    + intros _ x a1 w1 H1. eapply ensures_mono; [apply save_issue_ensures|].
      intros o w2 (a2 & -> & H2). exists a2. split; [done|].
      apply (extends_trans _ 0 0 [] [] _ _ _ _ _ _ H1 H2).
  - done.
Qed.

Lemma analyze_file_skips review standards a file w :
  survives file = false →
  analyze_file env review standards a file w = (Ok a, w).
Proof.
  unfold survives, analyze_file. intros H.
  destruct (deleted file); [done|].
  destruct (supportedExtensions !! _) as [language|]; [|done].
  rewrite bool_decide_eq_true_2 in H by eauto. simpl in H.
  apply negb_false_iff in H. by rewrite H.
Qed.

Lemma analyze_file_ensures review standards a file w :
  ensures (analyze_file env review standards a file) w
    (λ o w', ∃ a', o = Ok a' ∧
       extends (λ i, saved_for review file i ∧ survives file = true)
         (if survives file then 1 else 0)
         (if survives file then [call_for standards file] else []) a w a' w').
Proof.
  destruct (survives file) eqn:Hs.
  - unfold ensures. revert Hs. unfold survives, analyze_file, call_for.
    destruct (deleted file) eqn:Hdel; [done|].
    destruct (supportedExtensions !! _) as [language|] eqn:Hext;
      [|by rewrite bool_decide_eq_false_2 by (by intros [])].
    rewrite bool_decide_eq_true_2 by eauto. simpl. intros Hlen.
    apply negb_true_iff in Hlen. rewrite Hlen.
    apply ensures_try_catch. apply ensures_bind.
    unfold ensures at 1, aiService_analyzeCode.
    destruct (ai_generate env _ _) as [[response tokens]|e]; simpl.
    + destruct (LLMService.parseAnalysisResponse _ _) as [r|e]; simpl.
      * eapply ensures_mono; [apply save_issues_ensures|].
        intros o w' (a' & -> & ((new & Hd & Ha & HP) & Hr & Hn & Hc)).
        exists a'. split; [done|].
        repeat split; [|done|simpl in *; lia|simpl in Hc; by rewrite Hc, app_nil_r].
        exists new. repeat split; [done..|].
        eapply Forall_impl; [exact HP|]. by intros i Hi.
      * apply ensures_ret. eexists. split; [done|]. repeat split; simpl; [|lia].
        exists []. by rewrite !app_nil_r.
    + apply ensures_ret. eexists. split; [done|]. repeat split; simpl; [|lia].
      exists []. by rewrite !app_nil_r.
  - unfold ensures. rewrite analyze_file_skips by done. simpl.
    exists a. split; [done|]. apply extends_refl.
Qed.

Lemma analyze_files_ensures review standards files a w :
  ensures (for_of files (analyze_file env review standards) a) w
    (λ o w', ∃ a', o = Ok a' ∧
       extends (saved_in review files)
         (length (filter (λ f, survives f = true) files))
         (call_for standards <$> filter (λ f, survives f = true) files) a w a' w').
Proof.
  eapply ensures_mono.
  - apply (ensures_for_of files _
      (λ done a' w', extends (saved_in review done)
         (length (filter (λ f, survives f = true) done))
         (call_for standards <$> filter (λ f, survives f = true) done) a w a' w')).
    + apply extends_refl.
    + intros done x a1 w1 H1. eapply ensures_mono; [apply analyze_file_ensures|].
      intros o w2 (a2 & -> & H2). exists a2. split; [done|].
      rewrite filter_app, length_app, fmap_app.
      eapply extends_trans.
      * eapply extends_mono; [|exact H1].
        intros i (? & f & ? & ? & ?). split; [done|]. exists f.
        split; [|done]. apply elem_of_app. by left.
      * rewrite filter_cons, filter_nil.
        destruct (survives x) eqn:Hx.
        -- rewrite decide_True by done. simpl.
           eapply extends_mono; [|exact H2].
           intros i [[? ?] ?]. split; [done|]. exists x. split; [|done].
           apply elem_of_app. right. by apply list_elem_of_singleton.
        -- rewrite decide_False by done. simpl.
           eapply extends_mono; [|exact H2]. by intros i [_ ?].
  - done.
Qed.

End Loop.

Section Conclude.
Variable env : Env.

Lemma severities_of_keys review d :
  CodeIssue.severity <$> issues_of review d
  = (filter (λ p, p.1 = review) (keys d)).*2.
Proof.
  unfold issues_of, keys. induction (codeIssue d) as [|i xs IH]; [done|].
  rewrite fmap_cons, !filter_cons. cbn [fst].
  destruct (decide (CodeIssue.reviewId i = review)); csimpl; by rewrite IH.
Qed.

Lemma count_rows_severities s xs :
  count_rows s xs = length (filter (λ x, x = s) (CodeIssue.severity <$> xs)).
Proof.
  unfold count_rows. induction xs as [|i xs IH]; [done|].
  rewrite fmap_cons, !filter_cons.
  destruct (decide (CodeIssue.severity i = s)); csimpl; by rewrite IH.
Qed.

Lemma count_rows_total xs :
  length xs = (count_rows CRITICAL xs + count_rows MAJOR xs
               + count_rows MINOR xs + count_rows INFO xs)%nat.
Proof.
  unfold count_rows. induction xs as [|i xs IH]; [done|].
  rewrite !filter_cons. simpl.
  destruct (CodeIssue.severity i); repeat case_decide; simplify_eq; simpl; lia.
Qed.

Lemma codeIssue_update_effort_ensures id v w :
  ensures (codeIssue_update_effort (db_fault env) id v) w (λ _ w', quiet w w').
Proof.
  unfold codeIssue_update_effort. apply ensures_round_trip; [done|]. intros _.
  destruct (as_float v) as [e|]; [|done]. case_bool_decide; [|done].
  split; [|done]. unfold keys. simpl. rewrite <- list_fmap_compose.
  apply list_fmap_ext. intros _ i _. simpl. by case_bool_decide.
Qed.

Lemma apply_effort_ensures xs u item w :
  ensures (apply_effort env xs u item) w (λ _ w', quiet w w').
Proof.
  unfold apply_effort. apply ensures_bind, ensures_lift.
  destruct (get item "issue") as [name|e]; [|done].
  destruct (find_by_title name xs) as [issue|]; [|done].
  apply ensures_bind, ensures_lift.
  destruct (get item "effort") as [[v|]|e]; [|done..].
  destruct (truthy v); [|done]. apply codeIssue_update_effort_ensures.
Qed.

Lemma quiet_trans w w1 w2 : quiet w w1 → quiet w1 w2 → quiet w w2.
Proof. unfold quiet. intros [? ?] [? ?]. split; congruence. Qed.

Lemma estimate_ensures xs w :
  ensures (estimateEffort_or_default env xs) w (λ _ w', quiet w w').
Proof.
  unfold estimateEffort_or_default. destruct (0 <? length xs)%nat; [|done].
  apply ensures_try_catch. eapply ensures_mono with (Q := λ _ w', quiet w w').
  - unfold estimate. apply ensures_bind, ensures_lift.
    destruct (ai_estimateEffort env xs) as [effortEstimate|e]; [|done].
    apply ensures_bind, ensures_lift.
    destruct (get effortEstimate "totalEffort") as [total|e]; [|done].
    apply ensures_bind, ensures_lift.
    destruct (get effortEstimate "breakdown") as [breakdown|e]; [|done].
    apply ensures_bind.
    eapply ensures_mono with (Q := λ _ w', quiet w w').
    + destruct (truthy_opt breakdown && isArray breakdown); [|done].
      apply ensures_for_of_world; [done|].
      intros item u w1 H1. eapply ensures_mono; [apply apply_effort_ensures|].
      intros o w2 H2. by eapply quiet_trans.
    + by intros [[]|e] w1 H1.
  - by intros [v|e] w1 H1.
Qed.

Lemma update_row_Some id f rows r rows' :
  (∀ r0, CodeReview.id (f r0) = CodeReview.id r0) →
  update_row id f rows = Some (r, rows') →
  CodeReview.id r = id ∧
  head (filter (λ x, CodeReview.id x = id) rows') = Some r ∧
  ∃ r0, r0 ∈ rows ∧ r = f r0.
Proof.
  intros Hid. revert r rows'. induction rows as [|x rows IH]; intros r rows' H; [done|].
  simpl in H. case_bool_decide as Hx.
  - simplify_eq. rewrite filter_cons_True by by rewrite Hid.
    repeat split; [by rewrite Hid|]. exists x. split; [left|done].
  - apply bind_Some in H as ([r1 rest1] & Hup & H). simplify_eq.
    destruct (IH _ _ Hup) as (? & ? & r0 & ? & ?).
    rewrite filter_cons_False by done. repeat split; [done..|].
    exists r0. split; [by right|done].
Qed.

Lemma conclude_ensures startTime review a no_files w :
  CodeIssue.severity <$> issues_of (CodeReview.id review) (db w)
    = CodeIssue.severity <$> allIssues a →
  ensures (conclude env startTime review a no_files) w
    (λ o w', match o with
             | Ok r => review_row (CodeReview.id r) (db w') = Some r ∧
                       CodeReview.status r = COMPLETED ∧
                       CodeReview.id r = CodeReview.id review ∧
                       counts_match r (db w')
             | Throw _ => True
             end).
Proof.
  intros Hsev. unfold conclude. destruct (filesAnalyzed a =? 0)%nat.
  { apply ensures_bind. unfold ensures.
    by destruct (codeReview_update _ _ _ w) as [[?|?] ?]. }
  apply ensures_bind. eapply ensures_mono; [apply estimate_ensures|].
  intros [estimatedEffort|e] w1 [Hk Hr]; [|done].
  apply ensures_bind. unfold ensures at 1. simpl.
  destruct (as_float estimatedEffort) as [effort|]; [|done].
  unfold codeReview_update. apply ensures_round_trip; [done|]. intros _. simpl.
  destruct (update_row _ _ _) as [[r rows]|] eqn:Hup; [|done].
  apply update_row_Some in Hup as (Hid & Hhead & r0 & _ & Hr0); [|done].
  assert (CodeIssue.severity <$> issues_of (CodeReview.id review) (db w1)
          = CodeIssue.severity <$> allIssues a) as Hsev1.
  { by rewrite severities_of_keys, Hk, <- severities_of_keys. }
  repeat split; simpl.
  - unfold review_row. simpl. by rewrite Hid.
  - by subst r.
  - done.
  - rewrite Hid. subst r. simpl. unfold issues_of. simpl.
    fold (issues_of (CodeReview.id review) (db w1)).
    by rewrite !count_rows_severities, Hsev1.
  - rewrite Hid. subst r. simpl. unfold issues_of. simpl.
    fold (issues_of (CodeReview.id review) (db w1)).
    by rewrite !count_rows_severities, Hsev1.
  - rewrite Hid. subst r. simpl. unfold issues_of. simpl.
    fold (issues_of (CodeReview.id review) (db w1)).
    by rewrite !count_rows_severities, Hsev1.
  - rewrite Hid. subst r. simpl. unfold issues_of. simpl.
    fold (issues_of (CodeReview.id review) (db w1)).
    rewrite <- (length_fmap CodeIssue.severity (issues_of _ _)), Hsev1.
    by rewrite length_fmap.
  - rewrite Hid. subst r. simpl. unfold issues_of. simpl.
    fold (issues_of (CodeReview.id review) (db w1)).
    rewrite (count_rows_severities INFO (issues_of _ _)), Hsev1.
    rewrite <- count_rows_severities. apply count_rows_total.
Qed.

End Conclude.

Section Runs.
Variable env : Env.

Lemma codeReview_create_ensures userId repositoryPath branch commitHash status w :
  ensures (codeReview_create (db_fault env) userId repositoryPath branch commitHash status) w
    (λ o w', ai_calls w' = ai_calls w ∧
             match o with
             | Ok review =>
                 CodeReview.id review = next_id (db w) ∧
                 CodeReview.status review = status ∧
                 codeIssue (db w') = codeIssue (db w) ∧
                 codeReview (db w') = review :: codeReview (db w)
             | Throw _ => db w' = db w
             end).
Proof. unfold codeReview_create. by apply ensures_round_trip. Qed.

Lemma getActiveStandards_ensures w :
  ensures (getActiveStandards env) w (λ _ w', db w' = db w ∧ ai_calls w' = ai_calls w).
Proof.
  unfold getActiveStandards, codingStandard_findMany_active.
  apply ensures_round_trip; [done|]. intros _. split; [|done]. by destruct w as [[] ? ? ?].
Qed.

Lemma issues_of_fresh d :
  fresh_ids d → issues_of (next_id d) d = [].
Proof.
  intros (_ & _ & Hi). unfold issues_of.
  induction Hi as [|i xs Hlt _ IH]; [done|].
  rewrite filter_cons_False by lia. done.
Qed.

Lemma analysis_ensures startTime review standards parsedDiff no_files w :
  issues_of (CodeReview.id review) (db w) = [] →
  ensures (a ← for_of parsedDiff (analyze_file env review standards) acc_init;
        conclude env startTime review a no_files) w completed.
Proof.
  intros Hnone. apply ensures_bind.
  eapply ensures_mono; [apply analyze_files_ensures|].
  intros o w1 (a & -> & (new & Hd & Ha & Hnew) & _).
  eapply ensures_mono; [apply conclude_ensures|].
  - unfold issues_of in *. rewrite Hd, filter_app, Hnone, Ha. simpl. f_equal.
    clear Hd Ha. induction Hnew as [|i xs [Hi _] _ IH]; [done|].
    by rewrite filter_cons_True, IH.
  - intros [r|e] w2; [|done]. simpl. tauto.
Qed.

Lemma analyzeStagedChanges_try_ensures startTime repositoryPath userId w :
  fresh_ids (db w) →
  ensures (analyzeStagedChanges_try env startTime repositoryPath userId) w completed.
Proof.
  intros Hfresh. unfold analyzeStagedChanges_try.
  apply ensures_bind, ensures_lift.
  destruct (git_status env repositoryPath) as [status|e]; [|done].
  destruct (_ && _); [done|].
  apply ensures_bind, ensures_lift.
  destruct (git_branchLocal env repositoryPath) as [currentBranch|e]; [|done].
  apply ensures_bind. eapply ensures_mono; [apply codeReview_create_ensures|].
  intros [review|e] w1 [_ H1]; [|done]. destruct H1 as (Hid & _ & Hi & _).
  apply ensures_bind, ensures_lift.
  destruct (if (0 <? _)%nat then _ else _) as [diff|e]; [|done].
  destruct (blank diff); [done|].
  destruct (length (parseDiff env diff) =? 0)%nat; [done|].
  apply ensures_bind. eapply ensures_mono; [apply getActiveStandards_ensures|].
  intros [standards|e] w2 [Hdb _]; [|done].
  apply analysis_ensures. rewrite Hdb. unfold issues_of. rewrite Hi, Hid.
  by apply issues_of_fresh.
Qed.

Lemma analyzeCommit_try_ensures startTime repositoryPath commitHash userId w :
  fresh_ids (db w) →
  ensures (analyzeCommit_try env startTime repositoryPath commitHash userId) w completed.
Proof.
  intros Hfresh. unfold analyzeCommit_try.
  apply ensures_bind, ensures_try_catch, ensures_lift.
  destruct (git_show env repositoryPath [commitHash; _]) as [shown|e]; [|done].
  apply ensures_bind, ensures_lift.
  destruct (git_branchLocal env repositoryPath) as [currentBranch|e]; [|done].
  apply ensures_bind. eapply ensures_mono; [apply codeReview_create_ensures|].
  intros [review|e] w1 [_ H1]; [|done]. destruct H1 as (Hid & _ & Hi & _).
  apply ensures_bind, ensures_lift.
  destruct (git_show env repositoryPath [commitHash; _]) as [diff|e]; [|done].
  destruct (blank diff); [done|].
  destruct (length (parseDiff env diff) =? 0)%nat; [done|].
  apply ensures_bind. eapply ensures_mono; [apply getActiveStandards_ensures|].
  intros [standards|e] w2 [Hdb _]; [|done].
  apply analysis_ensures. rewrite Hdb. unfold issues_of. rewrite Hi, Hid.
  by apply issues_of_fresh.
Qed.

(** C1. A review that either analysis returns has been transitioned to
    COMPLETED, and its criticalIssues, majorIssues and minorIssues are
    the numbers of issues persisted for it with severity CRITICAL, MAJOR
    and MINOR; issuesFound is the number of all its persisted issues, so
    an INFO issue is found and is in none of the three counters. *)
Theorem completed_review_counts_match_persisted_issues repositoryPath commitHash userId w r w' :
  fresh_ids (db w) →
  analyzeStagedChanges env repositoryPath userId w = (Ok r, w') ∨
  analyzeCommit env repositoryPath commitHash userId w = (Ok r, w') →
  review_row (CodeReview.id r) (db w') = Some r ∧
  CodeReview.status r = COMPLETED ∧
  counts_match r (db w').
Proof.
  intros Hfresh [Hrun|Hrun].
  - revert Hrun. unfold analyzeStagedChanges, Date_now_read, mbind, M_bind, lift.
    destruct (git_open env repositoryPath) as [[]|e]; [|done].
    unfold try_catch.
    pose proof (analyzeStagedChanges_try_ensures (Date_now env (clock_reads w))
                  repositoryPath userId (tick_clock w) Hfresh) as Hpost.
    unfold ensures in Hpost.
    destruct (analyzeStagedChanges_try _ _ _ _ _) as [[r1|e] w1].
    + intros ?; simplify_eq. exact Hpost.
    + by destruct (mark_latest_failed _ _ _ _) as [[[]|?] ?].
  - revert Hrun. unfold analyzeCommit, Date_now_read, mbind, M_bind, lift.
    destruct (git_open env repositoryPath) as [[]|e]; [|done].
    unfold try_catch.
    pose proof (analyzeCommit_try_ensures (Date_now env (clock_reads w))
                  repositoryPath commitHash userId (tick_clock w) Hfresh) as Hpost.
    unfold ensures in Hpost.
    destruct (analyzeCommit_try _ _ _ _ _ _) as [[r1|e] w1].
    + intros ?; simplify_eq. exact Hpost.
    + done.
Qed.

End Runs.

Lemma completed_review_counts_match_persisted_issues_witness :
  ∃ r w', analyzeStagedChanges Samples.env Samples.app 1 Samples.world = (Ok r, w') ∧
          CodeReview.status r = COMPLETED ∧ counts_match r (db w') ∧
          CodeReview.issuesFound r = 2%nat ∧ CodeReview.minorIssues r = 1%nat.
Proof.
  pose proof (completed_review_counts_match_persisted_issues
                Samples.env Samples.app [] 1 Samples.world) as H.
  destruct (analyzeStagedChanges Samples.env Samples.app 1 Samples.world)
    as [[r|e] w'] eqn:Hrun.
  2: { vm_compute in Hrun. discriminate Hrun. }
  exists r, w'. destruct (H r w') as (_ & Hstatus & Hcounts).
  - split; [|split; constructor]. intros k [x Hk].
    unfold Samples.world in *. cbn [db codingStandard next_id] in *.
    apply lookup_singleton_Some in Hk as [<- _]. lia.
  - left. reflexivity.
  - split; [reflexivity|]. split; [exact Hstatus|]. split; [exact Hcounts|].
    vm_compute in Hrun. injection Hrun as <- <-. split; reflexivity.
Defined.

Section Freshness.
Variable env : Env.

Lemma fresh_ids_same w w' : db w' = db w → fresh_ids (db w) → fresh_ids (db w').
Proof. by intros ->. Qed.

Lemma fresh_ids_bump (d : DB) :
  fresh_ids d → fresh_ids (bump_id d).
Proof.
  intros (Hs & Hr & Hi). repeat split; simpl.
  - intros k Hk. specialize (Hs k Hk). lia.
  - eapply Forall_impl; [exact Hr|]. intros r ?. simpl in *. lia.
  - eapply Forall_impl; [exact Hi|]. intros i ?. simpl in *. lia.
Qed.

Lemma codeReview_create_fresh userId repositoryPath branch commitHash status w :
  fresh_ids (db w) →
  ensures (codeReview_create (db_fault env) userId repositoryPath branch commitHash status) w
    (λ o w', fresh_ids (db w') ∧
             match o with
             | Ok review => (S (CodeReview.id review) ≤ next_id (db w'))%nat
             | Throw _ => True
             end).
Proof.
  intros Hf. unfold codeReview_create. apply ensures_round_trip; [done|].
  intros _. simpl. split; [|lia]. destruct Hf as (Hs & Hr & Hi).
  repeat split; simpl.
  - intros k Hk. specialize (Hs k Hk). lia.
  - constructor; [simpl; lia|]. eapply Forall_impl; [exact Hr|]. intros r ?. simpl in *. lia.
  - eapply Forall_impl; [exact Hi|]. intros i ?. simpl in *. lia.
Qed.

Lemma update_row_ids id f rows r rows' :
  (∀ r0, CodeReview.id (f r0) = CodeReview.id r0) →
  update_row id f rows = Some (r, rows') →
  CodeReview.id <$> rows' = CodeReview.id <$> rows.
Proof.
  intros Hid. revert r rows'. induction rows as [|x rows IH]; intros r rows' H; [done|].
  simpl in H. case_bool_decide.
  - simplify_eq. csimpl. by rewrite Hid.
  - apply bind_Some in H as ([r1 rest1] & Hup & H). simplify_eq.
    csimpl. f_equal. by eapply IH.
Qed.

Lemma fresh_ids_reviews d rows :
  CodeReview.id <$> rows = CodeReview.id <$> codeReview d →
  fresh_ids d → fresh_ids (with_reviews rows d).
Proof.
  intros Hids (Hs & Hr & Hi). repeat split; [done| |done]. simpl.
  apply Forall_forall. intros r Hin.
  assert (CodeReview.id r ∈ CodeReview.id <$> codeReview d) as Hid.
  { rewrite <- Hids. apply list_elem_of_fmap. by exists r. }
  apply list_elem_of_fmap in Hid as (r0 & -> & Hin0).
  by apply (proj1 (Forall_forall _ _) Hr).
Qed.

Lemma codeReview_update_fresh n id f w :
  (∀ r0, CodeReview.id (f r0) = CodeReview.id r0) →
  fresh_from n w →
  ensures (codeReview_update (db_fault env) id f) w (λ _ w', fresh_from n w').
Proof.
  intros Hid [Hf Hlt]. unfold codeReview_update. apply ensures_round_trip; [done|].
  intros _. destruct (update_row _ _ _) as [[r rows]|] eqn:Hup; [|done].
  split; [|done]. simpl. apply fresh_ids_reviews; [|done]. by eapply update_row_ids.
Qed.

Lemma codeIssue_create_fresh n data w :
  (S (d_reviewId data) ≤ n)%nat →
  fresh_from n w →
  ensures (codeIssue_create (db_fault env) data) w (λ _ w', fresh_from n w').
Proof.
  intros Hdata [Hf Hlt]. unfold codeIssue_create. apply ensures_round_trip; [done|].
  intros _. destruct (issue_row _ _) as [row|] eqn:Hrow; [|done].
  split; [|simpl; lia]. destruct Hf as (Hs & Hr & Hi). repeat split; simpl.
  - intros k Hk. specialize (Hs k Hk). lia.
  - eapply Forall_impl; [exact Hr|]. intros r ?. simpl in *. lia.
  - apply Forall_app. split.
    + eapply Forall_impl; [exact Hi|]. intros i ?. simpl in *. lia.
    + apply Forall_singleton. unfold issue_row in Hrow.
      repeat (apply bind_Some in Hrow as (? & _ & Hrow)). simplify_eq. simpl. lia.
Qed.

Lemma codeIssue_update_effort_fresh n id v w :
  fresh_from n w →
  ensures (codeIssue_update_effort (db_fault env) id v) w (λ _ w', fresh_from n w').
Proof.
  intros [Hf Hlt]. unfold codeIssue_update_effort. apply ensures_round_trip; [done|].
  intros _. destruct (as_float v) as [e|]; [|done]. case_bool_decide; [|done].
  split; [|done]. destruct Hf as (Hs & Hr & Hi). repeat split; [done..|]. simpl.
  apply Forall_fmap. eapply Forall_impl; [exact Hi|]. intros i ?. simpl.
  by case_bool_decide.
Qed.

Lemma analyze_file_fresh review standards a file w :
  fresh_from (S (CodeReview.id review)) w →
  ensures (analyze_file env review standards a file) w
    (λ _ w', fresh_from (S (CodeReview.id review)) w').
Proof.
  intros Hf. unfold analyze_file. destruct (deleted file); [done|].
  destruct (supportedExtensions !! _) as [language|]; [|done].
  destruct (_ || _); [done|].
  apply ensures_try_catch, ensures_bind.
  unfold ensures at 1, aiService_analyzeCode.
  destruct (ai_generate env _ _) as [[response tokens]|e]; simpl; [|done].
  destruct (LLMService.parseAnalysisResponse _ _) as [r|e]; simpl; [|done].
  eapply ensures_mono.
  - apply (ensures_for_of_world _ _ (fresh_from (S (CodeReview.id review)))); [done|].
    intros issue a1 w1 H1. unfold save_issue. apply ensures_try_catch, ensures_bind.
    eapply ensures_mono; [by apply codeIssue_create_fresh|].
    by intros [i|e] w2 H2.
  - by intros [a2|e] w2 H2.
Qed.

Lemma conclude_fresh startTime review a no_files w :
  fresh_from (S (CodeReview.id review)) w →
  ensures (conclude env startTime review a no_files) w
    (λ _ w', fresh_from (S (CodeReview.id review)) w').
Proof.
  intros Hf. unfold conclude. destruct (filesAnalyzed a =? 0)%nat.
  { apply ensures_bind. eapply ensures_mono; [by apply codeReview_update_fresh|].
    by intros [r|e] w1 H1. }
  apply ensures_bind.
  eapply ensures_mono with (Q := λ _ w', fresh_from (S (CodeReview.id review)) w').
  - unfold estimateEffort_or_default. destruct (0 <? _)%nat; [|done].
    apply ensures_try_catch.
    eapply ensures_mono with (Q := λ _ w', fresh_from (S (CodeReview.id review)) w').
    + unfold estimate. apply ensures_bind, ensures_lift.
      destruct (ai_estimateEffort env _) as [effortEstimate|e]; [|done].
      apply ensures_bind, ensures_lift.
      destruct (get effortEstimate "totalEffort") as [total|e]; [|done].
      apply ensures_bind, ensures_lift.
      destruct (get effortEstimate "breakdown") as [breakdown|e]; [|done].
      apply ensures_bind.
      eapply ensures_mono with (Q := λ _ w', fresh_from (S (CodeReview.id review)) w').
      * destruct (truthy_opt breakdown && isArray breakdown); [|done].
        apply ensures_for_of_world; [done|]. intros item u w1 H1.
        unfold apply_effort. apply ensures_bind, ensures_lift.
        destruct (get item "issue") as [name|e]; [|done].
        destruct (find_by_title name _) as [issue|]; [|done].
        apply ensures_bind, ensures_lift.
        destruct (get item "effort") as [[v|]|e]; [|done..].
        destruct (truthy v); [|done]. by apply codeIssue_update_effort_fresh.
      * by intros [[]|e] w1 H1.
    + by intros [v|e] w1 H1.
  - intros [estimatedEffort|e] w1 H1; [|done].
    apply ensures_bind. unfold ensures at 1. simpl.
    destruct (as_float estimatedEffort) as [effort|]; [|done].
    by apply codeReview_update_fresh.
Qed.

Lemma mark_latest_failed_fresh n repositoryPath userId w :
  fresh_from n w →
  ensures (mark_latest_failed env repositoryPath userId) w (λ _ w', fresh_from n w').
Proof.
  intros Hf. unfold mark_latest_failed. apply ensures_try_catch, ensures_bind.
  unfold codeReview_findFirst. apply ensures_round_trip; [done|].
  intros _. cbn beta iota.
  assert (fresh_from n (with_db (db w) (tick_db w))) as Hf1 by done.
  destruct (head _) as [r|]; [|done]. case_bool_decide; [|done].
  apply ensures_bind.
  eapply ensures_mono; [by apply codeReview_update_fresh|].
  by intros [r1|e] w1 H1.
Qed.

Lemma analysis_fresh startTime review standards parsedDiff no_files w :
  fresh_from (S (CodeReview.id review)) w →
  ensures (a ← for_of parsedDiff (analyze_file env review standards) acc_init;
           conclude env startTime review a no_files) w
    (λ _ w', fresh_ids (db w')).
Proof.
  intros Hf. apply ensures_bind.
  eapply ensures_mono with (Q := λ _ w', fresh_from (S (CodeReview.id review)) w').
  - apply ensures_for_of_world; [done|]. intros file a w1 H1.
    by apply analyze_file_fresh.
  - intros [a|e] w1 H1; [|by destruct H1].
    eapply ensures_mono; [by apply conclude_fresh|]. by intros o w2 [H2 _].
Qed.

Lemma getActiveStandards_fresh n w :
  fresh_from n w → ensures (getActiveStandards env) w (λ _ w', fresh_from n w').
Proof.
  intros Hf. unfold getActiveStandards, codingStandard_findMany_active.
  by apply ensures_round_trip.
Qed.

Lemma analyzeStagedChanges_try_fresh startTime repositoryPath userId w :
  fresh_ids (db w) →
  ensures (analyzeStagedChanges_try env startTime repositoryPath userId) w
    (λ _ w', fresh_ids (db w')).
Proof.
  intros Hf. unfold analyzeStagedChanges_try.
  apply ensures_bind, ensures_lift.
  destruct (git_status env repositoryPath) as [status|e]; [|done].
  destruct (_ && _); [done|].
  apply ensures_bind, ensures_lift.
  destruct (git_branchLocal env repositoryPath) as [currentBranch|e]; [|done].
  apply ensures_bind. eapply ensures_mono; [by apply codeReview_create_fresh|].
  intros [review|e] w1 [Hf1 Hlt]; [|done].
  apply ensures_bind, ensures_lift.
  destruct (if (0 <? _)%nat then _ else _) as [diff|e]; [|done].
  destruct (blank diff); [done|].
  destruct (length (parseDiff env diff) =? 0)%nat; [done|].
  apply ensures_bind.
  eapply ensures_mono; [by apply (getActiveStandards_fresh (S (CodeReview.id review)))|].
  intros [standards|e] w2 H2; [|by destruct H2].
  by apply analysis_fresh.
Qed.

Lemma analyzeCommit_try_fresh startTime repositoryPath commitHash userId w :
  fresh_ids (db w) →
  ensures (analyzeCommit_try env startTime repositoryPath commitHash userId) w
    (λ _ w', fresh_ids (db w')).
Proof.
  intros Hf. unfold analyzeCommit_try.
  apply ensures_bind, ensures_try_catch, ensures_lift.
  destruct (git_show env repositoryPath [commitHash; _]) as [shown|e]; [|done].
  apply ensures_bind, ensures_lift.
  destruct (git_branchLocal env repositoryPath) as [currentBranch|e]; [|done].
  apply ensures_bind. eapply ensures_mono; [by apply codeReview_create_fresh|].
  intros [review|e] w1 [Hf1 Hlt]; [|done].
  apply ensures_bind, ensures_lift.
  destruct (git_show env repositoryPath [commitHash; _]) as [diff|e]; [|done].
  destruct (blank diff); [done|].
  destruct (length (parseDiff env diff) =? 0)%nat; [done|].
  apply ensures_bind.
  eapply ensures_mono; [by apply (getActiveStandards_fresh (S (CodeReview.id review)))|].
  intros [standards|e] w2 H2; [|by destruct H2].
  by apply analysis_fresh.
Qed.

(** Freshness of the identifiers is an invariant of the two analyses:
    it holds of the empty database and every run preserves it. *)
Lemma analyses_keep_ids_fresh repositoryPath commitHash userId w :
  fresh_ids (db w) →
  fresh_ids (db (analyzeStagedChanges env repositoryPath userId w).2) ∧
  fresh_ids (db (analyzeCommit env repositoryPath commitHash userId w).2).
Proof.
  intros Hf. split.
  - unfold analyzeStagedChanges, Date_now_read, mbind, M_bind, lift.
    destruct (git_open env repositoryPath) as [[]|e]; [|done].
    unfold try_catch.
    pose proof (analyzeStagedChanges_try_fresh (Date_now env (clock_reads w))
                  repositoryPath userId (tick_clock w) Hf) as H1.
    unfold ensures in H1.
    destruct (analyzeStagedChanges_try _ _ _ _ _) as [[r1|e] w1]; [done|].
    simpl in H1.
    pose proof (mark_latest_failed_fresh 0 repositoryPath userId w1) as H2.
    unfold ensures in H2.
    destruct (mark_latest_failed _ _ _ _) as [[[]|e2] w2]; simpl in *;
      apply H2; (split; [done|lia]).
  - unfold analyzeCommit, Date_now_read, mbind, M_bind, lift.
    destruct (git_open env repositoryPath) as [[]|e]; [|done].
    unfold try_catch.
    pose proof (analyzeCommit_try_fresh (Date_now env (clock_reads w))
                  repositoryPath commitHash userId (tick_clock w) Hf) as H1.
    unfold ensures in H1.
    by destruct (analyzeCommit_try _ _ _ _ _ _) as [[r1|e] w1].
Qed.

End Freshness.

Section Skipping.
Variable env : Env.

Lemma for_of_app {A S} (xs ys : list A) (body : S → A → M S) s w :
  for_of (xs ++ ys) body s w
  = (s' ← for_of xs body s; for_of ys body s') w.
Proof.
  revert s w. induction xs as [|x xs IH]; intros s w; [done|].
  simpl. unfold mbind, M_bind in *. destruct (body s x w) as [[s1|e] w1]; [|done].
  apply IH.
Qed.

Lemma for_of_skip review standards before file after a w :
  survives file = false →
  for_of (before ++ file :: after) (analyze_file env review standards) a w
  = for_of (before ++ after) (analyze_file env review standards) a w.
Proof.
  intros Hs. rewrite !for_of_app. unfold mbind, M_bind.
  destruct (for_of before _ a w) as [[a1|e] w1]; [|done].
  simpl. unfold mbind, M_bind. by rewrite analyze_file_skips.
Qed.

Lemma skipped_not_survives file :
  deleted file = true ∨ supportedExtensions !! Path.extname (to file) = None →
  survives file = false.
Proof.
  unfold survives. intros [->| ->]; [done|].
  rewrite bool_decide_eq_false_2 by (by intros []). by rewrite andb_false_r.
Qed.

Lemma survives_not_skipped file :
  survives file = true →
  deleted file = false ∧ is_Some (supportedExtensions !! Path.extname (to file)).
Proof.
  unfold survives. intros [[Hd He%bool_decide_eq_true]%andb_true_iff _]%andb_true_iff.
  by apply negb_true_iff in Hd.
Qed.

(** C7. A diff entry that is marked deleted, or whose extension is not
    in the table, is skipped: its turn of the loop changes neither the
    loop's variables (filesAnalyzed among them) nor the world (no call to
    the AI service, no issue saved), and the loop over the whole diff
    counts, analyses and saves issues for the other entries only. *)
Theorem skipped_file_leaves_no_trace review standards before file after a w :
  deleted file = true ∨ supportedExtensions !! Path.extname (to file) = None →
  (∀ a0 w0, analyze_file env review standards a0 file w0 = (Ok a0, w0)) ∧
  ∃ a' w',
    for_of (before ++ file :: after) (analyze_file env review standards) a w = (Ok a', w') ∧
    for_of (before ++ after) (analyze_file env review standards) a w = (Ok a', w') ∧
    filesAnalyzed a' = (filesAnalyzed a
      + length (filter (λ f, survives f = true) (before ++ after)))%nat ∧
    ai_calls w' = ai_calls w
      ++ (call_for standards <$> filter (λ f, survives f = true) (before ++ after)) ∧
    ∃ new, codeIssue (db w') = codeIssue (db w) ++ new ∧
           Forall (λ i, ∃ other, other ∈ before ++ after ∧
                        deleted other = false ∧
                        is_Some (supportedExtensions !! Path.extname (to other)) ∧
                        CodeIssue.filePath i = to other) new.
Proof.
  intros Hskip%skipped_not_survives. split.
  { intros a0 w0. by apply analyze_file_skips. }
  pose proof (analyze_files_ensures env review standards (before ++ after) a w) as Hpost.
  unfold ensures in Hpost. rewrite for_of_skip by done.
  destruct (for_of (before ++ after) _ a w) as [o w']. simpl in Hpost.
  destruct Hpost as (a' & -> & (new & Hd & _ & Hnew) & _ & Hn & Hc).
  exists a', w'. repeat split; [done..|].
  exists new. split; [done|]. eapply Forall_impl; [exact Hnew|].
  intros i (_ & other & Hin & Hs & Hp). exists other.
  destruct (survives_not_skipped other Hs). done.
Qed.

End Skipping.

Lemma skipped_file_leaves_no_trace_witness :
  analyze_file Samples.env Samples.review [] acc_init Samples.file_readme Samples.world
  = (Ok acc_init, Samples.world).
Proof.
  apply (skipped_file_leaves_no_trace Samples.env Samples.review []
           [Samples.file_a] Samples.file_readme [Samples.file_gone]
           acc_init Samples.world).
  right. vm_compute. reflexivity.
Defined.

Section Recovery.
Variable env : Env.

Lemma update_row_rows id f rows r rows' :
  update_row id f rows = Some (r, rows') →
  Forall2 (λ r' r0, r' = r0 ∨ r' = f r0) rows' rows.
Proof.
  revert r rows'. induction rows as [|x rows IH]; intros r rows' H; [done|].
  simpl in H. case_bool_decide.
  - simplify_eq. constructor; [by right|]. apply Forall_Forall2_diag, Forall_forall. by left.
  - apply bind_Some in H as ([r1 rest1] & Hup & H). simplify_eq.
    constructor; [by left|]. by eapply IH.
Qed.

Lemma only_fails_same w w' : db w' = db w → ai_calls w' = ai_calls w → only_fails w w'.
Proof.
  intros Hd Hc. unfold only_fails. rewrite Hd. repeat split; [done|].
  apply Forall_Forall2_diag, Forall_forall. by left.
Qed.

Lemma mark_latest_failed_ensures repositoryPath userId w :
  ensures (mark_latest_failed env repositoryPath userId) w
    (λ o w', o = Ok () ∧ only_fails w w').
Proof.
  unfold mark_latest_failed. apply ensures_try_catch, ensures_bind.
  unfold codeReview_findFirst. apply ensures_round_trip.
  { intros _. apply ensures_ret. split; [done|]. by apply only_fails_same. }
  intros _. cbn beta iota.
  destruct (head _) as [r|]; cycle 1.
  { apply ensures_ret. split; [done|]. apply only_fails_same; [|done]. by destruct w as [[] ? ? ?]. }
  case_bool_decide; cycle 1.
  { apply ensures_ret. split; [done|]. apply only_fails_same; [|done]. by destruct w as [[] ? ? ?]. }
  apply ensures_bind. unfold codeReview_update. apply ensures_round_trip.
  { intros _. apply ensures_ret. split; [done|]. apply only_fails_same; [|done]. by destruct w as [[] ? ? ?]. }
  intros _. simpl. destruct (update_row _ _ _) as [[r1 rows]|] eqn:Hup.
  - apply ensures_ret. split; [done|]. repeat split; simpl; [done..|].
    by eapply update_row_rows.
  - apply ensures_ret. split; [done|]. apply only_fails_same; [|done]. by destruct w as [[] ? ? ?].
Qed.

(** C4. When git reports no staged and no modified file, the staged
    analysis throws the no-changes error and creates no review row: the
    review table has the rows it had, none of them newly IN_PROGRESS,
    and nothing was analysed or saved. *)
Theorem no_changes_creates_no_review repositoryPath userId w st :
  git_open env repositoryPath = Ok () →
  git_status env repositoryPath = Ok st →
  staged st = [] → modified st = [] →
  ∃ w', analyzeStagedChanges env repositoryPath userId w = (Throw no_changes, w') ∧
        CodeReview.id <$> codeReview (db w') = CodeReview.id <$> codeReview (db w) ∧
        (∀ r, r ∈ codeReview (db w') → CodeReview.status r = IN_PROGRESS →
              r ∈ codeReview (db w)) ∧
        codeIssue (db w') = codeIssue (db w) ∧
        ai_calls w' = ai_calls w.
Proof.
  intros Hopen Hst Hs Hm.
  unfold analyzeStagedChanges, Date_now_read, mbind, M_bind, lift. rewrite Hopen.
  unfold try_catch, analyzeStagedChanges_try, mbind, M_bind, lift.
  rewrite Hst, Hs, Hm. simpl. unfold throw at 1.
  pose proof (mark_latest_failed_ensures repositoryPath userId (tick_clock w)) as Hpost.
  unfold ensures in Hpost.
  destruct (mark_latest_failed _ _ _ _) as [o w']. simpl in Hpost.
  destruct Hpost as (-> & Hc & Hi & Hrows). simpl in *.
  exists w'. repeat split; [|..|done|done].
  - induction Hrows as [|r' r0 rows' rows [->| ->] _ IH]; csimpl; by f_equal.
  - intros r Hr Hstatus.
    apply list_elem_of_lookup in Hr as [k Hk].
    destruct (Forall2_lookup_l _ _ _ _ _ Hrows Hk) as (r0 & Hk0 & [->| ->]).
    + by eapply list_elem_of_lookup_2.
    + done.
Qed.

End Recovery.

Lemma no_changes_creates_no_review_witness :
  ∃ w', analyzeStagedChanges Samples.env Samples.clean 1 Samples.world
          = (Throw no_changes, w') ∧
        codeReview (db w') = [].
Proof.
  destruct (no_changes_creates_no_review Samples.env Samples.clean 1 Samples.world
              {| staged := []; modified := [] |})
    as (w' & Hrun & Hids & _); [vm_compute; reflexivity..|].
  exists w'. split; [exact Hrun|].
  destruct (codeReview (db w')); [reflexivity|discriminate Hids].
Defined.

Section Failing.
Variable env : Env.

Lemma for_of_all_skipped review standards files a w :
  Forall (λ f, survives f = false) files →
  for_of files (analyze_file env review standards) a w = (Ok a, w).
Proof.
  induction 1 as [|f files Hf _ IH]; [done|].
  simpl. unfold mbind, M_bind. by rewrite analyze_file_skips.
Qed.

Lemma length_nonzero {A} (xs : list A) : xs ≠ [] → (length xs =? 0)%nat = false.
Proof. by destruct xs. Qed.

Lemma newest_failed_only_fails id repositoryPath userId w w' :
  only_fails w w' → newest_failed id repositoryPath userId (db w) →
  newest_failed id repositoryPath userId (db w').
Proof.
  intros (_ & _ & Hrows) (row & rest & Hd & ? & ? & ? & ?). rewrite Hd in Hrows.
  inversion Hrows as [|row' ? rest' ? Hrow _ Hd']; subst.
  exists row', rest'. split; [done|]. by destruct Hrow as [->| ->].
Qed.

Lemma newest_failed_row repositoryPath userId w w' :
  newest_failed (next_id (db w)) repositoryPath userId (db w') →
  created_and_failed repositoryPath userId w w'.
Proof.
  intros (row & rest & Hd & Hid & ? & ? & ?). exists row.
  unfold review_row. rewrite Hd, filter_cons_True by done. done.
Qed.

Lemma conclude_no_files startTime review rest a no_files w :
  (∀ n, db_fault env n = false) →
  filesAnalyzed a = 0%nat →
  codeReview (db w) = review :: rest →
  ∃ w', conclude env startTime review a no_files w = (Throw no_files, w') ∧
        codeReview (db w') = CodeReview.set_status FAILED review :: rest.
Proof.
  intros Hok Hnone Hrows. unfold conclude. rewrite Hnone. cbn [Nat.eqb].
  unfold mbind, M_bind, codeReview_update, round_trip. rewrite Hok, Hrows.
  cbn. rewrite bool_decide_eq_true_2 by done. cbn. by eexists.
Qed.

Lemma staged_try_no_files startTime repositoryPath userId w files :
  (∀ n, db_fault env n = false) →
  Forall (λ f, survives f = false) files →
  staged_run_reaches env repositoryPath files →
  ∃ w', analyzeStagedChanges_try env startTime repositoryPath userId w
          = (Throw no_supported_files, w') ∧
        newest_failed (next_id (db w)) repositoryPath userId (db w').
Proof.
  intros Hok Hskip
    (Hopen & st & branch & diff & Hst & Hany & Hbr & Hdiff & Hblank & Hparse & Hne).
  unfold analyzeStagedChanges_try, mbind, M_bind, lift.
  rewrite Hst, Hany, Hbr.
  unfold codeReview_create, round_trip at 1. rewrite Hok. cbn beta iota zeta.
  rewrite Hdiff, Hblank, Hparse, (length_nonzero _ Hne).
  unfold getActiveStandards, codingStandard_findMany_active, round_trip at 1.
  rewrite Hok. cbn beta iota zeta.
  rewrite for_of_all_skipped by done.
  edestruct (conclude_no_files startTime) as (w' & -> & Hrows); [done|done|..].
  { cbn. reflexivity. }
  exists w'. split; [done|]. unfold newest_failed. rewrite Hrows. by eexists _, _.
Qed.

Lemma commit_try_no_files startTime repositoryPath commitHash userId w files :
  (∀ n, db_fault env n = false) →
  Forall (λ f, survives f = false) files →
  commit_run_reaches env repositoryPath commitHash files →
  ∃ w', analyzeCommit_try env startTime repositoryPath commitHash userId w
          = (Throw no_supported_commit_files, w') ∧
        newest_failed (next_id (db w)) repositoryPath userId (db w').
Proof.
  intros Hok Hskip
    (Hopen & shown & branch & diff & Hshown & Hbr & Hdiff & Hblank & Hparse & Hne).
  unfold analyzeCommit_try, mbind, M_bind, lift, try_catch.
  rewrite Hshown, Hbr.
  unfold codeReview_create, round_trip at 1. rewrite Hok. cbn beta iota zeta.
  rewrite Hdiff, Hblank, Hparse, (length_nonzero _ Hne).
  unfold getActiveStandards, codingStandard_findMany_active, round_trip at 1.
  rewrite Hok. cbn beta iota zeta.
  rewrite for_of_all_skipped by done.
  edestruct (conclude_no_files startTime) as (w' & -> & Hrows); [done|done|..].
  { cbn. reflexivity. }
  exists w'. split; [done|]. unfold newest_failed. rewrite Hrows. by eexists _, _.
Qed.

(** X22. When the database answers and no diff entry survives the three
    filters (deleted, unsupported extension, too little content), a run
    that gets as far as the loop, over a diff that has entries, sets the
    review row it created to FAILED and throws the no-supported-files
    error; so does the staged analysis, so does the commit analysis. *)
Theorem no_surviving_file_fails_review repositoryPath commitHash userId w files :
  (∀ n, db_fault env n = false) →
  Forall (λ f, survives f = false) files →
  (staged_run_reaches env repositoryPath files →
   ∃ w', analyzeStagedChanges env repositoryPath userId w
           = (Throw no_supported_files, w') ∧
         created_and_failed repositoryPath userId w w') ∧
  (commit_run_reaches env repositoryPath commitHash files →
   ∃ w', analyzeCommit env repositoryPath commitHash userId w
           = (Throw no_supported_commit_files, w') ∧
         created_and_failed repositoryPath userId w w').
Proof.
  intros Hok Hskip. split.
  - intros Hreach.
    unfold analyzeStagedChanges, Date_now_read, mbind, M_bind, lift.
    rewrite (proj1 Hreach). unfold try_catch.
    destruct (staged_try_no_files (Date_now env (clock_reads w)) repositoryPath
                userId (tick_clock w) files Hok Hskip Hreach) as (w1 & -> & Hrow).
    pose proof (mark_latest_failed_ensures env repositoryPath userId w1) as Hpost.
    unfold ensures in Hpost. destruct (mark_latest_failed _ _ _ _) as [o w2].
    simpl in Hpost. destruct Hpost as [-> Honly].
    exists w2. split; [done|]. apply newest_failed_row.
    by eapply newest_failed_only_fails.
  - intros Hreach.
    unfold analyzeCommit, Date_now_read, mbind, M_bind, lift.
    rewrite (proj1 Hreach). unfold try_catch.
    destruct (commit_try_no_files (Date_now env (clock_reads w)) repositoryPath
                commitHash userId (tick_clock w) files Hok Hskip Hreach)
      as (w1 & -> & Hrow).
    exists w1. split; [done|]. by apply newest_failed_row.
Qed.

End Failing.

Lemma no_surviving_file_fails_review_witness :
  (∃ w', analyzeStagedChanges Samples.env Samples.docs 1 Samples.world
           = (Throw no_supported_files, w') ∧
         created_and_failed Samples.docs 1 Samples.world w') ∧
  (∃ w', analyzeCommit Samples.env Samples.docs (lit "c0ffee") 1 Samples.world
           = (Throw no_supported_commit_files, w') ∧
         created_and_failed Samples.docs 1 Samples.world w').
Proof.
  destruct (no_surviving_file_fails_review Samples.env Samples.docs (lit "c0ffee") 1
              Samples.world [Samples.file_readme; Samples.file_gone])
    as [Hstaged Hcommit].
  - intros n. reflexivity.
  - repeat constructor.
  - split; [apply Hstaged|apply Hcommit].
    + split; [reflexivity|].
      exists {| staged := []; modified := [lit "README.md"; lit "old.js"] |},
             (lit "main"), Samples.docs_diff.
      repeat split; try (vm_compute; reflexivity). discriminate.
    + split; [reflexivity|].
      exists (lit "c0ffee"), (lit "main"), Samples.docs_diff.
      repeat split; try (vm_compute; reflexivity). discriminate.
Defined.

Section Stopping.
Variable env : Env.

Lemma staged_try_stops startTime repositoryPath userId w :
  db_fault env (round_trips w) = false →
  staged_run_stops env repositoryPath →
  ∃ e w1 row,
    analyzeStagedChanges_try env startTime repositoryPath userId w = (Throw e, w1) ∧
    codeReview (db w1) = row :: codeReview (db w) ∧
    round_trips w1 = S (round_trips w) ∧
    CodeReview.id row = next_id (db w) ∧
    CodeReview.userId row = userId ∧
    CodeReview.repositoryPath row = repositoryPath ∧
    CodeReview.status row = IN_PROGRESS.
Proof.
  intros Hok (Hopen & st & branch & diff & Hst & Hany & Hbr & Hdiff & Hnone).
  unfold analyzeStagedChanges_try, mbind, M_bind, lift.
  rewrite Hst, Hany, Hbr.
  unfold codeReview_create, round_trip at 1. rewrite Hok. cbn beta iota zeta.
  rewrite Hdiff.
  destruct (blank diff) eqn:Hblank.
  - eexists _, _, _. split; [reflexivity|]. by cbn.
  - destruct Hnone as [?|Hparse]; [done|]. rewrite Hparse. cbn [length Nat.eqb].
    eexists _, _, _. split; [reflexivity|]. by cbn.
Qed.

Lemma commit_try_stops startTime repositoryPath commitHash userId w :
  db_fault env (round_trips w) = false →
  commit_run_stops env repositoryPath commitHash →
  ∃ e w1 row,
    analyzeCommit_try env startTime repositoryPath commitHash userId w = (Throw e, w1) ∧
    codeReview (db w1) = row :: codeReview (db w) ∧
    CodeReview.id row = next_id (db w) ∧
    CodeReview.userId row = userId ∧
    CodeReview.repositoryPath row = repositoryPath ∧
    CodeReview.status row = IN_PROGRESS.
Proof.
  intros Hok (Hopen & shown & branch & diff & Hshown & Hbr & Hdiff & Hnone).
  unfold analyzeCommit_try, mbind, M_bind, lift, try_catch.
  rewrite Hshown, Hbr.
  unfold codeReview_create, round_trip at 1. rewrite Hok. cbn beta iota zeta.
  rewrite Hdiff.
  destruct (blank diff) eqn:Hblank.
  - eexists _, _, _. split; [reflexivity|]. by cbn.
  - destruct Hnone as [?|Hparse]; [done|]. rewrite Hparse. cbn [length Nat.eqb].
    eexists _, _, _. split; [reflexivity|]. by cbn.
Qed.

Lemma catch_fails_newest e repositoryPath userId row rest w :
  db_fault env (round_trips w) = false →
  db_fault env (S (round_trips w)) = false →
  codeReview (db w) = row :: rest →
  CodeReview.userId row = userId → CodeReview.repositoryPath row = repositoryPath →
  CodeReview.status row = IN_PROGRESS →
  ∃ w', (mark_latest_failed env repositoryPath userId;; throw e) w
          = (Throw e : outcome CodeReview.t, w') ∧
        codeReview (db w') = CodeReview.set_status FAILED row :: rest.
Proof.
  intros Hok Hok' Hrows Huser Hpath Hstatus.
  unfold mbind, M_bind, mark_latest_failed, try_catch, mbind, M_bind.
  unfold codeReview_findFirst, round_trip at 1. rewrite Hok, Hrows.
  rewrite filter_cons_True by done. cbn [head]. rewrite Hstatus.
  rewrite bool_decide_eq_true_2 by done.
  unfold codeReview_update, round_trip. cbn [round_trips tick_db with_db db].
  rewrite Hok', Hrows. cbn [update_row]. rewrite bool_decide_eq_true_2 by done.
  cbn. by eexists.
Qed.

(** C8. A run in which the diff is blank, or has no entry, is a run in
    which no file survives the filters. With a database that answers,
    both analyses create their review row and throw; the staged analysis
    leaves the row FAILED, through its [catch], and the commit analysis,
    whose [catch] only throws again, leaves the row IN_PROGRESS. *)
Theorem commit_without_entries_leaves_review_in_progress
    repositoryPath commitHash userId w :
  (∀ n, db_fault env n = false) →
  (staged_run_stops env repositoryPath →
   ∃ e w', analyzeStagedChanges env repositoryPath userId w = (Throw e, w') ∧
           created_and_failed repositoryPath userId w w') ∧
  (commit_run_stops env repositoryPath commitHash →
   ∃ e w', analyzeCommit env repositoryPath commitHash userId w = (Throw e, w') ∧
           created_and_left repositoryPath userId w w' ∧
           ¬ created_and_failed repositoryPath userId w w').
Proof.
  intros Hok. split.
  - intros Hstops.
    unfold analyzeStagedChanges, Date_now_read, mbind at 1 2, M_bind at 1 2, lift at 1.
    rewrite (proj1 Hstops). unfold try_catch.
    destruct (staged_try_stops (Date_now env (clock_reads w)) repositoryPath userId
                (tick_clock w) (Hok _) Hstops)
      as (e & w1 & row & -> & Hrows & Htrips & Hid & Huser & Hpath & Hstatus).
    destruct (catch_fails_newest e repositoryPath userId row _ w1
                (Hok _) (Hok _) Hrows Huser Hpath Hstatus) as (w' & -> & Hrows').
    exists e, w'. split; [done|].
    exists (CodeReview.set_status FAILED row). unfold review_row. rewrite Hrows'.
    rewrite filter_cons_True by done. by destruct row.
  - intros Hstops.
    unfold analyzeCommit, Date_now_read, mbind at 1 2, M_bind at 1 2, lift at 1.
    rewrite (proj1 Hstops). unfold try_catch.
    destruct (commit_try_stops (Date_now env (clock_reads w)) repositoryPath commitHash
                userId (tick_clock w) (Hok _) Hstops)
      as (e & w1 & row & -> & Hrows & Hid & Huser & Hpath & Hstatus).
    exists e, w1. split; [done|].
    assert (review_row (next_id (db w)) (db w1) = Some row) as Hrow.
    { unfold review_row. rewrite Hrows. by rewrite filter_cons_True. }
    split; [by exists row|].
    intros (row' & Hrow' & _ & _ & Hfailed).
    rewrite Hrow in Hrow'. injection Hrow' as <-. by rewrite Hstatus in Hfailed.
Qed.

End Stopping.

Lemma commit_without_entries_leaves_review_in_progress_witness :
  (∃ e w', analyzeStagedChanges Samples.env Samples.assets 1 Samples.world = (Throw e, w') ∧
           created_and_failed Samples.assets 1 Samples.world w') ∧
  (∃ e w', analyzeCommit Samples.env Samples.app (lit "e1217") 1 Samples.world
             = (Throw e, w') ∧
           created_and_left Samples.app 1 Samples.world w' ∧
           ¬ created_and_failed Samples.app 1 Samples.world w').
Proof.
  destruct (commit_without_entries_leaves_review_in_progress Samples.env Samples.assets
              (lit "e1217") 1 Samples.world) as [Hstaged _]; [intros n; reflexivity|].
  destruct (commit_without_entries_leaves_review_in_progress Samples.env Samples.app
              (lit "e1217") 1 Samples.world) as [_ Hcommit]; [intros n; reflexivity|].
  split; [apply Hstaged|apply Hcommit].
  - split; [reflexivity|].
    eexists _, _, _. repeat split; try (vm_compute; reflexivity).
    left. vm_compute. reflexivity.
  - split; [reflexivity|].
    eexists _, _, _. repeat split; try (vm_compute; reflexivity).
    left. vm_compute. reflexivity.
Defined.

(** C3. The commit analysis does not do what the staged analysis does
    when a run fails. An empty commit makes [analyzeCommit] throw after it
    has created its review, and the review stays IN_PROGRESS; the staged
    analysis, failing at the same point (an empty diff), leaves its review
    FAILED. *)
Theorem analyzeCommit_leaves_review_in_progress :
  (∃ w', analyzeCommit Samples.env Samples.app (lit "e1217") 1 Samples.world
           = (Throw no_commit_changes, w') ∧
         CodeReview.status <$> review_row 1%nat (db w') = Some IN_PROGRESS) ∧
  (∃ w', analyzeStagedChanges Samples.env Samples.assets 1 Samples.world
           = (Throw no_diff, w') ∧
         CodeReview.status <$> review_row 1%nat (db w') = Some FAILED).
Proof.
  split; eexists; (split; [vm_compute; reflexivity|]); vm_compute; reflexivity.
Qed.

(* ================================================================== *)
(** * The standards router *)
(* ================================================================== *)

Section Standards.
Variable fault : nat → bool.

Lemma handler_world (m : M StandardsRoutes.Response) failure w (P : World → Prop) :
  ensures m w (λ _ w', P w') → P (StandardsRoutes.handler m failure w).2.
Proof. unfold ensures, StandardsRoutes.handler. by destruct (m w) as [[r|e] w']. Qed.

Lemma create_keeps id s row w :
  keeps id s w → ensures (codingStandard_create fault row) w (λ _ w', keeps id s w').
Proof.
  intros [Hs Hfresh]. unfold codingStandard_create. apply ensures_round_trip; [done|].
  intros _. destruct (name_taken _ _ _); [done|]. split; simpl.
  - rewrite lookup_insert_ne; [done|]. intros Heq.
    assert (id < next_id (db w))%nat by (apply Hfresh; by exists s). lia.
  - intros k Hk. destruct (decide (k = next_id (db w))) as [->|Hne]; [lia|].
    rewrite lookup_insert_ne in Hk by done. specialize (Hfresh k Hk). lia.
Qed.

Lemma findUnique_ensures id w :
  ensures (codingStandard_findUnique fault id) w
    (λ o w', db w' = db w ∧ round_trips w' = S (round_trips w) ∧
             match o with
             | Ok existing => existing = codingStandard (db w) !! id ∧
                              fault (round_trips w) = false
             | Throw _ => fault (round_trips w) = true
             end).
Proof.
  unfold codingStandard_findUnique. apply ensures_round_trip.
  - by intros ->.
  - intros ->. simpl. by destruct w as [[] ? ? ?].
Qed.

Lemma keeps_same id s w w' : db w' = db w → keeps id s w → keeps id s w'.
Proof. unfold keeps. by intros ->. Qed.

Lemma create_route_keeps id s b w :
  keeps id s w → keeps id s (StandardsRoutes.post fault b w).2.
Proof.
  intros Hk. unfold StandardsRoutes.post. apply handler_world.
  destruct (_ || _); [done|].
  destruct (_ ≫= _) as [row|]; [|done].
  apply ensures_bind. eapply ensures_mono; [by apply create_keeps|].
  by intros [r|e] w' Hk'.
Qed.

Lemma put_keeps id s id' b w :
  CodingStandard.isBuiltIn s = true →
  keeps id s w → keeps id s (StandardsRoutes.put fault id' b w).2.
Proof.
  intros Hb Hk. unfold StandardsRoutes.put. apply handler_world.
  apply ensures_bind. eapply ensures_mono; [apply findUnique_ensures|].
  intros [existing|e] w1 (Hdb & _ & Hex); [|by eapply keeps_same].
  destruct Hex as [-> _].
  apply (keeps_same id s w w1 Hdb) in Hk as Hk1.
  destruct (codingStandard (db w) !! id') as [e|] eqn:He; [|done].
  destruct (CodingStandard.isBuiltIn e) eqn:Hbe; [done|].
  assert (id' ≠ id) as Hne. { intros ->. destruct Hk as [Hs _]. congruence. }
  apply ensures_bind. unfold codingStandard_update. apply ensures_round_trip.
  { intros _. by apply (keeps_same id s w1). }
  intros _. destruct Hk1 as [Hs Hfresh].
  destruct (codingStandard (db w1) !! id') as [old|] eqn:Hold;
    [|by apply (keeps_same id s w1)].
  destruct (StandardsRoutes.apply_data b old) as [new|];
    [|by apply (keeps_same id s w1)].
  destruct (name_taken _ _ _); [by apply (keeps_same id s w1)|]. split; simpl.
  - by rewrite lookup_insert_ne.
  - intros k Hin. apply Hfresh. destruct (decide (k = id')) as [->|]; [by eauto|].
    by rewrite lookup_insert_ne in Hin.
Qed.

Lemma delete_keeps id s id' w :
  CodingStandard.isBuiltIn s = true →
  keeps id s w → keeps id s (StandardsRoutes.delete fault id' w).2.
Proof.
  intros Hb Hk. unfold StandardsRoutes.delete. apply handler_world.
  apply ensures_bind. eapply ensures_mono; [apply findUnique_ensures|].
  intros [existing|e] w1 (Hdb & _ & Hex); [|by eapply keeps_same].
  destruct Hex as [-> _].
  apply (keeps_same id s w w1 Hdb) in Hk as Hk1.
  destruct (codingStandard (db w) !! id') as [e|] eqn:He; [|done].
  destruct (CodingStandard.isBuiltIn e) eqn:Hbe; [done|].
  assert (id' ≠ id) as Hne. { intros ->. destruct Hk as [Hs _]. congruence. }
  apply ensures_bind. unfold codingStandard_delete. apply ensures_round_trip.
  { intros _. by apply (keeps_same id s w1). }
  intros _. destruct Hk1 as [Hs Hfresh].
  destruct (codingStandard (db w1) !! id') as [old|] eqn:Hold;
    [|by apply (keeps_same id s w1)].
  split; simpl.
  - by rewrite lookup_delete_ne.
  - intros k Hin. apply Hfresh. destruct (decide (k = id')) as [->|].
    + rewrite lookup_delete_eq in Hin. by destruct Hin.
    + by rewrite lookup_delete_ne in Hin.
Qed.

Lemma seed_keeps id s w :
  keeps id s w → keeps id s (StandardsRoutes.seed fault w).2.
Proof.
  intros Hk. unfold StandardsRoutes.seed. apply handler_world.
  apply ensures_bind. eapply ensures_mono with (Q := λ _ w', keeps id s w').
  - apply ensures_for_of_world; [done|]. intros standard created w1 Hk1.
    unfold StandardsRoutes.seed_one. apply ensures_bind.
    unfold codingStandard_findUnique_name. apply ensures_round_trip; [done|].
    intros _. cbn beta iota.
    assert (keeps id s (with_db (db w1) (tick_db w1))) as Hk2.
    { apply (keeps_same id s w1); [|done]. by destruct w1 as [[] ? ? ?]. }
    destruct (head _); [done|].
    apply ensures_bind. eapply ensures_mono; [by apply create_keeps|].
    by intros [r|e] w' Hk'.
  - by intros [r|e] w' Hk'.
Qed.

(** C9. A built-in standard is out of reach of the API. PUT and DELETE
    on its identifier leave the database as it was and, when the lookup
    is answered, respond 403; and whatever request the router handles
    (create, update, delete or seed, aimed at any identifier), the
    built-in standard is stored unchanged afterwards. *)
Theorem builtin_standards_are_protected w id s :
  codingStandard (db w) !! id = Some s →
  CodingStandard.isBuiltIn s = true →
  (∀ b, db (StandardsRoutes.put fault id b w).2 = db w ∧
        (fault (round_trips w) = false →
         StandardsRoutes.status (StandardsRoutes.put fault id b w).1 = 403%nat)) ∧
  (db (StandardsRoutes.delete fault id w).2 = db w ∧
   (fault (round_trips w) = false →
    StandardsRoutes.status (StandardsRoutes.delete fault id w).1 = 403%nat)) ∧
  ((∀ k, is_Some (codingStandard (db w) !! k) → (k < next_id (db w))%nat) →
   ∀ req, codingStandard (db (StandardsRoutes.route fault req w).2) !! id = Some s).
Proof.
  intros Hs Hb. repeat split.
  - unfold StandardsRoutes.put, StandardsRoutes.handler, codingStandard_findUnique.
    unfold mbind, M_bind, round_trip. destruct (fault (round_trips w)); [done|].
    simpl. rewrite Hs. simpl. rewrite Hb. simpl. by destruct w as [[] ? ? ?].
  - unfold StandardsRoutes.put, StandardsRoutes.handler, codingStandard_findUnique.
    unfold mbind, M_bind, round_trip. intros ->. simpl. rewrite Hs. simpl. by rewrite Hb.
  - unfold StandardsRoutes.delete, StandardsRoutes.handler, codingStandard_findUnique.
    unfold mbind, M_bind, round_trip. destruct (fault (round_trips w)); [done|].
    simpl. rewrite Hs. simpl. rewrite Hb. simpl. by destruct w as [[] ? ? ?].
  - unfold StandardsRoutes.delete, StandardsRoutes.handler, codingStandard_findUnique.
    unfold mbind, M_bind, round_trip. intros ->. simpl. rewrite Hs. simpl. by rewrite Hb.
  - intros Hfresh req. assert (keeps id s w) as Hk by done.
    destruct req as [b|id' b|id'|]; simpl.
    + by apply create_route_keeps.
    + by apply put_keeps.
    + by apply delete_keeps.
    + by apply seed_keeps.
Qed.
End Standards.

Lemma builtin_standards_are_protected_witness :
  StandardsRoutes.put (λ _, false) 0%nat Samples.rename Samples.world
    = (StandardsRoutes.status_json 403
         (StandardsRoutes.error (lit "Cannot modify built-in standards")),
       tick_db Samples.world) ∧
  StandardsRoutes.status (StandardsRoutes.delete (λ _, false) 0%nat Samples.world).1
    = 403%nat ∧
  codingStandard (db (StandardsRoutes.route (λ _, false)
                        StandardsRoutes.POST_seed Samples.world).2) !! 0%nat
    = Some Samples.PEP8.
Proof.
  destruct (builtin_standards_are_protected (λ _, false) Samples.world 0%nat
              Samples.PEP8) as (Hput & Hdelete & Hall).
  - vm_compute. reflexivity.
  - reflexivity.
  - split; [vm_compute; reflexivity|]. split.
    + apply Hdelete. reflexivity.
    + apply Hall. intros k [x Hk].
      unfold Samples.world in *. cbn [db codingStandard next_id] in *.
      apply lookup_singleton_Some in Hk as [<- _]. lia.
Defined.

(* ================================================================== *)
(** * The provider switch *)
(* ================================================================== *)

(** C10. [setProvider] throws on every argument other than the strings
    "ollama" and "gemini" and leaves the service as it was, so that
    [getProvider] answers as before; on either of the two strings it
    stores the argument: [getProvider] then answers it and [getService]
    answers the matching service, until the next [setProvider]. *)
Theorem setProvider_validates_and_switches (p : jsval) (this : AIService.t) :
  (p ≠ Some (JString (lit "ollama")) → p ≠ Some (JString (lit "gemini")) →
   AIService.setProvider p this = (Throw AIService.invalid_provider, this)) ∧
  (∀ name service,
     (name, service) ∈ [(lit "ollama", AIService.llmService);
                        (lit "gemini", AIService.geminiService)] →
     p = Some (JString name) →
     ∃ this', AIService.setProvider p this = (Ok (), this') ∧
              AIService.getProvider this' = name ∧
              AIService.getService this' = service).
Proof.
  split.
  - intros Ho Hg. unfold AIService.setProvider.
    assert (AIService.differs p "ollama" = true) as ->.
    { destruct p as [[]|]; try done. simpl. apply negb_true_iff.
      unfold str_eqb. apply bool_decide_eq_false. congruence. }
    assert (AIService.differs p "gemini" = true) as ->; [|done].
    destruct p as [[]|]; try done. simpl. apply negb_true_iff.
    unfold str_eqb. apply bool_decide_eq_false. congruence.
  - intros name service Hin ->.
    apply elem_of_cons in Hin as [Hin|Hin%list_elem_of_singleton]; simplify_eq;
      by eexists.
Qed.

Lemma setProvider_validates_and_switches_witness :
  AIService.setProvider (Some (Samples.str "openai")) (AIService.constructor None)
    = (Throw AIService.invalid_provider, AIService.constructor None) ∧
  ∃ this', AIService.setProvider (Some (Samples.str "gemini")) (AIService.constructor None)
             = (Ok (), this') ∧
           AIService.getProvider this' = lit "gemini" ∧
           AIService.getService this' = AIService.geminiService.
Proof.
  split.
  - apply (setProvider_validates_and_switches (Some (Samples.str "openai"))
             (AIService.constructor None)); discriminate.
  - apply (setProvider_validates_and_switches (Some (Samples.str "gemini"))
             (AIService.constructor None)).
    + right. left.
    + reflexivity.
Defined.

(* ================================================================== *)
(** * The text taken from a diff *)
(* ================================================================== *)

Section ChangedCode.

Lemma extract_change_contents acc n changes :
  cl_content <$> (foldl extract_change (acc, n) changes).1
  = (cl_content <$> acc)
    ++ ((λ c, substring1 (content c)) <$> filter (λ c, kept c = true) changes).
Proof.
  revert acc n. induction changes as [|c cs IH]; intros acc n.
  - by rewrite app_nil_r.
  - cbn [foldl]. rewrite filter_cons.
    destruct (type c) eqn:Ht.
    + rewrite decide_True by (unfold kept; by rewrite Ht).
      unfold extract_change at 2. rewrite Ht, IH.
      by rewrite fmap_app, <- (assoc_L (++)).
    + rewrite decide_False by (unfold kept; by rewrite Ht).
      unfold extract_change at 2. by rewrite Ht, IH.
    + rewrite decide_True by (unfold kept; by rewrite Ht).
      unfold extract_change at 2. rewrite Ht, IH.
      by rewrite fmap_app, <- (assoc_L (++)).
Qed.

Lemma extract_chunk_contents st chunks :
  cl_content <$> (foldl extract_chunk st chunks).1
  = (cl_content <$> st.1)
    ++ (chunk ← chunks;
        (λ c, substring1 (content c)) <$> filter (λ c, kept c = true) (changes chunk)).
Proof.
  revert st. induction chunks as [|chunk chunks IH]; intros st.
  - by rewrite app_nil_r.
  - cbn [foldl]. rewrite IH. unfold extract_chunk.
    rewrite extract_change_contents. by rewrite <- (assoc_L (++)).
Qed.

Lemma changed_code_kept_lines (file : DiffFile) :
  extractChangedCode file = join [10%N] (kept_lines file).
Proof.
  unfold extractChangedCode, kept_lines. by rewrite extract_chunk_contents.
Qed.

(** X1. [extractChangedCode] returns the added and context lines of the
    file, each without its first character, joined by line feeds in the
    order of the diff. Removed lines contribute nothing, and neither the
    position of a chunk nor the line numbers counted along the way reach
    the text: two entries with the same kept lines give the same text. *)
Theorem extractChangedCode_is_kept_lines (file : DiffFile) :
  extractChangedCode file = join [10%N] (kept_lines file) ∧
  ∀ file', kept_lines file' = kept_lines file →
           extractChangedCode file' = extractChangedCode file.
Proof.
  split; [apply changed_code_kept_lines|].
  intros file' H. by rewrite !changed_code_kept_lines, H.
Qed.

Variable env : Env.

(** X2. A diff entry in which lines were only removed yields the empty
    text, so its turn of the loop is a skip: it is not counted in
    filesAnalyzed, the AI service is not called and nothing is saved. *)
Theorem removals_only_are_skipped review standards a (file : DiffFile) w :
  Forall (λ chunk, Forall (λ c, type c = del) (changes chunk)) (chunks file) →
  extractChangedCode file = [] ∧
  analyze_file env review standards a file w = (Ok a, w).
Proof.
  intros Hdel.
  assert (extractChangedCode file = []) as Hnone.
  { rewrite changed_code_kept_lines. unfold kept_lines.
    replace (chunks file ≫= _) with (@nil jsstring); [done|].
    induction Hdel as [|chunk chunks Hc _ IH]; [done|].
    csimpl. rewrite <- IH, app_nil_r.
    induction Hc as [|c cs Hc _ IHc]; [done|].
    rewrite filter_cons_False; [done|]. unfold kept. by rewrite Hc. }
  split; [done|]. apply analyze_file_skips. unfold survives. rewrite Hnone.
  by rewrite andb_false_r.
Qed.

End ChangedCode.

(* ================================================================== *)
(** * The replies of the model *)
(* ================================================================== *)

Section Replies.
Import LLMService LLMReplies.

Lemma outcome_bind_Ok {A B} (m : outcome A) (f : A → outcome B) b :
  m ≫= f = Ok b → ∃ a, m = Ok a ∧ f a = Ok b.
Proof. destruct m as [a|e]; [|done]. intros H. by exists a. Qed.

Lemma filterM_Ok {A} (p : A → outcome bool) xs kept :
  filterM p xs = Ok kept → Forall (λ x, p x = Ok true) kept.
Proof.
  revert kept. induction xs as [|x xs IH]; intros kept H.
  - by simplify_eq/=.
  - cbn [filterM] in H.
    apply outcome_bind_Ok in H as (b & Hb & H).
    apply outcome_bind_Ok in H as (rest & Hrest & H).
    simplify_eq. destruct b; [constructor|]; eauto.
Qed.

Lemma mapM_Ok {A B} (f : A → outcome B) xs ys :
  mapM f xs = Ok ys → Forall2 (λ x y, f x = Ok y) xs ys.
Proof.
  revert ys. induction xs as [|x xs IH]; intros ys H.
  - simplify_eq/=. constructor.
  - cbn [mapM] in H.
    apply outcome_bind_Ok in H as (y & Hy & H).
    apply outcome_bind_Ok in H as (rest & Hrest & H).
    simplify_eq. constructor; eauto.
Qed.

Lemma truthy_or_else v d : truthy d = true → truthy (or_else v d) = true.
Proof. intros Hd. destruct v as [x|]; [|done]. simpl. by destruct (truthy x) eqn:Hx. Qed.

Lemma kept_candidate_well_formed c i :
  has_required_fields c = Ok true → normalize_issue c = Ok i → well_formed i.
Proof.
  unfold has_required_fields, normalize_issue.
  destruct c as [|b|x|s|xs|props]; try done.
  cbn [get mbind outcome_bind].
  destruct (truthy_opt (lookup_prop (lit "title") props)) eqn:Ht; [|done].
  destruct (truthy_opt (lookup_prop (lit "description") props)) eqn:Hd; [|done].
  destruct (truthy_opt (lookup_prop (lit "severity") props)) eqn:Hs; [|done].
  destruct (truthy_opt (lookup_prop (lit "category") props)) eqn:Hc; [|done].
  cbn [negb]. intros _ [= <-]. unfold well_formed.
  cbn [line lineEnd severity category title description].
  repeat split.
  - apply truthy_or_else. reflexivity.
  - apply truthy_or_else, truthy_or_else. reflexivity.
  - apply truthy_or_else. reflexivity.
  - apply truthy_or_else. reflexivity.
  - by destruct (lookup_prop (lit "title") props).
  - by destruct (lookup_prop (lit "description") props).
Qed.

(** X3. Whatever the model replies and whatever [JSON.parse] makes of
    it, the parser returns, and every issue it returns has a truthy line,
    lineEnd, severity, category, title and description. So the defaults
    the orchestrator applies to these fields once more never fire: the
    row it asks the database to create carries the parser's values. *)
Theorem parsed_issues_are_well_formed
    (JSON_parse : jsstring → option JSValue) (text : jsstring) :
  ∃ r, parseAnalysisResponse JSON_parse text = Ok r ∧
       Forall well_formed (issues r) ∧
       ∀ i review file code, i ∈ issues r →
         d_lineNumber (issue_data review file code i) = line i ∧
         d_lineEnd (issue_data review file code i) = lineEnd i ∧
         d_severity (issue_data review file code i) = severity i ∧
         d_category (issue_data review file code i) = category i.
Proof.
  assert (∃ r, parseAnalysisResponse JSON_parse text = Ok r ∧
               Forall well_formed (issues r)) as (r & Hr & Hall).
  { unfold parseAnalysisResponse, parse_located.
    destruct (locate_json text) as [jsonStr|]; [|by eexists].
    destruct (JSON_parse jsonStr) as [parsed|]; [|by eexists].
    destruct (build_result parsed) as [r|e] eqn:Hr; [|by eexists].
    exists r. split; [done|]. unfold build_result in Hr.
    apply outcome_bind_Ok in Hr as (raw & _ & Hr).
    apply outcome_bind_Ok in Hr as (kept & Hkept & Hr).
    apply outcome_bind_Ok in Hr as (validIssues & Hvalid & Hr).
    apply outcome_bind_Ok in Hr as (sm & _ & Hr).
    apply outcome_bind_Ok in Hr as (recs & _ & Hr).
    simplify_eq. cbn [issues].
    apply filterM_Ok in Hkept. apply mapM_Ok in Hvalid.
    induction Hvalid as [|c i cs ys Hci _ IH]; [constructor|].
    inversion_clear Hkept.
    constructor; [by eapply kept_candidate_well_formed|by apply IH]. }
  exists r. split; [done|]. split; [done|].
  intros i review file code Hi.
  rewrite Forall_forall in Hall. destruct (Hall i Hi) as (Hl & Hle & Hs & Hc & _).
  unfold issue_data. cbn [d_lineNumber d_lineEnd d_severity d_category or_else].
  by rewrite Hl, Hle, Hs, Hc.
Qed.

Lemma fence_eq : fence = [96; 96; 96]%N.
Proof. reflexivity. Qed.

Lemma strip_prefix_app p x : strip_prefix p (p ++ x) = Some x.
Proof.
  induction p as [|a p IH]; [done|]. simpl. unfold char_eqb.
  by rewrite N.eqb_refl.
Qed.

Lemma until_fence_eq r :
  until_fence r = match strip_prefix fence r with
                  | Some _ => Some []
                  | None => match r with
                            | [] => None
                            | c :: r' => (c ::.) <$> until_fence r'
                            end
                  end.
Proof. by destruct r. Qed.

Lemma leftmost_eq at_start s :
  leftmost at_start s = match at_start s with
                        | Some g => Some g
                        | None => match s with
                                  | [] => None
                                  | _ :: r => leftmost at_start r
                                  end
                        end.
Proof. by destruct s. Qed.

Lemma no_fence_in_nil : ¬ is_piece fence [].
Proof.
  intros (pre & post & H). symmetry in H.
  apply app_eq_nil in H as [_ H]. by apply app_eq_nil in H as [H _].
Qed.

(** The run before the closing fence holds no fence. *)
Lemma until_fence_Some r g :
  until_fence r = Some g → (∃ post, r = g ++ fence ++ post) ∧ ¬ is_piece fence g.
Proof.
  revert g. induction r as [|c r IH]; intros g; rewrite until_fence_eq.
  - done.
  - destruct (strip_prefix fence (c :: r)) as [post|] eqn:Hp.
    + intros [= <-]. apply strip_prefix_Some in Hp.
      split; [by exists post|apply no_fence_in_nil].
    + intros (g' & Hg' & ->)%fmap_Some.
      destruct (IH _ Hg') as [[post ->] Hno]. split; [by exists post|].
      intros ([|a pre] & post' & H).
      * rewrite app_nil_l in H.
        assert (c :: g' ++ fence ++ post = fence ++ (post' ++ fence ++ post)) as E.
        { by rewrite app_comm_cons, H, <- (assoc_L (++)). }
        rewrite E, strip_prefix_app in Hp. done.
      * simplify_eq/=. apply Hno. by exists pre, post'.
Qed.

Lemma until_fence_app x post : is_Some (until_fence (x ++ fence ++ post)).
Proof.
  induction x as [|c x IH]; rewrite until_fence_eq.
  - rewrite app_nil_l, strip_prefix_app. by eexists.
  - destruct (strip_prefix fence _); [by eexists|].
    rewrite <- app_comm_cons. destruct IH as [g ->]. by eexists.
Qed.

Lemma skip_before_fence (p : jschar → bool) (skip : jsstring → jsstring) mid post :
  p 96%N = false →
  (∀ c r, skip (c :: r) = if p c then skip r else c :: r) →
  ∃ mid', skip (mid ++ fence ++ post) = mid' ++ fence ++ post.
Proof.
  intros Hp Hskip. induction mid as [|c mid IH].
  - exists []. rewrite fence_eq. simpl. by rewrite Hskip, Hp.
  - rewrite <- app_comm_cons, Hskip. destruct (p c); [done|]. by exists (c :: mid).
Qed.

Lemma block_at_fenced mid post : is_Some (block_at (fence ++ mid ++ fence ++ post)).
Proof.
  unfold block_at. rewrite strip_prefix_app. cbn [mbind option_bind].
  destruct (skip_before_fence is_word skip_word mid post) as [m1 ->]; [done|done|].
  destruct (skip_before_fence is_space skip_spaces m1 post) as [m2 ->]; [done|done|].
  apply until_fence_app.
Qed.

Lemma leftmost_fenced s : has_fenced_block s → is_Some (leftmost block_at s).
Proof.
  intros (pre & mid & post & ->). induction pre as [|c pre IH]; rewrite leftmost_eq.
  - rewrite app_nil_l. destruct (block_at_fenced mid post) as [g ->]. by eexists.
  - destruct (block_at _); [by eexists|]. by rewrite <- app_comm_cons.
Qed.

Lemma block_at_Some s g :
  block_at s = Some g → is_piece fence s ∧ ¬ is_piece fence g.
Proof.
  unfold block_at. intros (r & Hr & H)%bind_Some.
  apply strip_prefix_Some in Hr as ->.
  apply until_fence_Some in H as [_ Hno]. split; [by exists [], r|done].
Qed.

Lemma labelled_at_Some s g :
  labelled_at s = Some g → is_piece fence s ∧ ¬ is_piece fence g.
Proof.
  unfold labelled_at. intros (r & Hr & H)%bind_Some.
  apply strip_prefix_Some in Hr as ->.
  apply block_at_Some in H as [(pre & post & Hf) Hno]. split; [|done].
  destruct (skip_spaces_split r) as [ws Hws].
  exists (lit "FIXED_CODE:" ++ ws ++ pre), post.
  rewrite Hws at 1. rewrite Hf. by rewrite <- !(assoc_L (++)).
Qed.

Lemma leftmost_Some at_start s g :
  (∀ s g, at_start s = Some g → is_piece fence s ∧ ¬ is_piece fence g) →
  leftmost at_start s = Some g → is_piece fence s ∧ ¬ is_piece fence g.
Proof.
  intros Hat. induction s as [|c s IH]; rewrite leftmost_eq.
  - destruct (at_start []) eqn:E; [|done]. intros [= <-]. by apply Hat.
  - destruct (at_start (c :: s)) eqn:E.
    + intros [= <-]. by apply Hat.
    + intros H. destruct (IH H). split; [by apply is_piece_cons|done].
Qed.

(** [s.trim()] is a piece of [s]. *)
Lemma trim_piece s : is_piece (trim s) s.
Proof.
  unfold trim. destruct (skip_spaces_split s) as [ws Hws].
  destruct (skip_spaces_split (reverse (skip_spaces s))) as [ws' Hws'].
  exists ws, (reverse ws'). rewrite Hws at 1. f_equal.
  rewrite <- (reverse_involutive (skip_spaces s)) at 1.
  rewrite Hws' at 1. by rewrite reverse_app.
Qed.

Lemma is_piece_trans a b c : is_piece a b → is_piece b c → is_piece a c.
Proof.
  intros (p1 & q1 & ->) (p2 & q2 & ->). exists (p2 ++ p1), (q1 ++ q2).
  by rewrite <- !(assoc_L (++)).
Qed.

(** X4. The fix taken from a reply that holds a fenced block (two fences)
    holds no fence itself; a reply without any fence is returned whole,
    trimmed. *)
Theorem extracted_fix_holds_no_fence (response : jsstring) :
  (has_fenced_block response → ¬ is_piece fence (extractFixedCode response)) ∧
  (¬ is_piece fence response → extractFixedCode response = trim response).
Proof.
  unfold extractFixedCode. split.
  - intros Hblock Hin.
    destruct (leftmost labelled_at response) as [g|] eqn:Hl.
    { apply (leftmost_Some _ _ _ labelled_at_Some) in Hl as [_ Hno].
      apply Hno. eapply is_piece_trans; [exact Hin|apply trim_piece]. }
    destruct (leftmost_fenced response Hblock) as [g Hg]. rewrite Hg in Hin.
    apply (leftmost_Some _ _ _ block_at_Some) in Hg as [_ Hno].
    apply Hno. eapply is_piece_trans; [exact Hin|apply trim_piece].
  - intros Hnone.
    destruct (leftmost labelled_at response) as [g|] eqn:Hl.
    { by apply (leftmost_Some _ _ _ labelled_at_Some) in Hl as [? _]. }
    destruct (leftmost block_at response) as [g|] eqn:Hb; [|done].
    by apply (leftmost_Some _ _ _ block_at_Some) in Hb as [? _].
Qed.

(** X5. [estimateEffort] of the Ollama service never throws. When the
    model cannot be reached, or its reply holds no JSON that [JSON.parse]
    accepts, the estimate is the default one: half an hour for each issue,
    in the order of the issues and under their titles. *)
Theorem estimateEffort_falls_back_to_default
    (JSON_parse : jsstring → option JSValue)
    (generate : list CodeIssue.t → outcome jsstring) (issues : list CodeIssue.t) :
  (∃ estimate, estimateEffort JSON_parse generate issues = Ok estimate) ∧
  ((∃ e, generate issues = Throw e) ∨
   (∃ response, generate issues = Ok response ∧
                parseJsonResponse JSON_parse response = Throw SyntaxError) →
   estimateEffort JSON_parse generate issues = Ok (default_estimate issues)) ∧
  get (default_estimate issues) "totalEffort"
    = Ok (Some (JNumber (num_mul (num_of_nat (length issues)) num_half))) ∧
  ∃ breakdown,
    get (default_estimate issues) "breakdown" = Ok (Some (JArray breakdown)) ∧
    mapM (λ item, get item "issue") breakdown
      = Ok ((λ i, Some (JString (CodeIssue.title i))) <$> issues) ∧
    mapM (λ item, get item "effort") breakdown
      = Ok ((λ _, Some (JNumber num_half)) <$> issues).
Proof.
  unfold estimateEffort. split; [|split; [|split]].
  - destruct (generate issues ≫= _); by eexists.
  - intros [[e ->]|(response & -> & Hr)]; [done|]. cbn [mbind outcome_bind].
    by rewrite Hr.
  - reflexivity.
  - eexists. split; [reflexivity|].
    split; (induction issues as [|i issues IH]; [done|]; csimpl;
            cbn [mapM] in *; rewrite IH; reflexivity).
Qed.

End Replies.

(* ================================================================== *)
(** * Runs of the orchestrator: what failures leave behind *)
(* ================================================================== *)

Section Outcomes.
Variable env : Env.

(** X6. The effort estimate of the orchestrator always returns a value
    and touches neither the review table nor what the counters depend
    on. Without issues, or when [aiService.estimateEffort] throws, the
    value is half an hour for each issue and the world is as it was. *)
Theorem effort_estimate_always_returns (xs : list CodeIssue.t) (w : World) :
  ∃ v w', estimateEffort_or_default env xs w = (Ok v, w') ∧
          quiet w w' ∧
          (xs = [] ∨ (∃ e, ai_estimateEffort env xs = Throw e) →
           v = JNumber (num_mul (num_of_nat (length xs)) num_half) ∧ w' = w).
Proof.
  pose proof (estimate_ensures env xs w) as Hquiet. unfold ensures in Hquiet.
  unfold estimateEffort_or_default in *.
  destruct xs as [|x xs].
  { eexists _, _. split; [reflexivity|]. split; [done|]. intros _. split; reflexivity. }
  cbn [length Nat.ltb Nat.leb] in *. unfold try_catch in *.
  destruct (estimate env (x :: xs) w) as [[v|e] w1] eqn:Hest.
  - exists v, w1. split; [done|]. split; [done|].
    intros [?|[e He]]; [done|]. unfold estimate, mbind, M_bind, lift in Hest.
    by rewrite He in Hest.
  - eexists _, _. split; [reflexivity|]. split; [done|].
    intros [?|[e' He]]; [done|]. unfold estimate, mbind, M_bind, lift in Hest.
    rewrite He in Hest. by simplify_eq.
Qed.

Lemma analyze_file_unanswered review standards a file w :
  (∀ n c, ∃ e, ai_generate env n c = Throw e) →
  survives file = true →
  analyze_file env review standards a file w
  = (Ok (count_file a), log_ai (call_for standards file) w).
Proof.
  intros Hdown. unfold survives, analyze_file, call_for.
  destruct (deleted file); [done|].
  destruct (supportedExtensions !! _) as [language|] eqn:Hext;
    [|by rewrite bool_decide_eq_false_2 by (by intros [])].
  rewrite bool_decide_eq_true_2 by eauto. simpl. intros Hlen.
  apply negb_true_iff in Hlen. rewrite Hlen.
  unfold try_catch, mbind, M_bind, aiService_analyzeCode.
  by destruct (Hdown (length (ai_calls w))
                 {| call_code := extractChangedCode file; call_filePath := to file;
                    call_language := language;
                    call_standards := filter (λ s, applies_to language s = true) standards |})
    as [e ->].
Qed.

Lemma analyze_files_unanswered review standards files a w :
  (∀ n c, ∃ e, ai_generate env n c = Throw e) →
  ∃ a' w',
    for_of files (analyze_file env review standards) a w = (Ok a', w') ∧
    db w' = db w ∧
    ai_calls w' = ai_calls w
      ++ (call_for standards <$> filter (λ f, survives f = true) files) ∧
    allIssues a' = allIssues a ∧ totalTokens a' = totalTokens a ∧
    allRecommendations a' = allRecommendations a ∧
    filesAnalyzed a' = (filesAnalyzed a
      + length (filter (λ f, survives f = true) files))%nat.
Proof.
  intros Hdown. revert a w. induction files as [|f files IH]; intros a w.
  { exists a, w. rewrite app_nil_r. repeat split; simpl; lia. }
  cbn [for_of]. unfold mbind, M_bind. rewrite filter_cons.
  destruct (survives f) eqn:Hs.
  - rewrite analyze_file_unanswered by done. rewrite decide_True by done.
    destruct (IH (count_file a) (log_ai (call_for standards f) w))
      as (a' & w' & -> & Hdb & Hcalls & Hi & Ht & Hr & Hn).
    exists a', w'. repeat split; [done| |done..|].
    + rewrite Hcalls. simpl. by rewrite <- (assoc_L (++)).
    + rewrite Hn. simpl. lia.
  - rewrite analyze_file_skips by done. rewrite decide_False by done.
    apply IH.
Qed.

Lemma conclude_without_issues startTime review rest a no_files w :
  (∀ n, db_fault env n = false) →
  filesAnalyzed a ≠ 0%nat → allIssues a = [] →
  codeReview (db w) = review :: rest →
  ∃ r w', conclude env startTime review a no_files w = (Ok r, w') ∧
          codeReview (db w') = r :: rest ∧
          codeIssue (db w') = codeIssue (db w) ∧
          ai_calls w' = ai_calls w ∧
          CodeReview.id r = CodeReview.id review ∧
          CodeReview.status r = COMPLETED ∧
          CodeReview.filesAnalyzed r = filesAnalyzed a ∧
          CodeReview.issuesFound r = 0%nat ∧
          CodeReview.criticalIssues r = 0%nat ∧
          CodeReview.majorIssues r = 0%nat ∧
          CodeReview.minorIssues r = 0%nat ∧
          CodeReview.tokensUsed r = totalTokens a ∧
          CodeReview.estimatedEffort r = Some (num_of_nat 0).
Proof.
  intros Hok Hfiles Hnone Hrows. unfold conclude.
  apply Nat.eqb_neq in Hfiles. rewrite Hfiles, Hnone.
  unfold estimateEffort_or_default. cbn [length Nat.ltb Nat.leb].
  unfold mbind, M_bind, mret, M_ret, Date_now_read. cbn [as_float].
  unfold codeReview_update, round_trip. rewrite Hok. cbn [db tick_clock tick_db].
  rewrite Hrows. cbn [update_row]. rewrite bool_decide_eq_true_2 by done.
  eexists _, _. split; [reflexivity|]. by repeat split.
Qed.

Lemma analysis_unanswered startTime review rest standards files no_files w :
  (∀ n, db_fault env n = false) →
  (∀ n c, ∃ e, ai_generate env n c = Throw e) →
  Exists (λ f, survives f = true) files →
  codeReview (db w) = review :: rest →
  ∃ r w',
    (a ← for_of files (analyze_file env review standards) acc_init;
     conclude env startTime review a no_files) w = (Ok r, w') ∧
    clean_bill files r ∧ codeIssue (db w') = codeIssue (db w).
Proof.
  intros Hok Hdown Hsome Hrows. unfold mbind, M_bind.
  destruct (analyze_files_unanswered review standards files acc_init w Hdown)
    as (a & w1 & -> & Hdb & _ & Hi & Ht & _ & Hn).
  destruct (conclude_without_issues startTime review rest a no_files w1)
    as (r & w' & -> & _ & Hissues & _ & _ & Hs & Hf & Hfound & Hc & HM & Hm & Htok & Heff);
    [done| |done|by rewrite Hdb|].
  { rewrite Hn. apply Exists_exists in Hsome as (f & Hin & Hf).
    assert (f ∈ filter (λ f, survives f = true) files) as Hin'
      by (by apply list_elem_of_filter).
    destruct (filter _ files); [by apply elem_of_nil in Hin'|]. simpl. lia. }
  exists r, w'. split; [done|]. split; [|by rewrite Hissues, Hdb].
  unfold clean_bill. rewrite Hf, Hn, Htok, Ht. by repeat split.
Qed.

(** X7. When the model answers no call at all, a run that reaches the
    loop with at least one surviving file still completes: the review it
    returns is COMPLETED, counts the surviving files, and has no issue, no
    token and an estimated effort of zero; no issue row is written. An
    outage of the provider is not told apart from clean code. *)
Theorem unanswered_calls_complete_with_no_issue repositoryPath commitHash userId w files :
  (∀ n, db_fault env n = false) →
  (∀ n c, ∃ e, ai_generate env n c = Throw e) →
  Exists (λ f, survives f = true) files →
  (staged_run_reaches env repositoryPath files →
   ∃ r w', analyzeStagedChanges env repositoryPath userId w = (Ok r, w') ∧
           clean_bill files r ∧ codeIssue (db w') = codeIssue (db w)) ∧
  (commit_run_reaches env repositoryPath commitHash files →
   ∃ r w', analyzeCommit env repositoryPath commitHash userId w = (Ok r, w') ∧
           clean_bill files r ∧ codeIssue (db w') = codeIssue (db w)).
Proof.
  intros Hok Hdown Hsome. split.
  - intros (Hopen & st & branch & diff & Hst & Hany & Hbr & Hdiff & Hblank & Hparse & Hne).
    unfold analyzeStagedChanges, Date_now_read, mbind, M_bind, lift.
    rewrite Hopen. unfold try_catch, analyzeStagedChanges_try, mbind, M_bind, lift.
    rewrite Hst, Hany, Hbr.
    unfold codeReview_create, round_trip at 1. rewrite Hok. cbn beta iota zeta.
    rewrite Hdiff, Hblank, Hparse, (length_nonzero _ Hne).
    unfold getActiveStandards, codingStandard_findMany_active, round_trip at 1.
    rewrite Hok. cbn beta iota zeta.
    edestruct (analysis_unanswered (Date_now env (clock_reads w)))
      as (r & w' & Hrun & Hbill & Hissues); [done|done|done|..]; cycle 1.
    + unfold mbind, M_bind in Hrun. rewrite Hrun. by exists r, w'.
    + cbn. reflexivity.
  - intros (Hopen & shown & branch & diff & Hshown & Hbr & Hdiff & Hblank & Hparse & Hne).
    unfold analyzeCommit, Date_now_read, mbind, M_bind, lift.
    rewrite Hopen. unfold try_catch, analyzeCommit_try, mbind, M_bind, lift, try_catch.
    rewrite Hshown, Hbr.
    unfold codeReview_create, round_trip at 1. rewrite Hok. cbn beta iota zeta.
    rewrite Hdiff, Hblank, Hparse, (length_nonzero _ Hne).
    unfold getActiveStandards, codingStandard_findMany_active, round_trip at 1.
    rewrite Hok. cbn beta iota zeta.
    edestruct (analysis_unanswered (Date_now env (clock_reads w)))
      as (r & w' & Hrun & Hbill & Hissues); [done|done|done|..]; cycle 1.
    + unfold mbind, M_bind in Hrun. rewrite Hrun. by exists r, w'.
    + cbn. reflexivity.
Qed.

(** X8. When git does not know the commit, the commit analysis throws
    the commit-not-found error, which names the hash, before it touches
    anything: the database is as it was, no round trip was made and the
    AI service was not called. *)
Theorem unknown_commit_changes_nothing repositoryPath commitHash userId w e :
  git_open env repositoryPath = Ok () →
  git_show env repositoryPath [commitHash; lit "--format=%H"] = Throw e →
  ∃ w', analyzeCommit env repositoryPath commitHash userId w
          = (Throw (commit_not_found commitHash), w') ∧
        is_piece commitHash (message (commit_not_found commitHash)) ∧
        db w' = db w ∧ round_trips w' = round_trips w ∧ ai_calls w' = ai_calls w.
Proof.
  intros Hopen Hshow.
  unfold analyzeCommit, Date_now_read, mbind, M_bind, lift. rewrite Hopen.
  unfold try_catch, analyzeCommit_try, mbind, M_bind, lift, try_catch.
  rewrite Hshow. eexists. split; [reflexivity|]. split; [|done].
  by exists (lit "Commit "), (lit " not found in repository").
Qed.

Lemma update_row_review_row id f rows r :
  (∀ r0, CodeReview.id (f r0) = CodeReview.id r0) →
  head (filter (λ x, CodeReview.id x = id) rows) = Some r →
  ∃ rows', update_row id f rows = Some (f r, rows') ∧
           head (filter (λ x, CodeReview.id x = id) rows') = Some (f r).
Proof.
  intros Hid. induction rows as [|x rows IH]; [done|].
  rewrite filter_cons. cbn [update_row]. destruct (decide (CodeReview.id x = id)) as [Hx|Hx].
  - intros [= ->]. rewrite bool_decide_eq_true_2 by done.
    eexists. split; [done|]. by rewrite filter_cons_True by (by rewrite Hid).
  - intros H. destruct (IH H) as (rows' & -> & Hhead).
    rewrite bool_decide_eq_false_2 by done. eexists. split; [done|].
    by rewrite filter_cons_False.
Qed.

(** X9. The [catch] of the staged analysis does not know which review
    the run created. When the run fails before it creates one (here: git
    reports no change) and the newest review of the same user and
    repository is IN_PROGRESS, left by an earlier run, that review is set
    to FAILED. *)
Theorem failed_run_fails_pending_review repositoryPath userId w st r :
  (∀ n, db_fault env n = false) →
  git_open env repositoryPath = Ok () →
  git_status env repositoryPath = Ok st →
  staged st = [] → modified st = [] →
  head (filter (λ x, CodeReview.userId x = userId ∧
                     CodeReview.repositoryPath x = repositoryPath)
               (codeReview (db w))) = Some r →
  CodeReview.status r = IN_PROGRESS →
  review_row (CodeReview.id r) (db w) = Some r →
  ∃ w', analyzeStagedChanges env repositoryPath userId w = (Throw no_changes, w') ∧
        review_row (CodeReview.id r) (db w')
          = Some (CodeReview.set_status FAILED r).
Proof.
  intros Hok Hopen Hst Hs Hm Hnewest Hstatus Hrow.
  destruct w as [[reviews issues standards next] trips calls reads].
  unfold review_row in *. cbn [db codeReview] in *.
  destruct (update_row_review_row (CodeReview.id r) (CodeReview.set_status FAILED)
              reviews r) as (rows' & Hup & Hhead); [done|done|].
  unfold analyzeStagedChanges, Date_now_read, mbind, M_bind, lift. rewrite Hopen.
  unfold try_catch, analyzeStagedChanges_try, mbind, M_bind, lift.
  rewrite Hst, Hs, Hm. cbn [length Nat.eqb andb]. unfold throw at 1.
  unfold mark_latest_failed, try_catch, mbind, M_bind, codeReview_findFirst.
  unfold round_trip at 1. rewrite Hok.
  cbn [db tick_clock tick_db with_db codeReview].
  rewrite Hnewest, Hstatus. rewrite bool_decide_eq_true_2 by done.
  unfold codeReview_update, round_trip. rewrite Hok.
  cbn [db tick_clock tick_db with_db round_trips codeReview].
  rewrite Hup. cbn. eexists. split; [reflexivity|]. exact Hhead.
Qed.

End Outcomes.

(* ================================================================== *)
(** * What a run may change *)
(* ================================================================== *)

Section Frame.
Variable env : Env.

Lemma quiet_refl w : quiet w w.
Proof. done. Qed.

Lemma quiet_same w w' : db w' = db w → quiet w w'.
Proof. unfold quiet. by intros ->. Qed.

Lemma left_or_failed_refl rows : Forall2 left_or_failed rows rows.
Proof. apply Forall_Forall2_diag, Forall_forall. by left. Qed.

Lemma left_or_failed_id r' r0 :
  left_or_failed r' r0 → CodeReview.id r' = CodeReview.id r0.
Proof. by intros [->|[_ ->]]. Qed.

Lemma left_or_failed_ids rows' rows :
  Forall2 left_or_failed rows' rows → CodeReview.id <$> rows' = CodeReview.id <$> rows.
Proof.
  induction 1 as [|r' r0 rows' rows H _ IH]; [done|].
  csimpl. by rewrite IH, (left_or_failed_id _ _ H).
Qed.

Lemma update_row_head review f old :
  update_row (CodeReview.id review) f (review :: old) = Some (f review, f review :: old).
Proof. cbn [update_row]. by rewrite bool_decide_eq_true_2. Qed.

Lemma codeReview_create_frame userId repositoryPath branch commitHash w :
  ensures (codeReview_create (db_fault env) userId repositoryPath branch commitHash
             IN_PROGRESS) w
    (λ o w', match o with
             | Ok review =>
                 codeReview (db w') = review :: codeReview (db w) ∧
                 CodeReview.id review = next_id (db w) ∧
                 CodeReview.userId review = userId ∧
                 CodeReview.repositoryPath review = repositoryPath ∧
                 bounded review ∧
                 keys (db w') = keys (db w)
             | Throw _ => quiet w w'
             end).
Proof.
  unfold codeReview_create. apply ensures_round_trip; [done|]. intros _.
  cbn. unfold bounded. cbn. repeat split; lia.
Qed.

Lemma conclude_frame startTime review old a no_files w :
  codeReview (db w) = review :: old →
  bounded review →
  ensures (conclude env startTime review a no_files) w
    (λ _ w', ∃ row, codeReview (db w') = row :: old ∧
                    CodeReview.id row = CodeReview.id review ∧
                    CodeReview.userId row = CodeReview.userId review ∧
                    CodeReview.repositoryPath row = CodeReview.repositoryPath review ∧
                    bounded row ∧
                    keys (db w') = keys (db w)).
Proof.
  intros Hrows Hb. unfold conclude. destruct (filesAnalyzed a =? 0)%nat.
  { apply ensures_bind. unfold codeReview_update. apply ensures_round_trip.
    - intros _. exists review. by repeat split.
    - intros _. rewrite Hrows, update_row_head.
      unfold ensures, throw. cbn. exists (CodeReview.set_status FAILED review).
      by repeat split. }
  apply ensures_bind. eapply ensures_mono; [apply estimate_ensures|].
  intros [estimatedEffort|e] w1 [Hk Hr]; [|exists review; by rewrite Hr, Hk].
  apply ensures_bind. unfold ensures at 1. simpl.
  destruct (as_float estimatedEffort) as [effort|];
    [|apply ensures_throw; exists review; simpl; by rewrite Hr, Hk].
  unfold codeReview_update. apply ensures_round_trip.
  - intros _. exists review. simpl. by rewrite Hr, Hk.
  - intros _. simpl. rewrite Hr, Hrows, update_row_head.
    eexists. split; [reflexivity|]. repeat split; [|by rewrite <- Hk].
    unfold bounded. cbn. pose proof (count_rows_total (allIssues a)). lia.
Qed.

Lemma analysis_frame startTime review old standards files no_files w :
  codeReview (db w) = review :: old →
  bounded review →
  ensures (a ← for_of files (analyze_file env review standards) acc_init;
           conclude env startTime review a no_files) w
    (λ _ w', ∃ row new_keys,
       codeReview (db w') = row :: old ∧
       CodeReview.id row = CodeReview.id review ∧
       CodeReview.userId row = CodeReview.userId review ∧
       CodeReview.repositoryPath row = CodeReview.repositoryPath review ∧
       bounded row ∧
       keys (db w') = keys (db w) ++ new_keys ∧
       Forall (λ k, k.1 = CodeReview.id review) new_keys).
Proof.
  intros Hrows Hb. apply ensures_bind.
  eapply ensures_mono; [apply analyze_files_ensures|].
  intros o w1 (a & -> & (new & Hd & _ & Hnew) & Hr & _).
  eapply ensures_mono; [apply conclude_frame; [by rewrite Hr|done]|].
  intros _ w2 (row & ? & ? & ? & ? & ? & Hk).
  exists row, ((λ i, (CodeIssue.reviewId i, CodeIssue.severity i)) <$> new).
  repeat split; [done..| |].
  - rewrite Hk. unfold keys. by rewrite Hd, fmap_app.
  - apply Forall_fmap. eapply Forall_impl; [exact Hnew|]. by intros i [? _].
Qed.

Lemma opened_later (userId : Z) repositoryPath w w1 w2 :
  opened userId repositoryPath w w1 → db w2 = db w1 →
  opened userId repositoryPath w w2.
Proof. unfold opened. by intros H ->. Qed.

Lemma staged_try_frame startTime repositoryPath userId w :
  ensures (analyzeStagedChanges_try env startTime repositoryPath userId) w
    (λ _ w', quiet w w' ∨ opened userId repositoryPath w w').
Proof.
  unfold analyzeStagedChanges_try.
  apply ensures_bind, ensures_lift.
  destruct (git_status env repositoryPath) as [status|e]; [|by left].
  destruct (_ && _); [by left|].
  apply ensures_bind, ensures_lift.
  destruct (git_branchLocal env repositoryPath) as [currentBranch|e]; [|by left].
  apply ensures_bind. eapply ensures_mono; [apply codeReview_create_frame|].
  intros [review|e] w1 H1; [|by left].
  destruct H1 as (Hrows & Hid & Hu & Hp & Hb & Hk).
  assert (opened userId repositoryPath w w1) as Hopen.
  { exists review, []. rewrite app_nil_r. by repeat split. }
  apply ensures_bind, ensures_lift.
  destruct (if (0 <? _)%nat then _ else _) as [diff|e]; [|by right].
  destruct (blank diff); [by right|].
  destruct (length (parseDiff env diff) =? 0)%nat; [by right|].
  apply ensures_bind. eapply ensures_mono; [apply getActiveStandards_ensures|].
  intros [standards|e] w2 [Hdb _]; [|right; by eapply opened_later].
  eapply ensures_mono.
  { apply analysis_frame; [by rewrite Hdb|done]. }
  intros _ w3 (row & new_keys & ? & ? & ? & ? & ? & Hk3 & Hnew). right.
  exists row, new_keys. rewrite Hdb, Hk in Hk3.
  repeat split; [done|congruence..|done|done|].
  eapply Forall_impl; [exact Hnew|]. intros k ?. congruence.
Qed.

Lemma commit_try_frame startTime repositoryPath commitHash userId w :
  ensures (analyzeCommit_try env startTime repositoryPath commitHash userId) w
    (λ _ w', quiet w w' ∨ opened userId repositoryPath w w').
Proof.
  unfold analyzeCommit_try.
  apply ensures_bind, ensures_try_catch, ensures_lift.
  destruct (git_show env repositoryPath [commitHash; _]) as [shown|e]; [|by left].
  apply ensures_bind, ensures_lift.
  destruct (git_branchLocal env repositoryPath) as [currentBranch|e]; [|by left].
  apply ensures_bind. eapply ensures_mono; [apply codeReview_create_frame|].
  intros [review|e] w1 H1; [|by left].
  destruct H1 as (Hrows & Hid & Hu & Hp & Hb & Hk).
  assert (opened userId repositoryPath w w1) as Hopen.
  { exists review, []. rewrite app_nil_r. by repeat split. }
  apply ensures_bind, ensures_lift.
  destruct (git_show env repositoryPath [commitHash; _]) as [diff|e]; [|by right].
  destruct (blank diff); [by right|].
  destruct (length (parseDiff env diff) =? 0)%nat; [by right|].
  apply ensures_bind. eapply ensures_mono; [apply getActiveStandards_ensures|].
  intros [standards|e] w2 [Hdb _]; [|right; by eapply opened_later].
  eapply ensures_mono.
  { apply analysis_frame; [by rewrite Hdb|done]. }
  intros _ w3 (row & new_keys & ? & ? & ? & ? & ? & Hk3 & Hnew). right.
  exists row, new_keys. rewrite Hdb, Hk in Hk3.
  repeat split; [done|congruence..|done|done|].
  eapply Forall_impl; [exact Hnew|]. intros k ?. congruence.
Qed.

(** With distinct identifiers, an update by identifier changes the row
    that carries it and no other. *)
Lemma update_row_distinct r f rows x rows' :
  NoDup (CodeReview.id <$> rows) → r ∈ rows →
  update_row (CodeReview.id r) f rows = Some (x, rows') →
  Forall2 (λ r' r0, r' = r0 ∨ (r0 = r ∧ r' = f r)) rows' rows.
Proof.
  revert x rows'. induction rows as [|y rows IH]; intros x rows' Hnd Hin H; [done|].
  rewrite fmap_cons in Hnd. apply NoDup_cons in Hnd as [Hy Hnd].
  simpl in H. case_bool_decide as Hid.
  - simplify_eq. assert (r = y) as ->.
    { apply elem_of_cons in Hin as [?|Hin]; [done|]. destruct Hy.
      rewrite Hid. apply list_elem_of_fmap. by exists r. }
    constructor; [by right|]. apply Forall_Forall2_diag, Forall_forall. by left.
  - apply bind_Some in H as ([r1 rest1] & Hup & H). simplify_eq.
    constructor; [by left|]. eapply IH; [done| |done].
    apply elem_of_cons in Hin as [->|?]; done.
Qed.

Lemma mark_latest_failed_frame repositoryPath userId w :
  NoDup (CodeReview.id <$> codeReview (db w)) →
  ensures (mark_latest_failed env repositoryPath userId) w
    (λ _ w', Forall2 left_or_failed (codeReview (db w')) (codeReview (db w)) ∧
             keys (db w') = keys (db w)).
Proof.
  intros Hnd. unfold mark_latest_failed. apply ensures_try_catch, ensures_bind.
  unfold codeReview_findFirst. apply ensures_round_trip.
  { intros _. apply ensures_ret. split; [apply left_or_failed_refl|done]. }
  intros _. cbn beta iota.
  assert (codeReview (db (with_db (db w) (tick_db w))) = codeReview (db w)) as Hsame
    by done.
  assert (keys (db (with_db (db w) (tick_db w))) = keys (db w)) as Hkeys by done.
  destruct (head _) as [r|] eqn:Hhead; cycle 1.
  { apply ensures_ret. rewrite Hsame. split; [apply left_or_failed_refl|done]. }
  case_bool_decide as Hst; cycle 1.
  { apply ensures_ret. rewrite Hsame. split; [apply left_or_failed_refl|done]. }
  apply ensures_bind. unfold codeReview_update. apply ensures_round_trip.
  { intros _. apply ensures_ret. split; [apply left_or_failed_refl|done]. }
  intros _. simpl. destruct (update_row _ _ _) as [[r1 rows]|] eqn:Hup.
  - apply ensures_ret. split; [|done]. simpl.
    apply head_Some_elem_of, list_elem_of_filter in Hhead as [_ Hin].
    eapply Forall2_impl; [by eapply update_row_distinct|].
    intros r' r0 [->|[-> ->]]; [by left|by right].
  - apply ensures_ret. split; [apply left_or_failed_refl|done].
Qed.

Lemma fresh_ids_distinct w row :
  fresh_ids (db w) → NoDup (CodeReview.id <$> codeReview (db w)) →
  CodeReview.id row = next_id (db w) →
  NoDup (CodeReview.id <$> row :: codeReview (db w)).
Proof.
  intros (_ & Hr & _) Hnd Hid. rewrite fmap_cons. apply NoDup_cons. split; [|done].
  intros (r & Hrid & Hin)%list_elem_of_fmap.
  rewrite Forall_forall in Hr. specialize (Hr r Hin). lia.
Qed.

Lemma quiet_frame userId repositoryPath w w' :
  quiet w w' → run_frame userId repositoryPath w w'.
Proof.
  intros [Hk Hr]. exists [], (codeReview (db w)), [].
  rewrite Hr, Hk, app_nil_r. repeat split; [apply left_or_failed_refl|done|simpl; lia|done].
Qed.

Lemma opened_frame userId repositoryPath w w' :
  opened userId repositoryPath w w' → run_frame userId repositoryPath w w'.
Proof.
  intros (row & new_keys & Hr & ? & ? & ? & ? & Hk & Hnew).
  exists [row], (codeReview (db w)), new_keys.
  repeat split; [done|apply left_or_failed_refl|by apply Forall_singleton|
                 simpl; lia|done|done|done].
Qed.

(** The frame of a run of either analysis. *)
Lemma analyses_frame repositoryPath commitHash userId w :
  fresh_ids (db w) → NoDup (CodeReview.id <$> codeReview (db w)) →
  run_frame userId repositoryPath w (analyzeStagedChanges env repositoryPath userId w).2 ∧
  run_frame userId repositoryPath w
    (analyzeCommit env repositoryPath commitHash userId w).2.
Proof.
  intros Hf Hnd. split.
  - unfold analyzeStagedChanges, Date_now_read, mbind, M_bind, lift.
    destruct (git_open env repositoryPath) as [[]|e]; [|by apply quiet_frame].
    unfold try_catch.
    pose proof (staged_try_frame (Date_now env (clock_reads w))
                  repositoryPath userId (tick_clock w)) as H1.
    unfold ensures in H1.
    destruct (analyzeStagedChanges_try _ _ _ _ _) as [[r1|e] w1]; simpl in H1.
    { destruct H1; [by apply quiet_frame|by apply opened_frame]. }
    pose proof (mark_latest_failed_frame repositoryPath userId w1) as H2.
    unfold ensures in H2.
    assert (∀ o w2, mark_latest_failed env repositoryPath userId w1 = (o, w2) →
              run_frame userId repositoryPath w w2) as Hend.
    { intros o w2 Hrun. rewrite Hrun in H2. simpl in H2.
      destruct H1 as [[Hk Hr]|(row & new_keys & Hr & Hid & Hu & Hp & Hb & Hk & Hnew)];
        simpl in Hk, Hr.
      - destruct H2 as [Hrows Hk2]; [by rewrite Hr|].
        exists [], (codeReview (db w2)), []. rewrite app_nil_r.
        repeat split; [by rewrite <- Hr|done|simpl; lia|by rewrite Hk2, Hk|done].
      - destruct H2 as [Hrows Hk2].
        { rewrite Hr. by apply (fresh_ids_distinct (tick_clock w)). }
        rewrite Hr in Hrows.
        inversion Hrows as [|row' ? old' ? Hrow Hold Hw2]; subst.
        exists [row'], old', new_keys. symmetry in Hw2.
        repeat split; [done|done| |simpl; lia|by rewrite Hk2|done|done].
        apply Forall_singleton. simpl in *.
        destruct Hrow as [->|[_ ->]]; by repeat split. }
    destruct (mark_latest_failed _ _ _ _) as [[[]|e2] w2] eqn:Hrun; simpl;
      by eapply Hend.
  - unfold analyzeCommit, Date_now_read, mbind, M_bind, lift.
    destruct (git_open env repositoryPath) as [[]|e]; [|by apply quiet_frame].
    unfold try_catch.
    pose proof (commit_try_frame (Date_now env (clock_reads w))
                  repositoryPath commitHash userId (tick_clock w)) as H1.
    unfold ensures in H1.
    destruct (analyzeCommit_try _ _ _ _ _ _) as [[r1|e] w1]; simpl in *;
      (destruct H1; [by apply quiet_frame|by apply opened_frame]).
Qed.

End Frame.

Section Invariants.
Variable env : Env.

Lemma elem_of_keys d k :
  k ∈ (keys d).*1 ↔ ∃ i, i ∈ codeIssue d ∧ CodeIssue.reviewId i = k.
Proof.
  unfold keys. rewrite <- list_fmap_compose. rewrite list_elem_of_fmap.
  split; intros (i & ? & ?); exists i; done.
Qed.

Lemma run_frame_finished userId repositoryPath w w' r :
  run_frame userId repositoryPath w w' →
  r ∈ codeReview (db w) → finished r → r ∈ codeReview (db w').
Proof.
  intros (created & old' & new_keys & Hrows & Hold & _) Hin Hfin.
  rewrite Hrows. apply elem_of_app. right.
  apply list_elem_of_lookup in Hin as [k Hk].
  destruct (Forall2_lookup_r _ _ _ _ _ Hold Hk) as (r' & Hk' & [->|[Hst _]]).
  - by eapply list_elem_of_lookup_2.
  - destruct Hfin; congruence.
Qed.

Lemma run_frame_distinct userId repositoryPath w w' :
  fresh_ids (db w) → NoDup (CodeReview.id <$> codeReview (db w)) →
  run_frame userId repositoryPath w w' →
  NoDup (CodeReview.id <$> codeReview (db w')).
Proof.
  intros (_ & Hfresh & _) Hnd (created & old' & new_keys & Hrows & Hold & Hnew & Hlen & _).
  rewrite Hrows, fmap_app, (left_or_failed_ids _ _ Hold).
  destruct created as [|row [|? ?]]; [done| |simpl in Hlen; lia].
  apply Forall_singleton in Hnew as (Hid & _). csimpl.
  apply NoDup_cons. split; [|done].
  intros (r & Hrid & Hin)%list_elem_of_fmap.
  rewrite Forall_forall in Hfresh. specialize (Hfresh r Hin). lia.
Qed.

Lemma run_frame_bounded userId repositoryPath w w' :
  Forall bounded (codeReview (db w)) →
  run_frame userId repositoryPath w w' →
  Forall bounded (codeReview (db w')).
Proof.
  intros Hb (created & old' & new_keys & Hrows & Hold & Hnew & _).
  rewrite Hrows. apply Forall_app. split.
  - eapply Forall_impl; [exact Hnew|]. by intros row (_ & _ & _ & ?).
  - clear Hrows. induction Hold as [|r' r0 rows' rows H _ IH]; [done|].
    inversion_clear Hb. constructor; [|by apply IH].
    by destruct H as [->|[_ ->]].
Qed.

Lemma run_frame_issues userId repositoryPath w w' :
  issues_have_reviews (db w) →
  run_frame userId repositoryPath w w' →
  issues_have_reviews (db w').
Proof.
  intros Hhave (created & old' & new_keys & Hrows & Hold & Hnew & _ & Hk & Hkeys & Hnone).
  intros i Hi.
  assert (CodeIssue.reviewId i ∈ (keys (db w')).*1) as Hin
    by (apply elem_of_keys; by exists i).
  rewrite Hk, fmap_app in Hin. apply elem_of_app in Hin as [Hin|Hin].
  - apply elem_of_keys in Hin as (i0 & Hi0 & Hrid).
    destruct (Hhave i0 Hi0) as (r & Hr & Hid).
    apply list_elem_of_lookup in Hr as [n Hn].
    destruct (Forall2_lookup_r _ _ _ _ _ Hold Hn) as (r' & Hn' & Hr').
    exists r'. split.
    + rewrite Hrows. apply elem_of_app. right. by eapply list_elem_of_lookup_2.
    + rewrite (left_or_failed_id _ _ Hr'). congruence.
  - apply list_elem_of_fmap in Hin as (k & Hkid & Hkin).
    rewrite Forall_forall in Hkeys. specialize (Hkeys k Hkin).
    destruct created as [|row rest].
    { rewrite Hnone in Hkin by done. by apply elem_of_nil in Hkin. }
    apply Forall_cons in Hnew as [(Hid & _) _].
    exists row. split; [rewrite Hrows; left|congruence].
Qed.

(** X10. A run of either analysis leaves the reviews that were stored
    before in place and in order, in front of which it puts at most one
    new review; of the earlier reviews it changes at most the status, from
    IN_PROGRESS to FAILED. A review that is COMPLETED or FAILED is
    therefore never changed again, and none is removed. *)
Theorem earlier_reviews_are_left_or_failed repositoryPath commitHash userId w w' :
  fresh_ids (db w) → NoDup (CodeReview.id <$> codeReview (db w)) →
  w' = (analyzeStagedChanges env repositoryPath userId w).2 ∨
  w' = (analyzeCommit env repositoryPath commitHash userId w).2 →
  (∃ created old',
     codeReview (db w') = created ++ old' ∧ (length created ≤ 1)%nat ∧
     Forall2 left_or_failed old' (codeReview (db w))) ∧
  ∀ r, r ∈ codeReview (db w) → finished r → r ∈ codeReview (db w').
Proof.
  intros Hf Hnd Hw'.
  assert (run_frame userId repositoryPath w w') as Hframe.
  { destruct (analyses_frame env repositoryPath commitHash userId w Hf Hnd).
    by destruct Hw' as [->| ->]. }
  split; [|intros r; by apply (run_frame_finished userId repositoryPath)].
  destruct Hframe as (created & old' & _ & ? & ? & _ & ? & _). by exists created, old'.
Qed.

(** X11. The analyses keep the database well kept: the keys of the
    standards, the identifiers of the reviews and the review identifiers
    of the issues stay below the generator, no two reviews share an
    identifier, every issue belongs to a stored review, and in every
    review the three headline counters add up to no more than
    issuesFound. *)
Theorem analyses_keep_database_well_kept repositoryPath commitHash userId w :
  well_kept (db w) →
  well_kept (db (analyzeStagedChanges env repositoryPath userId w).2) ∧
  well_kept (db (analyzeCommit env repositoryPath commitHash userId w).2).
Proof.
  intros (Hf & Hnd & Hi & Hb).
  destruct (analyses_frame env repositoryPath commitHash userId w Hf Hnd) as [Hs Hc].
  destruct (analyses_keep_ids_fresh env repositoryPath commitHash userId w Hf) as [Hfs Hfc].
  split; (split; [done|];
          split; [by apply (run_frame_distinct userId repositoryPath w)|];
          split; [by apply (run_frame_issues userId repositoryPath w)
                 |by apply (run_frame_bounded userId repositoryPath w)]).
Qed.

End Invariants.

Section Statistics.
Import ReviewStats.
Variable fault : nat → bool.
Variable Number_toFixed : number → nat → jsstring.

Lemma foldl_sum (f : CodeReview.t → nat) n rows :
  foldl (λ sum r, sum + f r)%nat n rows = (n + sum_list (f <$> rows))%nat.
Proof.
  revert n. induction rows as [|r rows IH]; intros n; csimpl; [lia|].
  rewrite IH. lia.
Qed.

(** X12. [getReviewStats] reads the reviews of the user and changes
    nothing. Over reviews whose counters are bounded, as the analyses keep
    them, the totals are bounded too: critical, major and minor issues
    together never exceed the total of issues. For a user without reviews
    the average is the quotient of zero by zero: what is formatted is
    NaN. *)
Theorem review_stats_are_bounded userId w stats w' :
  getReviewStats fault Number_toFixed userId w = (Ok stats, w') →
  db w' = db w ∧
  totalReviews stats
    = length (filter (λ r, CodeReview.userId r = userId) (codeReview (db w))) ∧
  (Forall bounded (codeReview (db w)) →
   (totalCritical stats + totalMajor stats + totalMinor stats ≤ totalIssues stats)%nat) ∧
  (totalReviews stats = 0%nat → avgAnalysisTime stats = Number_toFixed S754_nan 2).
Proof.
  unfold getReviewStats, mbind, M_bind, codeReview_findMany_user, round_trip.
  destruct (fault (round_trips w)); [done|]. cbn [db with_db tick_db].
  intros [= <- <-]. cbn [totalReviews totalIssues totalCritical totalMajor totalMinor
                         avgAnalysisTime db with_db tick_db].
  split; [by destruct w as [[] ? ? ?]|]. split; [done|]. split.
  - intros Hb. rewrite !foldl_sum. simpl.
    assert (Forall bounded (filter (λ r, CodeReview.userId r = userId)
                                   (codeReview (db w)))) as Hb'.
    { rewrite Forall_forall in Hb. apply Forall_forall. intros r Hr.
      apply list_elem_of_filter in Hr as [_ Hr]. by apply Hb. }
    induction Hb' as [|r rows Hr _ IH]; [done|]. csimpl. unfold bounded in Hr. lia.
  - intros Hnone. apply length_zero_iff_nil in Hnone. by rewrite Hnone.
Qed.

End Statistics.

(* ================================================================== *)
(** * Automatic fixes *)
(* ================================================================== *)

Section Fixes.
Import AutoFix.

Variable fault : nat → bool.
Variable fs_readFile : jsstring → jsstring → outcome jsstring.
Variable aiService_generateFix : jsstring → CodeIssue.t → jsstring → outcome jsstring.

(** X13. A fix is all or nothing. A request that throws leaves the
    database as it was; it throws for an issue that is not stored and for
    one that is not auto-fixable. A request that returns was for a stored,
    auto-fixable issue of a supported file whose content could be read,
    returns the section of that file it sent to the model, and has
    written the fix to the fixCode of that issue and changed no other
    column, row or table. *)
Theorem fix_is_all_or_nothing issueId repositoryPath w o w' :
  generateAutoFix fault fs_readFile aiService_generateFix issueId repositoryPath w
    = (o, w') →
  codeReview (db w') = codeReview (db w) ∧
  codingStandard (db w') = codingStandard (db w) ∧
  (fault (round_trips w) = false →
   match head (filter (λ i, CodeIssue.id i = issueId) (codeIssue (db w))) with
   | None => o = Throw not_found
   | Some issue => CodeIssue.autoFixable issue = false → o = Throw not_fixable
   end) ∧
  match o with
  | Throw _ => db w' = db w
  | Ok fixed =>
      ∃ issue language content,
        head (filter (λ i, CodeIssue.id i = issueId) (codeIssue (db w))) = Some issue ∧
        CodeIssue.autoFixable issue = true ∧
        supportedExtensions !! Path.extname (CodeIssue.filePath issue) = Some language ∧
        fs_readFile repositoryPath (CodeIssue.filePath issue) = Ok content ∧
        originalCode fixed = codeSection issue content ∧
        aiService_generateFix (codeSection issue content) issue language
          = Ok (fixedCode fixed) ∧
        codeIssue (db w')
          = (λ i, if bool_decide (CodeIssue.id i = issueId)
                  then set_fixCode (fixedCode fixed) i else i) <$> codeIssue (db w)
  end.
Proof.
  unfold generateAutoFix, mbind, M_bind, codeIssue_findUnique, round_trip at 1.
  destruct w as [[reviews issues standards next] trips calls reads].
  cbn [db round_trips tick_db with_db codeReview codeIssue codingStandard].
  destruct (fault trips) eqn:Hfault.
  { intros [= <- <-]. by repeat split. }
  destruct (head (filter _ issues)) as [issue|] eqn:Hissue.
  2: { intros [= <- <-]. by repeat split. }
  destruct (CodeIssue.autoFixable issue) eqn:Hfix; cbn [negb].
  2: { intros [= <- <-]. by repeat split. }
  destruct (supportedExtensions !! _) as [language|] eqn:Hlang.
  2: { intros [= <- <-]. by repeat split. }
  unfold lift at 1.
  destruct (fs_readFile repositoryPath _) as [content|e] eqn:Hread.
  2: { intros [= <- <-]. by repeat split. }
  unfold lift at 1.
  destruct (aiService_generateFix _ issue language) as [code|e] eqn:Hgen.
  2: { intros [= <- <-]. by repeat split. }
  unfold codeIssue_update_fixCode, round_trip.
  cbn [db round_trips tick_db with_db codeReview codeIssue codingStandard].
  destruct (fault (S trips)).
  { intros [= <- <-]. by repeat split. }
  case_bool_decide.
  2: { intros [= <- <-]. by repeat split. }
  intros [= <- <-]. cbn. repeat split; [done|].
  by exists issue, language, content.
Qed.

Lemma split_lines_cons c s :
  split_lines (c :: s)
  = if char_eqb c 10%N then [] :: split_lines s
    else match split_lines s with
         | l :: ls => (c :: l) :: ls
         | [] => [[c]]
         end.
Proof. done. Qed.

Lemma split_lines_app l s :
  10%N ∉ l →
  split_lines (l ++ 10%N :: s) = l :: split_lines s.
Proof.
  induction l as [|c l IH]; intros Hl; [done|].
  rewrite <- app_comm_cons, split_lines_cons.
  apply not_elem_of_cons in Hl as [Hc Hl].
  unfold char_eqb. destruct (N.eqb_spec c 10); [done|]. by rewrite IH.
Qed.

Lemma split_lines_line l : 10%N ∉ l → split_lines l = [l].
Proof.
  induction l as [|c l IH]; intros Hl; [done|].
  rewrite split_lines_cons. apply not_elem_of_cons in Hl as [Hc Hl].
  unfold char_eqb. destruct (N.eqb_spec c 10); [done|]. by rewrite IH.
Qed.

(** Splitting what was joined gives the lines back. *)
Lemma split_lines_join ls :
  ls ≠ [] → Forall (λ l, 10%N ∉ l) ls → split_lines (join [10%N] ls) = ls.
Proof.
  intros Hne Hls. induction Hls as [|l ls Hl Hls IH]; [done|].
  destruct ls as [|l' ls].
  - by apply split_lines_line.
  - change (split_lines (l ++ 10%N :: join [10%N] (l' :: ls)) = l :: l' :: ls).
    rewrite split_lines_app by done. by rewrite IH.
Qed.

Lemma split_lines_clean s : Forall (λ l, 10%N ∉ l) (split_lines s).
Proof.
  induction s as [|c s IH]; [apply Forall_singleton, not_elem_of_nil|].
  rewrite split_lines_cons. unfold char_eqb. destruct (N.eqb_spec c 10).
  - constructor; [apply not_elem_of_nil|done].
  - destruct (split_lines s) as [|l ls].
    + apply Forall_singleton, not_elem_of_cons. split; [done|apply not_elem_of_nil].
    + inversion_clear IH. constructor; [|done]. by apply not_elem_of_cons.
Qed.

(** X14. For an issue whose lines lie in the file (1 <= lineNumber <=
    last line <= number of lines), the section sent to the model reads
    back as the window of lines cut from the file; the window starts four
    lines before the issue, or at the first line, holds every line of the
    issue at its place, and is at most ten lines longer than the issue. *)
Theorem code_section_shows_the_issue (issue : CodeIssue.t) (fileContent : jsstring) :
  1 ≤ CodeIssue.lineNumber issue →
  CodeIssue.lineNumber issue ≤ last_line issue →
  last_line issue ≤ Z.of_nat (length (split_lines fileContent)) →
  split_lines (codeSection issue fileContent)
    = window issue (split_lines fileContent) ∧
  Z.of_nat (length (window issue (split_lines fileContent)))
    ≤ last_line issue - CodeIssue.lineNumber issue + 10 ∧
  ∀ k, CodeIssue.lineNumber issue ≤ k ≤ last_line issue →
       is_Some (split_lines fileContent !! Z.to_nat (k - 1)) ∧
       window issue (split_lines fileContent)
         !! Z.to_nat (k - 1 - Z.max 0 (CodeIssue.lineNumber issue - 5))
       = split_lines fileContent !! Z.to_nat (k - 1).
Proof.
  intros Hfirst Horder Hlast.
  set (lines := split_lines fileContent) in *.
  set (ln := CodeIssue.lineNumber issue) in *. set (le := last_line issue) in *.
  assert (window issue lines
          = take (Z.to_nat (Z.min (Z.of_nat (length lines)) (le + 5) - Z.max 0 (ln - 5)))
                 (drop (Z.to_nat (Z.max 0 (ln - 5))) lines)) as Hwin.
  { unfold window, slice. fold ln le.
    destruct (Z.ltb_spec (Z.max 0 (ln - 5)) 0); [exfalso; lia|].
    destruct (Z.ltb_spec (Z.min (Z.of_nat (length lines)) (le + 5)) 0); [exfalso; lia|].
    replace (Z.min (Z.max 0 (ln - 5)) (Z.of_nat (length lines)))
      with (Z.max 0 (ln - 5)) by lia.
    replace (Z.min (Z.min (Z.of_nat (length lines)) (le + 5)) (Z.of_nat (length lines)))
      with (Z.min (Z.of_nat (length lines)) (le + 5)) by lia.
    reflexivity. }
  assert (∀ k, ln ≤ k ≤ le →
            is_Some (lines !! Z.to_nat (k - 1)) ∧
            window issue lines !! Z.to_nat (k - 1 - Z.max 0 (ln - 5))
            = lines !! Z.to_nat (k - 1)) as Hshow.
  { intros k Hk. split.
    - apply lookup_lt_is_Some. lia.
    - rewrite Hwin, lookup_take_lt by lia. rewrite lookup_drop. f_equal. lia. }
  split; [|split; [|done]].
  - unfold codeSection. fold lines. apply split_lines_join.
    + destruct (Hshow ln) as [[l Hl] Hw]; [lia|]. rewrite Hl in Hw.
      intros Hnil. by rewrite Hnil in Hw.
    + rewrite Hwin. apply Forall_take, Forall_drop, split_lines_clean.
  - rewrite Hwin, length_take, length_drop. lia.
Qed.

End Fixes.

(* ================================================================== *)
(** * The provider in the routes *)
(* ================================================================== *)

Section ProviderRoutes.
Import AIProviderRoutes.

Variable remote : Remote.

Lemma differs_known (provider : jsval) :
  AIService.differs provider "ollama" && AIService.differs provider "gemini" = false →
  ∃ p, provider = Some (JString p) ∧ known p.
Proof.
  unfold AIService.differs, known. destruct provider as [[| | |s| |]|]; try done.
  simpl. unfold str_eqb. intros H. exists s. split; [done|].
  apply andb_false_iff in H as [H|H]; apply negb_false_iff, bool_decide_eq_true in H;
    [by left|by right].
Qed.

Lemma known_differs p :
  known p →
  AIService.differs (Some (JString p)) "ollama"
  && AIService.differs (Some (JString p)) "gemini" = false.
Proof. intros [->| ->]; reflexivity. Qed.

(** X15. POST /api/ai/provider answers 200 exactly when the body's
    provider is one of the two names, and exactly then the service is
    switched, to that name, and the answer carries the health of the
    service now active; every other request is answered 400 and leaves
    the service as it was. The throw of [setProvider] is never reached: the
    handler answers no 500. *)
Theorem provider_route_switches_or_refuses (provider : jsval) (this : AIService.t) :
  ∃ r this', post_provider remote provider this = (r, this') ∧
    (status r = 200%nat ∨ status r = 400%nat) ∧
    (status r = 200%nat ↔ ∃ p, provider = Some (JString p) ∧ known p) ∧
    (status r = 200%nat →
     AIService.getProvider this' = AIService.string_of provider ∧
     body r = switched (AIService.string_of provider)
                (service_checkHealth remote (AIService.getService this'),
                 AIService.string_of provider)
                (lit "AI provider switched to " ++ AIService.string_of provider)) ∧
    (status r = 400%nat → this' = this).
Proof.
  unfold post_provider. destruct (truthy_opt provider) eqn:Ht; cbn [negb].
  2: { eexists _, _. split; [reflexivity|]. cbn. repeat split; try done; [by right|].
       intros (p & -> & [->| ->]); done. }
  destruct (_ && _) eqn:Hd.
  { eexists _, _. split; [reflexivity|]. cbn. repeat split; try done; [by right|].
    intros (p & -> & Hp). by rewrite known_differs in Hd. }
  unfold AIService.setProvider. rewrite Hd.
  eexists _, _. split; [reflexivity|]. cbn. repeat split; try done; [by left|].
  intros _. by apply differs_known.
Qed.

End ProviderRoutes.

Section AnalysisRoutes.
Import ReviewsRoutes.

Variable analyzeStagedChanges : AIService.t → JSValue → JSValue → M CodeReview.t.
Variable analyzeCommit : AIService.t → JSValue → JSValue → JSValue → M CodeReview.t.

Lemma switch_and_run_known p run failure this w :
  known p →
  switch_and_run (Some (JString p)) run failure this w
  = answered p failure (run {| AIService.provider := p |} w).
Proof.
  intros Hp. unfold switch_and_run, answered.
  assert (truthy (JString p) = true) as Ht by (by destruct Hp as [->| ->]).
  rewrite Ht, known_differs by done. rewrite !andb_false_r. cbn [andb].
  unfold is_other, AIService.getProvider. cbn [is_string]. unfold str_eqb.
  case_bool_decide as Hsame; cbn [negb].
  - destruct this as [q]. simpl in Hsame. subst q. by destruct (run _ w) as [[?|?] ?].
  - unfold AIService.setProvider. rewrite known_differs by done.
    cbn [AIService.string_of]. by destruct (run _ w) as [[?|?] ?].
Qed.

Lemma switch_and_run_unknown v run failure this w :
  truthy v = true → is_other v (AIService.getProvider this) = true →
  (∀ p, v = JString p → ¬ known p) →
  switch_and_run (Some v) run failure this w
  = (status_json 400 (error (Js.message AIService.invalid_provider)), (this, w)).
Proof.
  intros Ht Ho Hv. unfold switch_and_run. rewrite Ht, Ho. cbn [andb].
  destruct (AIService.differs (Some v) "ollama" && AIService.differs (Some v) "gemini")
    eqn:Hd.
  - done.
  - apply differs_known in Hd as (p & [= ->] & Hp). by destruct (Hv p).
Qed.

(** X16. The two analysis handlers and the provider. A request that
    names one of the two providers runs its analysis with that provider
    and leaves the service switched to it, whether the analysis returns
    (200) or throws (500, with the message of the error): the switch is
    not undone. A request that names anything else that is truthy and
    differs from the current provider is answered 400 by either handler
    before anything runs, leaving service and world as they were: with
    the invalid-provider message by the staged handler, and by the commit
    handler when the body has a commit hash (without one the commit
    handler has answered 400 already). *)
Theorem analysis_request_keeps_switch (b : ReqBody) (this : AIService.t) (w : World)
    (path user : JSValue) :
  repositoryPath b = Some path → userId b = Some user →
  truthy path = true → truthy user = true →
  (∀ p, provider b = Some (JString p) → known p →
     analyze_staged analyzeStagedChanges b this w
     = answered p (lit "Failed to analyze staged changes")
         (analyzeStagedChanges {| AIService.provider := p |} path user w) ∧
     ∀ hash, commitHash b = Some hash → truthy hash = true →
       analyze_commit analyzeCommit b this w
       = answered p (lit "Failed to analyze commit")
           (analyzeCommit {| AIService.provider := p |} path hash user w)) ∧
  (∀ v, provider b = Some v → truthy v = true →
     is_other v (AIService.getProvider this) = true →
     (∀ p, v = JString p → ¬ known p) →
     analyze_staged analyzeStagedChanges b this w
     = (status_json 400 (error (Js.message AIService.invalid_provider)), (this, w)) ∧
     (∀ hash, commitHash b = Some hash → truthy hash = true →
        analyze_commit analyzeCommit b this w
        = (status_json 400 (error (Js.message AIService.invalid_provider)), (this, w))) ∧
     status (analyze_commit analyzeCommit b this w).1 = 400%nat ∧
     (analyze_commit analyzeCommit b this w).2 = (this, w)).
Proof.
  intros Hpath Huser Htp Htu. split.
  - intros p Hprov Hp. split.
    + unfold analyze_staged. rewrite Hpath, Huser, Htp, Htu, Hprov. cbn [negb orb].
      by apply switch_and_run_known.
    + intros hash Hhash Hth. unfold analyze_commit.
      rewrite Hpath, Huser, Hhash, Htp, Htu, Hth, Hprov. cbn [negb orb].
      by apply switch_and_run_known.
  - intros v Hprov Ht Ho Hv.
    assert (∀ hash, commitHash b = Some hash → truthy hash = true →
              analyze_commit analyzeCommit b this w
              = (status_json 400 (error (Js.message AIService.invalid_provider)),
                 (this, w))) as Hcommit.
    { intros hash Hhash Hth. unfold analyze_commit.
      rewrite Hpath, Huser, Hhash, Htp, Htu, Hth, Hprov. cbn [negb orb].
      by apply switch_and_run_unknown. }
    split; [|split; [exact Hcommit|]].
    + unfold analyze_staged. rewrite Hpath, Huser, Htp, Htu, Hprov. cbn [negb orb].
      by apply switch_and_run_unknown.
    + destruct (commitHash b) as [hash|] eqn:Hhash.
      * destruct (truthy hash) eqn:Hth.
        { by rewrite (Hcommit hash). }
        unfold analyze_commit. rewrite Hpath, Huser, Hhash, Htp, Htu, Hth. done.
      * unfold analyze_commit. rewrite Hpath, Hhash. done.
Qed.

End AnalysisRoutes.

Section GuardedCalls.
Import AIProviderRoutes AIServiceCalls.

Variable remote : Remote.
Variable JSON_parse : jsstring → option JSValue.
Variable ollama_generate : list CodeIssue.t → outcome jsstring.
Variable gemini_generate : list CodeIssue.t → outcome jsstring.

(** X17. [aiService.estimateEffort] throws exactly when the health check
    of the active service reports an error, and then its message starts
    with the name of the provider; a warning (the model is not listed)
    does not block the call, and past the guard neither service throws.
    When it throws, an orchestrator that calls it records half an hour for
    each issue and leaves the world as it was. *)
Theorem estimate_is_guarded_by_health (this : AIService.t) (issues : list CodeIssue.t) :
  let health := service_checkHealth remote (AIService.getService this) in
  (Health.status health = lit "error" →
   estimateEffort remote JSON_parse ollama_generate gemini_generate this issues
     = Throw (not_available this health) ∧
   (∃ rest, Js.message (not_available this health)
            = AIService.getProvider this ++ lit " is not available: " ++ rest) ∧
   ∀ env w,
     ai_estimateEffort env issues
       = estimateEffort remote JSON_parse ollama_generate gemini_generate this issues →
     estimateEffort_or_default env issues w
     = (Ok (JNumber (num_mul (num_of_nat (length issues)) num_half)), w)) ∧
  (Health.status health ≠ lit "error" →
   ∃ estimate,
     estimateEffort remote JSON_parse ollama_generate gemini_generate this issues
       = Ok estimate).
Proof.
  intros health. unfold estimateEffort, guarded. fold health. split.
  - intros Herr. rewrite Herr. unfold str_eqb. rewrite bool_decide_eq_true_2 by done.
    split; [done|]. split; [by eexists|]. intros env w Hai.
    unfold estimateEffort_or_default. destruct issues as [|i rest]; [done|].
    cbn [length Nat.ltb Nat.leb]. unfold try_catch, estimate, mbind, M_bind, lift.
    by rewrite Hai.
  - intros Hok. unfold str_eqb. rewrite bool_decide_eq_false_2 by done.
    subst health. unfold service_checkHealth in Hok.
    destruct (AIService.getService this).
    + unfold LLMReplies.estimateEffort. destruct (_ ≫= _); by eexists.
    + unfold geminiService_estimateEffort. unfold geminiService_checkHealth in Hok.
      destruct (GEMINI_API_KEY remote) as [[|c key]|]; [done| |done].
      unfold LLMReplies.estimateEffort. destruct (_ ≫= _); by eexists.
Qed.

End GuardedCalls.

(* ================================================================== *)
(** * Standards: creating, reading back, seeding *)
(* ================================================================== *)

Section StandardsWrites.
Import StandardsRoutes StandardsReads.

Variable fault : nat → bool.

(** X18. With a database that answers: POST /api/standards answers 400,
    and changes nothing, exactly when name, language or rules is missing
    or falsy; when it answers 200 the standard it created is not
    built-in, whatever the body holds, is stored under the next
    identifier, and is what GET /api/standards/:id then answers for that
    identifier. *)
Theorem created_standard_reads_back (b : ReqBody) (w : World) :
  (∀ n, fault n = false) →
  ∃ r w', post fault b w = (r, w') ∧
    (status r = 400%nat ↔
     truthy_opt (name b) && truthy_opt (language b) && truthy_opt (rules b) = false) ∧
    (status r = 400%nat → w' = w) ∧
    (status r = 200%nat →
     ∃ s, body r = success_standard s ∧
          CodingStandard.isBuiltIn s = false ∧
          Some (JString (CodingStandard.name s)) = name b ∧
          codingStandard (db w') !! next_id (db w) = Some s ∧
          (get_one fault (next_id (db w)) w').1 = json (success_standard s)).
Proof.
  intros answers. unfold post, handler.
  destruct (truthy_opt (name b)) eqn:Hn; cbn [negb orb andb].
  2: { eexists _, _. split; [reflexivity|]. by repeat split. }
  destruct (truthy_opt (language b)) eqn:Hl; cbn [negb orb andb].
  2: { eexists _, _. split; [reflexivity|]. by repeat split. }
  destruct (truthy_opt (rules b)) eqn:Hr; cbn [negb orb andb].
  2: { eexists _, _. split; [reflexivity|]. by repeat split. }
  destruct (name b ≫= as_string) as [n|] eqn:Hname; cbn [mbind option_bind].
  2: { eexists _, _. split; [reflexivity|]. by repeat split. }
  destruct (match description b with Some v => as_nullable_string v | None => Some None end)
    as [d|]; cbn [mbind option_bind].
  2: { eexists _, _. split; [reflexivity|]. by repeat split. }
  destruct (language b ≫= as_string) as [l|]; cbn [mbind option_bind].
  2: { eexists _, _. split; [reflexivity|]. by repeat split. }
  destruct (rules b ≫= as_json) as [rl|]; cbn [mbind option_bind].
  2: { eexists _, _. split; [reflexivity|]. by repeat split. }
  destruct (match isActive b with Some v => as_boolean v | None => Some true end)
    as [a|]; cbn [mbind option_bind].
  2: { eexists _, _. split; [reflexivity|]. by repeat split. }
  unfold mbind, M_bind, codingStandard_create, round_trip. rewrite answers.
  destruct (name_taken _ _ _).
  { eexists _, _. split; [reflexivity|]. by repeat split. }
  eexists _, _. split; [reflexivity|]. cbn. repeat split; try done.
  intros _. eexists. split; [reflexivity|]. cbn. repeat split.
  - destruct (name b) as [[]|]; simplify_eq/=. done.
  - by rewrite lookup_insert_eq.
  - unfold get_one, handler, mbind, M_bind, codingStandard_findUnique, round_trip.
    rewrite answers. cbn. by rewrite lookup_insert_eq.
Qed.

Lemma head_filter_name (m : gmap Id CodingStandard.t) n :
  head (filter (λ s, CodingStandard.name s = n) (map_to_list m).*2) = None ↔
  ∀ k s, m !! k = Some s → CodingStandard.name s ≠ n.
Proof.
  split.
  - intros Hnone k s Hk Hname.
    assert (s ∈ filter (λ s, CodingStandard.name s = n) (map_to_list m).*2) as Hin.
    { apply list_elem_of_filter. split; [done|].
      apply list_elem_of_fmap. exists (k, s). split; [done|].
      by apply elem_of_map_to_list. }
    destruct (filter _ _); [by apply elem_of_nil in Hin|done].
  - intros Hall. destruct (filter _ _) as [|s rest] eqn:Hf; [done|].
    assert (s ∈ filter (λ s, CodingStandard.name s = n) (map_to_list m).*2) as Hin
      by (rewrite Hf; left).
    apply list_elem_of_filter in Hin as [Hname Hin].
    apply list_elem_of_fmap in Hin as ([k s'] & -> & Hin).
    apply elem_of_map_to_list in Hin. by destruct (Hall k s' Hin).
Qed.

Lemma name_taken_free (m : gmap Id CodingStandard.t) n :
  (∀ k s, m !! k = Some s → CodingStandard.name s ≠ n) →
  name_taken n None m = false.
Proof.
  intros Hall. unfold name_taken. apply bool_decide_eq_false.
  intros ([k s] & Hin & Hname & _)%Exists_exists.
  apply elem_of_map_to_list in Hin. by destruct (Hall k s Hin).
Qed.

Lemma unseeded_created (d : DB) (row s : CodingStandard.t) :
  codingStandard d !! next_id d = None →
  unseeded (bump_id (with_standards (<[next_id d := row]> (codingStandard d)) d)) s
  ↔ unseeded d s ∧ CodingStandard.name row ≠ CodingStandard.name s.
Proof.
  intros Hfree. unfold unseeded. cbn. rewrite map_Forall_insert by done. tauto.
Qed.

Lemma filter_ext_elem {A} (P Q : A → Prop) `{!∀ x, Decision (P x)}
    `{!∀ x, Decision (Q x)} (l : list A) :
  (∀ x, x ∈ l → P x ↔ Q x) → filter P l = filter Q l.
Proof.
  induction l as [|x l IH]; intros Hext; [done|].
  rewrite !filter_cons, IH by (intros y Hy; apply Hext; by right).
  destruct (decide (P x)) as [HP|HP], (decide (Q x)) as [HQ|HQ]; try done.
  - destruct HQ. apply Hext; [left|done].
  - destruct HP. apply Hext; [left|done].
Qed.

Lemma filter_none {A} (P : A → Prop) `{!∀ x, Decision (P x)} (l : list A) :
  (∀ x, x ∈ l → ¬ P x) → filter P l = [].
Proof.
  induction l as [|x l IH]; intros Hnone; [done|].
  rewrite filter_cons_False by (apply Hnone; left).
  apply IH. intros y Hy. apply Hnone. by right.
Qed.

(** The loop of the seed handler over standards of different names. *)
Lemma seed_loop (standards created : list CodingStandard.t) (w : World) :
  (∀ n, fault n = false) →
  NoDup (CodingStandard.name <$> standards) →
  (∀ k, is_Some (codingStandard (db w) !! k) → (k < next_id (db w))%nat) →
  ∃ w', for_of standards (seed_one fault) created w
          = (Ok (created ++ filter (unseeded (db w)) standards), w') ∧
        (∀ k s, codingStandard (db w) !! k = Some s →
                codingStandard (db w') !! k = Some s) ∧
        (∀ s, unseeded (db w') s ↔
              unseeded (db w) s ∧ CodingStandard.name s ∉ CodingStandard.name <$> standards) ∧
        codeReview (db w') = codeReview (db w) ∧
        codeIssue (db w') = codeIssue (db w) ∧
        (∀ k, is_Some (codingStandard (db w') !! k) → (k < next_id (db w'))%nat) ∧
        (filter (unseeded (db w)) standards = [] → db w' = db w).
Proof.
  intros answers. revert created w.
  induction standards as [|standard rest IH]; intros created w Hnames Hkeys.
  { exists w. cbn. rewrite app_nil_r. split; [done|]. split; [done|].
    split; [|done]. intros s. split; [|by intros [? _]].
    intros ?. split; [done|]. apply not_elem_of_nil. }
  apply NoDup_cons in Hnames as [Hnew Hnames]. cbn [for_of].
  unfold mbind at 1, M_bind at 1, seed_one at 1, mbind at 1, M_bind at 1.
  unfold codingStandard_findUnique_name, round_trip at 1. rewrite answers.
  cbn [db]. rewrite filter_cons.
  destruct (decide (unseeded (db w) standard)) as [Hun|Htaken].
  - rewrite (proj2 (head_filter_name _ _)) by exact Hun.
    unfold mbind at 1, M_bind at 1, codingStandard_create, round_trip at 1.
    rewrite answers. cbn [db with_db tick_db].
    rewrite name_taken_free by exact Hun. cbn [mret M_ret].
    assert (codingStandard (db w) !! next_id (db w) = None) as Hfree.
    { destruct (codingStandard (db w) !! next_id (db w)) eqn:Hk; [|done].
      assert (next_id (db w) < next_id (db w))%nat by (apply Hkeys; by eexists). lia. }
    match goal with |- context [for_of rest _ _ ?w1] =>
      destruct (IH (created ++ [standard]) w1 Hnames)
        as (w' & -> & Hold & Hun' & Hr & Hi & Hk' & _) end.
    { cbn. intros k [x Hk]. destruct (decide (k = next_id (db w))) as [->|Hne]; [lia|].
      rewrite lookup_insert_ne in Hk by done.
      assert (k < next_id (db w))%nat by (apply Hkeys; by eexists). lia. }
    exists w'. cbn [db with_db tick_db] in *. split.
    { match goal with |- context [filter (unseeded ?d1) rest] =>
        rewrite (filter_ext_elem (unseeded d1) (unseeded (db w)) rest) end.
      { by rewrite <- app_assoc. }
      intros s Hs. rewrite unseeded_created by done. split; [tauto|].
      intros Hs'. split; [done|]. intros Heq. apply Hnew. rewrite Heq.
      by apply (list_elem_of_fmap_2 CodingStandard.name). }
    split.
    { intros k s Hk. apply Hold. cbn. rewrite lookup_insert_ne; [done|].
      intros <-. by rewrite Hfree in Hk. }
    split.
    { intros s. rewrite Hun', unseeded_created by done.
      rewrite fmap_cons, not_elem_of_cons.
      split; [intros [[? ?] ?]|intros [? [? ?]]]; repeat split; try done;
        by apply not_eq_sym. }
    split; [by rewrite Hr|]. split; [by rewrite Hi|]. done.
  - destruct (head _) as [found|] eqn:Hhead.
    2:{ destruct Htaken. exact (proj1 (head_filter_name _ _) Hhead). }
    cbn [mret M_ret].
    match goal with |- context [for_of rest _ _ ?w1] =>
      destruct (IH created w1 Hnames) as (w' & -> & Hold & Hun' & Hr & Hi & Hk' & Hnone) end.
    { by destruct w as [[] ? ? ?]. }
    assert (db (with_db (db w) (tick_db w)) = db w) as Hdb by (by destruct w as [[] ? ? ?]).
    rewrite Hdb in *.
    exists w'. split; [done|]. split; [done|]. split.
    { intros s. rewrite Hun', fmap_cons, not_elem_of_cons. split; [intros [? ?]|tauto].
      repeat split; try done. intros Heq. apply Htaken. unfold unseeded in *.
      by rewrite <- Heq. }
    done.
Qed.

Lemma builtIn_names_differ : NoDup (CodingStandard.name <$> builtInStandards).
Proof.
  apply (bool_decide_unpack _). vm_compute. exact I.
Qed.

(** X19. Seeding is idempotent. With a database that answers and whose
    keys lie below the id generator, POST /api/standards/seed answers 200
    and creates, in the order of the handler's list, the built-in
    standards that have a name no stored standard has; the standards
    stored before are kept, and afterwards every one of the four names is
    stored. A second seed right after therefore creates nothing and
    changes nothing. *)
Theorem seeding_twice_creates_nothing (w : World) :
  (∀ n, fault n = false) →
  fresh_ids (db w) →
  ∃ created w1 w2,
    seed fault w = (json (success_seeded created), w1) ∧
    created = filter (unseeded (db w)) builtInStandards ∧
    (∀ k s, codingStandard (db w) !! k = Some s →
            codingStandard (db w1) !! k = Some s) ∧
    (∀ s, s ∈ builtInStandards →
          ∃ k s', codingStandard (db w1) !! k = Some s' ∧
                  CodingStandard.name s' = CodingStandard.name s) ∧
    (created = [] → db w1 = db w) ∧
    seed fault w1 = (json (success_seeded []), w2) ∧
    db w2 = db w1.
Proof.
  intros answers [Hkeys _].
  destruct (seed_loop builtInStandards [] w answers builtIn_names_differ Hkeys)
    as (w1 & Hfirst & Hold & Hun & _ & _ & Hkeys1 & Hnone).
  assert (∀ s, s ∈ builtInStandards → ¬ unseeded (db w1) s) as Hall.
  { intros s Hs [_ Hout]%Hun. apply Hout. by apply list_elem_of_fmap_2. }
  destruct (seed_loop builtInStandards [] w1 answers builtIn_names_differ Hkeys1)
    as (w2 & Hsecond & _ & _ & _ & _ & _ & Hnone2).
  assert (filter (unseeded (db w1)) builtInStandards = []) as Hempty.
  { apply filter_none. intros s Hs. by apply Hall. }
  rewrite Hempty in Hsecond.
  exists (filter (unseeded (db w)) builtInStandards), w1, w2.
  split. { unfold seed, handler, mbind, M_bind. by rewrite Hfirst. }
  split; [done|]. split; [done|]. split.
  { intros s Hs. destruct (decide (unseeded (db w1) s)) as [Hs'|Hs'].
    { by destruct (Hall s Hs). }
    apply map_not_Forall in Hs' as (k & s' & Hk & Hname); [|apply _].
    exists k, s'. split; [done|]. by apply dec_stable. }
  split; [done|]. split.
  { unfold seed, handler, mbind, M_bind. by rewrite Hsecond. }
  by apply Hnone2.
Qed.

End StandardsWrites.

(* ================================================================== *)
(** * Deleting a review *)
(* ================================================================== *)

Section ReviewDelete.
Import ReviewsRoutes.

Variable fault : nat → bool.

(** X20. DELETE /api/reviews/:id, when the database answers. For a
    stored review the answer is 200: the review is gone and its issues
    with it, every other review and issue is kept, and every issue still
    belongs to a stored review if that was so before. For an unknown
    identifier the answer is 500, not 404, and nothing changes. The
    provider is never touched. *)
Theorem deleting_a_review_takes_its_issues (id : Id) (this : AIService.t) (w : World) :
  fault (round_trips w) = false →
  ∃ r w', delete fault id this w = (r, (this, w')) ∧
    ((∃ row, row ∈ codeReview (db w) ∧ CodeReview.id row = id) →
     status r = 200%nat ∧
     (∀ row, row ∈ codeReview (db w') ↔ row ∈ codeReview (db w) ∧ CodeReview.id row ≠ id) ∧
     (∀ i, i ∈ codeIssue (db w') ↔ i ∈ codeIssue (db w) ∧ CodeIssue.reviewId i ≠ id) ∧
     (issues_have_reviews (db w) → issues_have_reviews (db w'))) ∧
    ((∀ row, row ∈ codeReview (db w) → CodeReview.id row ≠ id) →
     status r = 500%nat ∧ db w' = db w).
Proof.
  intros Hok. unfold delete, codeReview_delete, round_trip. rewrite Hok.
  case_bool_decide as Hex.
  - eexists _, _. split; [reflexivity|]. split.
    + intros _. cbn. split; [done|].
      assert (∀ row, row ∈ filter (λ r, CodeReview.id r ≠ id) (codeReview (db w)) ↔
                     row ∈ codeReview (db w) ∧ CodeReview.id row ≠ id) as Hrows.
      { intros row. rewrite list_elem_of_filter. tauto. }
      assert (∀ i, i ∈ filter (λ i, CodeIssue.reviewId i ≠ id) (codeIssue (db w)) ↔
                   i ∈ codeIssue (db w) ∧ CodeIssue.reviewId i ≠ id) as Hissues.
      { intros i. rewrite list_elem_of_filter. tauto. }
      split; [done|]. split; [done|].
      intros Hhave i Hi. cbn in *. apply Hissues in Hi as [Hi Hne].
      destruct (Hhave i Hi) as (r & Hr & Hid). exists r. split; [|done].
      apply Hrows. split; [done|]. congruence.
    + intros Hnone. apply Exists_exists in Hex as (row & Hin & Hid).
      by destruct (Hnone row Hin).
  - eexists _, _. split; [reflexivity|]. split.
    + intros (row & Hin & Hid). destruct Hex. apply Exists_exists. by exists row.
    + intros _. cbn. split; [done|]. by destruct w as [[] ? ? ?].
Qed.

End ReviewDelete.

(* ================================================================== *)
(** * The effort stored with the issues *)
(* ================================================================== *)

Section StoredEffort.
Variable env : Env.

Lemma head_filter_distinct {A B} `{EqDecision B} (f : A → B) xs y :
  NoDup (f <$> xs) → y ∈ xs → head (filter (λ i, f i = f y) xs) = Some y.
Proof.
  induction xs as [|x xs IH]; intros Hnd Hin; [by apply elem_of_nil in Hin|].
  rewrite fmap_cons in Hnd. apply NoDup_cons in Hnd as [Hx Hnd].
  apply elem_of_cons in Hin as [->|Hin].
  - by rewrite filter_cons_True.
  - rewrite filter_cons_False; [by apply IH|].
    intros Heq. apply Hx. rewrite Heq. apply list_elem_of_fmap. by exists y.
Qed.

Lemma default_item_issue (i : CodeIssue.t) (rest : list (jsstring * JSValue)) :
  get (JObject ((lit "issue", JString (CodeIssue.title i)) :: rest)) "issue"
  = Ok (Some (JString (CodeIssue.title i))).
Proof. reflexivity. Qed.

Lemma default_item_effort (v : JSValue) (e : JSValue) (rest : list (jsstring * JSValue)) :
  get (JObject ((lit "issue", v) :: (lit "effort", e) :: rest)) "effort" = Ok (Some e).
Proof. reflexivity. Qed.

Lemma with_effort_nil e (rows : list CodeIssue.t) : with_effort e [] <$> rows = rows.
Proof.
  rewrite <- (list_fmap_id rows) at 2. apply list_fmap_ext. intros _ row _.
  unfold with_effort. rewrite bool_decide_eq_false_2; [done|]. apply not_elem_of_nil.
Qed.

Lemma with_effort_cons e y ys (rows : list CodeIssue.t) :
  with_effort e ys <$> ((λ i, if bool_decide (CodeIssue.id i = CodeIssue.id y)
                              then CodeIssue.set_effort e i else i) <$> rows)
  = with_effort e (y :: ys) <$> rows.
Proof.
  rewrite <- list_fmap_compose. apply list_fmap_ext. intros _ row _.
  unfold with_effort, compose. rewrite fmap_cons.
  destruct (decide (CodeIssue.id row = CodeIssue.id y)) as [Heq|Hne].
  - rewrite (bool_decide_eq_true_2 (CodeIssue.id row = _)) by done.
    rewrite (bool_decide_eq_true_2 (_ ∈ _ :: _)) by (rewrite Heq; left).
    cbn [CodeIssue.id CodeIssue.set_effort]. by case_bool_decide.
  - rewrite (bool_decide_eq_false_2 (CodeIssue.id row = _)) by done.
    rewrite (bool_decide_ext (CodeIssue.id row ∈ CodeIssue.id y :: (CodeIssue.id <$> ys))
               (CodeIssue.id row ∈ CodeIssue.id <$> ys)); [done|].
    rewrite elem_of_cons. tauto.
Qed.

Lemma default_breakdown_stored xs ys w :
  (∀ n, db_fault env n = false) →
  NoDup (CodeIssue.title <$> xs) →
  ys ⊆ xs →
  Forall (λ y, Exists (λ i, CodeIssue.id i = CodeIssue.id y) (codeIssue (db w))) ys →
  ∃ w', for_of ((λ i, JObject [(lit "issue", JString (CodeIssue.title i));
                               (lit "effort", JNumber num_half);
                               (lit "reasoning", JString (lit "Default estimate"))])
                <$> ys) (apply_effort env xs) () w = (Ok (), w') ∧
        codeReview (db w') = codeReview (db w) ∧
        codeIssue (db w') = with_effort num_half ys <$> codeIssue (db w).
Proof.
  intros Hok Hnd. revert w. induction ys as [|y ys IH]; intros w Hsub Hstored.
  { exists w. by rewrite with_effort_nil. }
  apply Forall_cons in Hstored as [Hy Hstored].
  rewrite fmap_cons. cbn [for_of]. unfold mbind at 1, M_bind at 1.
  unfold apply_effort at 1, mbind, M_bind, lift.
  rewrite default_item_issue. cbn [find_by_title].
  rewrite (head_filter_distinct CodeIssue.title xs y Hnd) by (apply Hsub; left).
  rewrite default_item_effort. cbn [truthy num_truthy num_half].
  unfold codeIssue_update_effort, round_trip. rewrite Hok. cbn [as_float].
  rewrite bool_decide_eq_true_2 by done.
  match goal with
  | |- context [for_of _ _ _ ?w1] => destruct (IH w1) as (w' & Hrun & Hr & Hi)
  end.
  { intros z Hz. apply Hsub. by right. }
  { cbn [db with_db codeIssue with_issues]. eapply Forall_impl; [exact Hstored|].
    intros z Hz. apply Exists_fmap. eapply Exists_impl; [exact Hz|].
    intros i Hi. unfold compose. by case_bool_decide. }
  rewrite Hrun. exists w'. split; [done|]. split; [by rewrite Hr|].
  rewrite Hi. cbn [db with_db codeIssue with_issues]. apply with_effort_cons.
Qed.

(** X21. When the service answers with the default estimate (the model
    gave none) and the database answers, the orchestrator stores half an
    hour as the effort of every issue of the run and of no other row;
    the review table is not touched. The titles of the issues must
    differ: the effort of a breakdown entry goes to the first issue that
    has the entry's title. *)
Theorem default_estimate_is_stored_with_every_issue (xs : list CodeIssue.t) (w : World) :
  (∀ n, db_fault env n = false) →
  ai_estimateEffort env xs = Ok (LLMReplies.default_estimate xs) →
  NoDup (CodeIssue.title <$> xs) →
  Forall (λ x, Exists (λ i, CodeIssue.id i = CodeIssue.id x) (codeIssue (db w))) xs →
  ∃ v w', estimateEffort_or_default env xs w = (Ok v, w') ∧
          codeReview (db w') = codeReview (db w) ∧
          codeIssue (db w') = with_effort num_half xs <$> codeIssue (db w).
Proof.
  intros Hok Hai Hnd Hstored. unfold estimateEffort_or_default.
  destruct xs as [|x xs'] eqn:Hxs.
  { eexists _, _. split; [reflexivity|]. by rewrite with_effort_nil. }
  rewrite <- Hxs in *. replace (0 <? length xs)%nat with true by (by rewrite Hxs).
  destruct (default_breakdown_stored xs xs w Hok Hnd) as (w' & Hloop & Hr & Hi);
    [done|done|].
  unfold try_catch, estimate, mbind, M_bind, lift. rewrite Hai.
  unfold LLMReplies.default_estimate.
  change (get (JObject ?props) "totalEffort") with (Ok (lookup_prop (lit "totalEffort") props)).
  change (get (JObject ?props) "breakdown") with (Ok (lookup_prop (lit "breakdown") props)).
  cbn [lookup_prop]. unfold str_eqb.
  rewrite (bool_decide_eq_true_2 (lit "totalEffort" = lit "totalEffort")) by done.
  rewrite (bool_decide_eq_false_2 (lit "breakdown" = lit "totalEffort")) by discriminate.
  rewrite (bool_decide_eq_true_2 (lit "breakdown" = lit "breakdown")) by done.
  cbn [truthy_opt truthy isArray andb array_or_empty]. rewrite Hloop.
  by eexists _, _.
Qed.

End StoredEffort.

(* ================================================================== *)
(** * The properties at sample inputs *)
(* ================================================================== *)

Lemma extractChangedCode_is_kept_lines_witness :
  extractChangedCode MoreSamples.file_a_moved = extractChangedCode Samples.file_a ∧
  extractChangedCode Samples.file_a
    = lit "var total = 1;" ++ [10%N] ++ lit "console.log(total);".
Proof.
  destruct (extractChangedCode_is_kept_lines Samples.file_a) as [Htext Hsame].
  split; [apply Hsame|rewrite Htext]; vm_compute; reflexivity.
Defined.

Lemma removals_only_are_skipped_witness :
  analyze_file Samples.env Samples.review [] acc_init MoreSamples.file_trimmed
    Samples.world
  = (Ok acc_init, Samples.world).
Proof.
  apply (removals_only_are_skipped Samples.env). repeat constructor.
Defined.

Lemma parsed_issues_are_well_formed_witness :
  ∃ r, LLMService.parseAnalysisResponse Samples.JSON_parse Samples.reply_text = Ok r ∧
       Forall well_formed (LLMService.issues r) ∧
       (d_severity <$> (issue_data Samples.review Samples.file_a [] <$> LLMService.issues r))
         = [Samples.str "MINOR"; Samples.str "INFO"].
Proof.
  destruct (parsed_issues_are_well_formed Samples.JSON_parse Samples.reply_text)
    as (r & Hr & Hall & _).
  exists r. split; [exact Hr|]. split; [exact Hall|].
  vm_compute in Hr. injection Hr as <-. vm_compute. reflexivity.
Defined.

Lemma extracted_fix_holds_no_fence_witness :
  LLMReplies.extractFixedCode MoreSamples.fix_reply = lit "const total = 0;" ∧
  ¬ is_piece LLMService.fence (LLMReplies.extractFixedCode MoreSamples.fix_reply) ∧
  LLMReplies.extractFixedCode (lit "  return total;  ") = lit "return total;".
Proof.
  destruct (extracted_fix_holds_no_fence MoreSamples.fix_reply) as [Hfenced _].
  destruct (extracted_fix_holds_no_fence (lit "  return total;  ")) as [_ Hplain].
  split; [vm_compute; reflexivity|]. split.
  - apply Hfenced.
    exists (lit "FIXED_CODE: "), (lit "javascript const total = 0; "), (lit " ").
    vm_compute. reflexivity.
  - rewrite Hplain; [vm_compute; reflexivity|].
    intros (pre & post & H).
    assert (96%N ∈ lit "  return total;  ") as Hin.
    { rewrite H. apply elem_of_app. right. apply elem_of_app. left. left. }
    vm_compute in Hin.
    repeat (apply elem_of_cons in Hin as [Hin|Hin]; [discriminate Hin|]).
    by apply elem_of_nil in Hin.
Defined.

Lemma estimateEffort_falls_back_to_default_witness :
  LLMReplies.estimateEffort Samples.JSON_parse (λ _, Ok (lit "About two hours."))
    [MoreSamples.issue]
  = Ok (LLMReplies.default_estimate [MoreSamples.issue]).
Proof.
  apply (estimateEffort_falls_back_to_default Samples.JSON_parse).
  right. eexists. split; reflexivity.
Defined.

Lemma effort_estimate_always_returns_witness :
  estimateEffort_or_default Samples.env [MoreSamples.issue] Samples.world
  = (Ok (JNumber num_half), Samples.world).
Proof.
  destruct (effort_estimate_always_returns Samples.env [MoreSamples.issue] Samples.world)
    as (v & w' & Hrun & _ & Hdefault).
  destruct Hdefault as [-> ->]; [right; eexists; reflexivity|]. exact Hrun.
Defined.

Lemma unanswered_calls_complete_with_no_issue_witness :
  ∃ r w', analyzeStagedChanges MoreSamples.offline Samples.app 1 Samples.world = (Ok r, w') ∧
          CodeReview.status r = COMPLETED ∧ CodeReview.filesAnalyzed r = 1%nat ∧
          CodeReview.issuesFound r = 0%nat ∧ codeIssue (db w') = [].
Proof.
  destruct (unanswered_calls_complete_with_no_issue MoreSamples.offline Samples.app []
              1 Samples.world [Samples.file_a; Samples.file_readme; Samples.file_gone])
    as [Hstaged _].
  - intros n. reflexivity.
  - intros n c. eexists. reflexivity.
  - apply Exists_cons_hd. vm_compute. reflexivity.
  - destruct Hstaged as (r & w' & Hrun & (Hstatus & Hfiles & Hfound & _) & Hissues).
    + split; [reflexivity|].
      exists {| staged := [lit "src/a.js"; lit "README.md"; lit "old.js"]; modified := [] |},
             (lit "main"), Samples.app_diff.
      repeat split; try (vm_compute; reflexivity). discriminate.
    + exists r, w'. split; [exact Hrun|]. split; [exact Hstatus|].
      split; [rewrite Hfiles; vm_compute; reflexivity|]. split; [exact Hfound|exact Hissues].
Defined.

Lemma unknown_commit_changes_nothing_witness :
  ∃ w', analyzeCommit MoreSamples.detached Samples.app (lit "c0ffee") 1 Samples.world
          = (Throw (commit_not_found (lit "c0ffee")), w') ∧
        db w' = db Samples.world.
Proof.
  destruct (unknown_commit_changes_nothing MoreSamples.detached Samples.app (lit "c0ffee")
              1 Samples.world (Err (lit "fatal: bad object")))
    as (w' & Hrun & _ & Hdb & _); [reflexivity..|].
  exists w'. split; [exact Hrun|exact Hdb].
Defined.

Lemma failed_run_fails_pending_review_witness :
  ∃ w', analyzeStagedChanges Samples.env Samples.clean 1 MoreSamples.stale
          = (Throw no_changes, w') ∧
        CodeReview.status <$> review_row 3%nat (db w') = Some FAILED.
Proof.
  destruct (failed_run_fails_pending_review Samples.env Samples.clean 1 MoreSamples.stale
              {| staged := []; modified := [] |} MoreSamples.pending_review)
    as (w' & Hrun & Hrow); [intros n; reflexivity|vm_compute; reflexivity..|].
  exists w'. split; [exact Hrun|]. cbn in Hrow. rewrite Hrow. reflexivity.
Defined.

Lemma reviewed_well_kept : well_kept (db MoreSamples.reviewed).
Proof.
  split; [|split; [|split]].
  - split; [|split].
    + intros k [x Hk]. unfold MoreSamples.reviewed in *.
      cbn [db codingStandard next_id] in *.
      apply lookup_singleton_Some in Hk as [<- _]. lia.
    + apply Forall_singleton. cbn. lia.
    + apply Forall_singleton. cbn. lia.
  - cbn. apply NoDup_singleton.
  - intros i Hi. apply list_elem_of_singleton in Hi as ->.
    exists MoreSamples.finished_review. split; [left|reflexivity].
  - apply Forall_singleton. unfold bounded. cbn. lia.
Qed.

Lemma earlier_reviews_are_left_or_failed_witness :
  MoreSamples.finished_review
  ∈ codeReview (db (analyzeStagedChanges Samples.env Samples.app 1 MoreSamples.reviewed).2).
Proof.
  destruct reviewed_well_kept as (Hfresh & Hdistinct & _).
  destruct (earlier_reviews_are_left_or_failed Samples.env Samples.app [] 1
              MoreSamples.reviewed _ Hfresh Hdistinct (or_introl eq_refl)) as [_ Hkept].
  apply Hkept; [left|left; reflexivity].
Defined.

Lemma analyses_keep_database_well_kept_witness :
  well_kept (db (analyzeStagedChanges Samples.env Samples.app 1 MoreSamples.reviewed).2).
Proof.
  apply (analyses_keep_database_well_kept Samples.env Samples.app [] 1
           MoreSamples.reviewed reviewed_well_kept).
Defined.

Lemma review_stats_are_bounded_witness :
  ∃ stats w',
    ReviewStats.getReviewStats (λ _, false) (λ _ _, lit "0.00") 1 MoreSamples.reviewed
      = (Ok stats, w') ∧
    ReviewStats.totalReviews stats = 1%nat ∧
    (ReviewStats.totalCritical stats + ReviewStats.totalMajor stats
     + ReviewStats.totalMinor stats ≤ ReviewStats.totalIssues stats)%nat.
Proof.
  destruct (ReviewStats.getReviewStats (λ _, false) (λ _ _, lit "0.00") 1
              MoreSamples.reviewed) as [[stats|e] w'] eqn:Hrun;
    [|vm_compute in Hrun; discriminate Hrun].
  destruct (review_stats_are_bounded _ _ _ _ _ _ Hrun) as (_ & Hn & Hb & _).
  exists stats, w'. split; [reflexivity|]. split; [rewrite Hn; reflexivity|].
  apply Hb. destruct reviewed_well_kept as (_ & _ & _ & Hbounded). exact Hbounded.
Defined.

Lemma fix_is_all_or_nothing_witness :
  ∃ fixed w',
    AutoFix.generateAutoFix (λ _, false) (λ _ _, Ok MoreSamples.a_js)
      (λ _ _ _, Ok (LLMReplies.extractFixedCode MoreSamples.fix_reply))
      9%nat Samples.app MoreSamples.reviewed = (Ok fixed, w') ∧
    CodeIssue.fixCode <$> codeIssue (db w') = [Some (lit "const total = 0;")] ∧
    codeReview (db w') = codeReview (db MoreSamples.reviewed).
Proof.
  destruct (AutoFix.generateAutoFix (λ _, false) (λ _ _, Ok MoreSamples.a_js)
              (λ _ _ _, Ok (LLMReplies.extractFixedCode MoreSamples.fix_reply))
              9%nat Samples.app MoreSamples.reviewed) as [[fixed|e] w'] eqn:Hrun;
    [|vm_compute in Hrun; discriminate Hrun].
  destruct (fix_is_all_or_nothing _ _ _ _ _ _ _ _ Hrun) as (Hreviews & _ & _ & Hfixed).
  exists fixed, w'. split; [reflexivity|]. split; [|exact Hreviews].
  vm_compute in Hrun. injection Hrun as <- <-. vm_compute. reflexivity.
Defined.

Lemma code_section_shows_the_issue_witness :
  AutoFix.split_lines (AutoFix.codeSection MoreSamples.issue MoreSamples.a_js)
    = AutoFix.window MoreSamples.issue (AutoFix.split_lines MoreSamples.a_js) ∧
  AutoFix.window MoreSamples.issue (AutoFix.split_lines MoreSamples.a_js) !! 4%nat
    = Some (lit "  var total = 1;").
Proof.
  destruct (code_section_shows_the_issue MoreSamples.issue MoreSamples.a_js)
    as (Hlines & _ & Hshow); [vm_compute; discriminate..|].
  split; [exact Hlines|].
  destruct (Hshow 6) as [_ Hline]; [vm_compute; split; discriminate|].
  vm_compute in Hline. vm_compute. exact Hline.
Defined.

Lemma provider_route_switches_or_refuses_witness :
  ∃ r this',
    AIProviderRoutes.post_provider MoreSamples.remote (Some (Samples.str "gemini"))
      (AIService.constructor None) = (r, this') ∧
    AIProviderRoutes.status r = 200%nat ∧ AIService.getProvider this' = lit "gemini".
Proof.
  destruct (provider_route_switches_or_refuses MoreSamples.remote
              (Some (Samples.str "gemini")) (AIService.constructor None))
    as (r & this' & Hrun & _ & Hiff & Hswitched & _).
  assert (AIProviderRoutes.status r = 200%nat) as Hok.
  { apply Hiff. exists (lit "gemini"). split; [reflexivity|right; reflexivity]. }
  exists r, this'. split; [exact Hrun|]. split; [exact Hok|].
  destruct (Hswitched Hok) as [Hprovider _]. exact Hprovider.
Defined.

Lemma analysis_request_keeps_switch_witness :
  (∃ r w', ReviewsRoutes.analyze_staged MoreSamples.run_staged
             (MoreSamples.staged_request "gemini") (AIService.constructor None)
             Samples.world
           = (r, ({| AIService.provider := lit "gemini" |}, w')) ∧
           ReviewsRoutes.status r = 200%nat) ∧
  ReviewsRoutes.analyze_staged MoreSamples.run_staged
    (MoreSamples.staged_request "openai") (AIService.constructor None) Samples.world
  = (ReviewsRoutes.status_json 400
       (ReviewsRoutes.error (Js.message AIService.invalid_provider)),
     (AIService.constructor None, Samples.world)) ∧
  ReviewsRoutes.analyze_commit (λ _ _ _ _, throw no_diff)
    (MoreSamples.commit_request "openai") (AIService.constructor None) Samples.world
  = (ReviewsRoutes.status_json 400
       (ReviewsRoutes.error (Js.message AIService.invalid_provider)),
     (AIService.constructor None, Samples.world)).
Proof.
  destruct (analysis_request_keeps_switch MoreSamples.run_staged (λ _ _ _ _, throw no_diff)
              (MoreSamples.staged_request "gemini") (AIService.constructor None)
              Samples.world (JString Samples.app) (Samples.num 1))
    as [Hknown _]; [reflexivity..|].
  destruct (analysis_request_keeps_switch MoreSamples.run_staged (λ _ _ _ _, throw no_diff)
              (MoreSamples.staged_request "openai") (AIService.constructor None)
              Samples.world (JString Samples.app) (Samples.num 1))
    as [_ Hstaged]; [reflexivity..|].
  destruct (analysis_request_keeps_switch MoreSamples.run_staged (λ _ _ _ _, throw no_diff)
              (MoreSamples.commit_request "openai") (AIService.constructor None)
              Samples.world (JString Samples.app) (Samples.num 1))
    as [_ Hcommit]; [reflexivity..|].
  assert (∀ p, Samples.str "openai" = JString p → ¬ known p) as Hunknown.
  { intros p [= <-] [H|H]; vm_compute in H; discriminate H. }
  split; [|split].
  - destruct (Hknown (lit "gemini")) as [Hrun _]; [reflexivity|right; reflexivity|].
    rewrite Hrun. vm_compute. eexists _, _. split; reflexivity.
  - apply (Hstaged (Samples.str "openai")); [reflexivity..|exact Hunknown].
  - destruct (Hcommit (Samples.str "openai")) as (_ & Hhash & _);
      [reflexivity..|exact Hunknown|].
    apply (Hhash (Samples.str "c0ffee")); reflexivity.
Defined.

Lemma estimate_is_guarded_by_health_witness :
  estimateEffort_or_default MoreSamples.guarded_env [MoreSamples.issue] Samples.world
  = (Ok (JNumber num_half), Samples.world).
Proof.
  destruct (estimate_is_guarded_by_health MoreSamples.remote Samples.JSON_parse
              (λ _, Throw (Err (lit "fetch failed"))) (λ _, Ok Samples.prose_text)
              (AIService.constructor None) [MoreSamples.issue]) as [Hdown _].
  destruct Hdown as (_ & _ & Hrecorded); [reflexivity|].
  apply (Hrecorded MoreSamples.guarded_env Samples.world). reflexivity.
Defined.

Lemma created_standard_reads_back_witness :
  ∃ r w', StandardsRoutes.post (λ _, false) MoreSamples.airbnb Samples.world = (r, w') ∧
          StandardsRoutes.status r = 200%nat ∧
          CodingStandard.isBuiltIn <$> codingStandard (db w') !! 1%nat = Some false.
Proof.
  destruct (created_standard_reads_back (λ _, false) MoreSamples.airbnb Samples.world)
    as (r & w' & Hrun & _ & _ & Hcreated); [intros n; reflexivity|].
  assert (StandardsRoutes.status r = 200%nat) as Hok.
  { vm_compute in Hrun. injection Hrun as <- _. reflexivity. }
  exists r, w'. split; [exact Hrun|]. split; [exact Hok|].
  destruct (Hcreated Hok) as (s & _ & Hbuiltin & _ & Hstored & _).
  transitivity (CodingStandard.isBuiltIn <$> Some s).
  - f_equal. exact Hstored.
  - cbn. rewrite Hbuiltin. reflexivity.
Defined.

Lemma seeding_twice_creates_nothing_witness :
  ∃ w1 w2,
    StandardsRoutes.seed (λ _, false) Samples.world
      = (StandardsRoutes.json
           (StandardsRoutes.success_seeded (drop 1 StandardsRoutes.builtInStandards)), w1) ∧
    StandardsRoutes.seed (λ _, false) w1
      = (StandardsRoutes.json (StandardsRoutes.success_seeded []), w2) ∧
    db w2 = db w1.
Proof.
  destruct (seeding_twice_creates_nothing (λ _, false) Samples.world)
    as (created & w1 & w2 & Hfirst & Hcreated & _ & _ & _ & Hsecond & Hdb).
  - intros n. reflexivity.
  - split; [|split; apply Forall_nil_2].
    intros k [x Hk]. cbn in Hk. apply lookup_singleton_Some in Hk as [<- _].
    cbn. lia.
  - exists w1, w2. split; [|split; [exact Hsecond|exact Hdb]].
    rewrite Hfirst, Hcreated.
    assert (filter (unseeded (db Samples.world)) StandardsRoutes.builtInStandards
            = drop 1 StandardsRoutes.builtInStandards) as -> by (vm_compute; reflexivity).
    reflexivity.
Defined.

Lemma deleting_a_review_takes_its_issues_witness :
  ∃ r w', ReviewsRoutes.delete (λ _, false) 7%nat (AIService.constructor None)
            MoreSamples.reviewed = (r, (AIService.constructor None, w')) ∧
          ReviewsRoutes.status r = 200%nat ∧
          MoreSamples.issue ∉ codeIssue (db w').
Proof.
  destruct (deleting_a_review_takes_its_issues (λ _, false) 7%nat
              (AIService.constructor None) MoreSamples.reviewed)
    as (r & w' & Hrun & Hstored & _); [reflexivity|].
  destruct Hstored as (Hok & _ & Hissues & _).
  { exists MoreSamples.finished_review. split; [left|reflexivity]. }
  exists r, w'. split; [exact Hrun|]. split; [exact Hok|].
  intros Hin. apply Hissues in Hin as [_ Hne]. apply Hne. reflexivity.
Defined.

Lemma default_estimate_is_stored_with_every_issue_witness :
  ∃ v w',
    estimateEffort_or_default MoreSamples.defaulting [MoreSamples.issue]
      MoreSamples.reviewed = (Ok v, w') ∧
    CodeIssue.effort <$> codeIssue (db w') = [Some num_half].
Proof.
  destruct (default_estimate_is_stored_with_every_issue MoreSamples.defaulting
              [MoreSamples.issue] MoreSamples.reviewed) as (v & w' & Hrun & _ & Hrows).
  - intros n. reflexivity.
  - reflexivity.
  - cbn. apply NoDup_singleton.
  - apply Forall_singleton. apply Exists_cons_hd. reflexivity.
  - exists v, w'. split; [exact Hrun|]. rewrite Hrows. vm_compute. reflexivity.
Defined.
